(** * Mix-design calculator of [server.js]: model and verified properties

    The JavaScript source computes six empirical quadratic regressions of
    the characteristic strength [fck], rounds them for display and checks
    them against the limits of an exposure class.  JavaScript numbers are
    IEEE-754 binary64 values, so the model uses Rocq's primitive [float]
    (the same format, round-to-nearest-even) for every number of the
    program; nothing is idealised to real arithmetic. *)

From Stdlib Require Import ZArith Floats String DecimalString List Bool Lia.
Import ListNotations.
From Stdlib Require Import DecimalZ Sorted Permutation.

Set Warnings "-inexact-float".

Open Scope float_scope.

(** ** JavaScript values reaching [computeMixDesign] *)

(** The primitive values a JSON request body can carry in [fck]. *)
Inductive value : Type :=
| VUndefined
| VNull
| VBool (b : bool)
| VNumber (x : float)
| VString (s : string).

(** [!x] for a number: [0], [-0] and [NaN] are the falsy numbers. *)
Definition falsy (x : float) : bool := is_zero x || is_nan x.

(** [Number.isFinite]. *)
Definition isFinite (x : float) : bool := is_finite x.

(** ** Built-in [Math] functions used by [round] *)

(** [Math.pow(b, n)] at a non-negative integer exponent.  The two call sites
    use base 10 with exponents 2 and 3, where the result (100, 1000) is
    exact. *)
Fixpoint Math_pow (b : float) (n : nat) : float :=
  match n with
  | O => 1
  | S k => b * Math_pow b k
  end.

(** The integer [floor(v + 1/2)] for the dyadic rational [v = ±m·2^e] with
    [e < 0]: [v + 1/2 = (±2m + 2^-e) / 2^(1-e)], and [Z.div] rounds down. *)
Definition round_half_up (s : bool) (m : positive) (e : Z) : Z :=
  ((cond_Zopp s (2 * Zpos m) + 2 ^ (- e)) / 2 ^ (1 - e))%Z.

(** [Math.round(x)] (ECMA-262, 21.3.2.28): NaN, infinities, zeros and
    integral values are returned unchanged; any other value goes to the
    nearest integer, a tie to the integer closer to +∞; a negative value
    that rounds to zero gives [-0]. *)
Definition Math_round (x : float) : float :=
  match Prim2SF x with
  | S754_finite s m e =>
      if (0 <=? e)%Z then x
      else SF2Prim (binary_normalize prec emax (round_half_up s m e) 0 s)
  | _ => x
  end.

(** ** The exposure table *)

Record ExposureClass : Type := {
  key : string;
  label : string;
  maxWc : float;
  minCement : float;
  minGradeFck : float
}.

Definition mild : ExposureClass :=
  {| key := "mild"; label := "Mild (RCC)";
     maxWc := 0.55; minCement := 300; minGradeFck := 20 |}.

Definition moderate : ExposureClass :=
  {| key := "moderate"; label := "Moderate (RCC)";
     maxWc := 0.5; minCement := 300; minGradeFck := 25 |}.

Definition severe : ExposureClass :=
  {| key := "severe"; label := "Severe (RCC)";
     maxWc := 0.45; minCement := 320; minGradeFck := 30 |}.

Definition verySevere : ExposureClass :=
  {| key := "verySevere"; label := "Very Severe (RCC)";
     maxWc := 0.45; minCement := 340; minGradeFck := 35 |}.

Definition extreme : ExposureClass :=
  {| key := "extreme"; label := "Extreme (RCC)";
     maxWc := 0.4; minCement := 360; minGradeFck := 40 |}.

(** Own properties of the object literal [EXPOSURES]. *)
Definition EXPOSURES : list (string * ExposureClass) :=
  [ ("mild", mild); ("moderate", moderate); ("severe", severe);
    ("verySevere", verySevere); ("extreme", extreme) ]%string.

(** [EXPOSURES] is an ordinary object, so a property read that misses the
    own properties continues in [Object.prototype].  These are its property
    names; each holds a function, except [__proto__], whose getter returns
    [Object.prototype] itself. *)
Definition Object_prototype : list string :=
  [ "constructor"; "__defineGetter__"; "__defineSetter__"; "hasOwnProperty";
    "__lookupGetter__"; "__lookupSetter__"; "isPrototypeOf";
    "propertyIsEnumerable"; "toString"; "valueOf"; "__proto__";
    "toLocaleString" ]%string.

(** What a property read on [EXPOSURES] can evaluate to, [undefined] apart. *)
Inductive object : Type :=
| OExposure (e : ExposureClass)
| OInherited (name : string).

Fixpoint own_property (k : string) (o : list (string * ExposureClass))
  : option ExposureClass :=
  match o with
  | [] => None
  | (k', e) :: o' => if String.eqb k k' then Some e else own_property k o'
  end.

(** The property key of [EXPOSURES[exposureKey]]: the string itself, or
    ["undefined"] when the argument is absent. *)
Definition ToPropertyKey (exposureKey : option string) : string :=
  match exposureKey with
  | Some s => s
  | None => "undefined"%string
  end.

(** [EXPOSURES[exposureKey]]; [None] is [undefined]. *)
Definition EXPOSURES_get (exposureKey : option string) : option object :=
  let k := ToPropertyKey exposureKey in
  match own_property k EXPOSURES with
  | Some e => Some (OExposure e)
  | None =>
      if existsb (String.eqb k) Object_prototype then Some (OInherited k)
      else None
  end.

(** [a || b] where [a] is an object or [undefined]: every object, and every
    function, is truthy. *)
Definition or_else (a : option object) (b : object) : object :=
  match a with
  | Some o => o
  | None => b
  end.

(** [limits.maxWc], [limits.minCement], [limits.minGradeFck]: a number on an
    exposure entry, [undefined] (here [None]) on anything inherited. *)
Definition get_maxWc (limits : object) : option float :=
  match limits with
  | OExposure e => Some (maxWc e)
  | OInherited _ => None
  end.

Definition get_minCement (limits : object) : option float :=
  match limits with
  | OExposure e => Some (minCement e)
  | OInherited _ => None
  end.

Definition get_minGradeFck (limits : object) : option float :=
  match limits with
  | OExposure e => Some (minGradeFck e)
  | OInherited _ => None
  end.

(** [ToNumber] of a property read: [undefined] converts to [NaN], so every
    comparison against it is [false]. *)
Definition ToNumber (p : option float) : float :=
  match p with
  | Some v => v
  | None => nan
  end.

(** [a >= b] on numbers: [false] as soon as an operand is [NaN]. *)
Definition geb (a b : float) : bool := b <=? a.

(** ** [round(value, decimals)] *)

(** The argument is [None] for [null]/[undefined]; the result is [None] for
    [null]. *)
Definition round (value : option float) (decimals : nat) : option float :=
  match value with
  | None => None
  | Some v =>
      if is_nan v then None
      else
        let factor := Math_pow 10 decimals in
        Some (Math_round (v * factor) / factor)
  end.

(** ** The regressions of [computeMixDesign] *)

(** Each [const] of the body is a function of [x], written in the source's
    operator order (binary operators associate to the left). *)
Definition raw_fckMean (x : float) : float :=
  -0.0035 * x * x + 1.3074 * x + 1.6883.

Definition raw_w_c (x : float) : float :=
  9e-06 * x * x - 0.0044 * x + 0.5617.

Definition raw_water (x : float) : float :=
  -0.0107 * x * x - 0.0941 * x + 195.56.

Definition raw_cement (x : float) : float :=
  -0.0308 * x * x + 4.7223 * x + 298.78.

Definition raw_fineAgg (x : float) : float :=
  -0.1156 * x * x + 10.473 * x + 484.42.

Definition raw_coarseAgg (x : float) : float :=
  0.0335 * x * x - 5.2723 * x + 1234.4.

(** ** The result object *)

Record Checks : Type := {
  isWcOk : bool;
  isCementOk : bool;
  isGradeOk : bool;
  limits : object
}.

Record MixDesign : Type := {
  fckMean : option float;
  w_c : option float;
  water : option float;
  cement : option float;
  fineAgg : option float;
  coarseAgg : option float;
  checks : Checks
}.

(** ** The store of recorded runs *)

(** [!v], [a || b] on the values of a request body. *)
Definition truthy (v : value) : bool :=
  match v with
  | VUndefined | VNull => false
  | VBool b => b
  | VNumber x => negb (falsy x)
  | VString s => negb (String.eqb s "")
  end.

Definition value_or (a b : value) : value := if truthy a then a else b.

(** The JSON body of [POST /api/mix-design], destructured, when its fields
    are primitives and its exposure a string or absent; bodies that carry
    arrays or objects are the subject of the last part. *)
Record Body : Type := {
  body_fck : value;
  body_cementGrade : value;
  body_exposure : option string;
  body_projectName : value;
  body_projectSite : value;
  body_mixId : value;
  body_castingDate : value
}.

Record Project : Type := {
  projectName : value;
  projectSite : value;
  mixId : value;
  castingDate : value
}.

Record Input : Type := {
  input_fck : float;
  input_cementGrade : value;
  input_exposure : value
}.

Record Run : Type := {
  run_id : Z;
  run_timestamp : string;
  run_project : Project;
  run_input : Input;
  run_result : MixDesign
}.

(** The module-level [let RUNS = []; let NEXT_ID = 1;]. *)
Record Store : Type := {
  RUNS : list Run;
  NEXT_ID : Z
}.

Definition initial_store : Store := {| RUNS := []; NEXT_ID := 1 |}.

Inductive Response : Type :=
| BadRequest (message : string)
| Ok (data : Run).

(** [expCfg.key]. *)
Definition get_key (o : object) : value :=
  match o with
  | OExposure e => VString (key e)
  | OInherited _ => VUndefined
  end.

(** [String(n)] for an integer and [s.padStart(3, "0")]. *)
Definition String_of_Z (n : Z) : string :=
  NilZero.string_of_int (Z.to_int n).

Definition padStart3 (s : string) : string :=
  match String.length s with
  | 0 => "000" ++ s
  | 1 => "00" ++ s
  | 2 => "0" ++ s
  | _ => s
  end%string.

(** ** Built-ins used by the list and export handlers *)

Section Sort.

Context {A : Type}.

(** The comparator passed to [sort]. *)
Variable comparefn : A -> A -> float.

(** In a sort, [x] has to come after [y] when [comparefn(x, y) > 0]; a [NaN]
    result counts as [+0] (ECMA-262, SortCompare). *)
Definition sorts_after (x y : A) : bool := 0 <? comparefn x y.

Fixpoint sort_insert (x : A) (l : list A) : list A :=
  match l with
  | [] => [x]
  | y :: l' => if sorts_after x y then y :: sort_insert x l' else x :: y :: l'
  end.

(** [Array.prototype.sort(comparefn)], on a copy of the array.  ECMA-262
    requires the sort to be stable, which for a consistent comparator fixes
    the result; stable insertion computes it. *)
Definition Array_sort (l : list A) : list A := fold_right sort_insert [] l.

End Sort.

(** The characters the export handler names. *)
Module Char.
Import Ascii.
Definition comma : ascii := ","%char.
Definition space : ascii := " "%char.
Definition line_feed : ascii := "010"%char.
End Char.

(** [s.replace(/,/g, " ")]. *)
Fixpoint replace_commas (s : string) : string :=
  match s with
  | EmptyString => EmptyString
  | String c s' =>
      String (if Ascii.eqb c Char.comma then Char.space else c) (replace_commas s')
  end.

(** The line feed of ["\n"]. *)
Definition LF : string := String Char.line_feed EmptyString.

(** [Array.prototype.join(sep)] on an array of strings. *)
Definition Array_join (sep : string) (items : list string) : string :=
  String.concat sep items.

(** [xs.map(f)] for an [f] that can throw: [None] as soon as one call
    throws. *)
Fixpoint map_throwing {A B : Type} (f : A -> option B) (l : list A)
  : option (list B) :=
  match l with
  | [] => Some []
  | x :: l' =>
      match f x with
      | None => None
      | Some y =>
          match map_throwing f l' with
          | None => None
          | Some ys => Some (y :: ys)
          end
      end
  end.

(** The response of [GET /api/mix-design/runs]. *)
Record Listing : Type := {
  count : nat;
  data : list Run
}.

(** The header line of the export. *)
Definition csv_header : string :=
  Array_join ","
    [ "id"; "timestamp"; "projectName"; "projectSite"; "mixId"; "castingDate";
      "fck"; "cementGrade"; "exposure"; "fckMean"; "w_c"; "water"; "cement";
      "fineAgg"; "coarseAgg"; "isWcOk"; "isCementOk"; "isGradeOk" ]%string.

(** [String(b)] for a boolean. *)
Definition Boolean_toString (b : bool) : string :=
  if b then "true"%string else "false"%string.

(** [(v || "").replace(/,/g, " ")]: only a string has a [replace] method, so
    a truthy number or boolean throws a [TypeError], here [None]. *)
Definition sanitize (v : value) : option string :=
  match value_or v (VString "") with
  | VString s => Some (replace_commas s)
  | _ => None
  end.

Section Host.

(** [Number(s)] on a string is the host's StringToNumber: a numeric literal
    converts to its value, the empty string to [0], anything else to [NaN]. *)
Variable StringToNumber : string -> float.

(** [Number(fck)]. *)
Definition Number (fck : value) : float :=
  match fck with
  | VUndefined => nan
  | VNull => 0
  | VBool true => 1
  | VBool false => 0
  | VNumber x => x
  | VString s => StringToNumber s
  end.

(** [computeMixDesign(fck, exposureKey)]; [None] is the [null] return. *)
Definition computeMixDesign (fck : value) (exposureKey : option string)
  : option MixDesign :=
  let x := Number fck in
  if falsy x || is_nan x || (x <=? 0) then None
  else
    let limits := or_else (EXPOSURES_get exposureKey) (OExposure mild) in
    let fckMean := raw_fckMean x in
    let w_c := raw_w_c x in
    let water := raw_water x in
    let cement := raw_cement x in
    let fineAgg := raw_fineAgg x in
    let coarseAgg := raw_coarseAgg x in
    let isWcOk := w_c <=? ToNumber (get_maxWc limits) in
    let isCementOk := geb cement (ToNumber (get_minCement limits)) in
    let isGradeOk := geb x (ToNumber (get_minGradeFck limits)) in
    Some {| fckMean := round (Some fckMean) 2;
            w_c := round (Some w_c) 3;
            water := round (Some water) 2;
            cement := round (Some cement) 2;
            fineAgg := round (Some fineAgg) 2;
            coarseAgg := round (Some coarseAgg) 2;
            checks := {| isWcOk := isWcOk;
                         isCementOk := isCementOk;
                         isGradeOk := isGradeOk;
                         limits := limits |} |}.

(** *** The request handler that records a run *)

(** [POST /api/mix-design]: the only caller of [computeMixDesign], and the
    only writer of the store.  The two readings of the clock
    ([new Date().toISOString()]) are inputs.  On a body with primitive
    fields no conversion throws, so the response is [400] or the run. *)
Definition post_mix_design (timestamp today : string) (body : Body)
  (st : Store) : Response * Store :=
  if negb (truthy (body_fck body)) then
    (BadRequest "fck is required", st)
  else
    match computeMixDesign (body_fck body) (body_exposure body) with
    | None => (BadRequest "Invalid fck value", st)
    | Some result =>
        let expCfg :=
          or_else (EXPOSURES_get (body_exposure body)) (OExposure mild) in
        let id := NEXT_ID st in
        let NEXT_ID' := (NEXT_ID st + 1)%Z in
        let run :=
          {| run_id := id;
             run_timestamp := timestamp;
             run_project :=
               {| projectName := value_or (body_projectName body) (VString "");
                  projectSite := value_or (body_projectSite body) (VString "");
                  mixId :=
                    value_or (body_mixId body)
                      (VString ("MIX-" ++ padStart3 (String_of_Z (NEXT_ID' - 1))));
                  castingDate :=
                    value_or (body_castingDate body)
                      (VString (substring 0 10 today)) |};
             run_input :=
               {| input_fck := Number (body_fck body);
                  input_cementGrade := value_or (body_cementGrade body) VNull;
                  input_exposure := get_key expCfg |};
             run_result := result |} in
        (Ok run, {| RUNS := RUNS st ++ [run]; NEXT_ID := NEXT_ID' |})
    end.

(** The [result] a response carries, if any. *)
Definition response_result (r : Response) : option MixDesign :=
  match r with
  | Ok run => Some (run_result run)
  | BadRequest _ => None
  end.

(** The store after a sequence of requests, each with its clock readings. *)
Definition serve (requests : list (string * string * Body)) (st : Store)
  : Store :=
  fold_left
    (fun st rq => snd (post_mix_design (fst (fst rq)) (snd (fst rq)) (snd rq) st))
    requests st.

(** *** [GET /api/mix-design/runs] *)

(** The time value of [new Date(s)] for a string [s]: milliseconds since the
    epoch, or [NaN] when [s] is no date. *)
Variable Date_parse : string -> float.

(** The comparator [(a, b) => new Date(b.timestamp) - new Date(a.timestamp)]. *)
Definition by_timestamp (a b : Run) : float :=
  Date_parse (run_timestamp b) - Date_parse (run_timestamp a).

(** The handler reads the store and leaves it as it is: the sort works on
    the copy [[...RUNS]]. *)
Definition get_runs (st : Store) : Listing :=
  let sorted := Array_sort by_timestamp (RUNS st) in
  {| count := length sorted; data := sorted |}.

(** *** [GET /api/mix-design/export.csv] *)

(** [Number::toString] of the host: the decimal text of a number. *)
Variable NumberToString : float -> string.

(** [ToString] of a primitive value. *)
Definition ToString (v : value) : string :=
  match v with
  | VUndefined => "undefined"
  | VNull => "null"
  | VBool b => Boolean_toString b
  | VNumber x => NumberToString x
  | VString s => s
  end%string.

(** An element under [join]: [undefined] and [null] give the empty string,
    anything else its [ToString]. *)
Definition join_item (v : value) : string :=
  match v with
  | VUndefined | VNull => ""%string
  | _ => ToString v
  end.

(** A numeric field of the result under [join]: [null] gives the empty
    string. *)
Definition join_number (f : option float) : string :=
  match f with
  | None => ""%string
  | Some v => NumberToString v
  end.

(** The eighteen array elements of one row, converted as [join] does; the
    fields of the run are primitives, whose conversion to text cannot
    throw. *)
Definition csv_fields (run : Run) : option (list string) :=
  let project := run_project run in
  let input := run_input run in
  let result := run_result run in
  match sanitize (projectName project),
        sanitize (projectSite project),
        sanitize (mixId project) with
  | Some name, Some site, Some mix =>
      Some [ String_of_Z (run_id run);
             run_timestamp run;
             name;
             site;
             mix;
             join_item (value_or (castingDate project) (VString ""));
             NumberToString (input_fck input);
             join_item (input_cementGrade input);
             join_item (input_exposure input);
             join_number (fckMean result);
             join_number (w_c result);
             join_number (water result);
             join_number (cement result);
             join_number (fineAgg result);
             join_number (coarseAgg result);
             Boolean_toString (isWcOk (checks result));
             Boolean_toString (isCementOk (checks result));
             Boolean_toString (isGradeOk (checks result)) ]
  | _, _, _ => None
  end.

(** The callback of [RUNS.map]: one line of the export. *)
Definition csv_row (run : Run) : option string :=
  option_map (Array_join ",") (csv_fields run).

(** The body the handler sends; [None] when building a row throws. *)
Definition export_csv (st : Store) : option string :=
  match map_throwing csv_row (RUNS st) with
  | Some rows => Some (Array_join LF (csv_header :: rows))
  | None => None
  end.

End Host.

(** * Binary64 arithmetic

    Rocq specifies the primitive operations through [SpecFloat]: each is the
    exact operation on mantissa and exponent followed by one rounding to
    nearest, ties to even.  This part derives from that specification the
    facts the claims need: every finite number is an integer multiple of
    2^-1074, so in units of 2^-[Kexp] (with [Kexp] = 2·1074, fine enough for
    exact products) values are integers; rounding is a monotone function [RN]
    on these integers; and so the operations are monotone, which makes
    interval evaluation in binary64 itself sound. *)

Module Binary64.

Local Open Scope Z_scope.

(* digits *)
Lemma digits2_pos_size p : digits2_pos p = Pos.size p.
Proof. induction p; simpl; congruence. Qed.

Lemma Zdigits2_log2 p : Zpos (digits2_pos p) = Z.log2 (Zpos p) + 1.
Proof.
  rewrite digits2_pos_size.
  destruct p; simpl; try reflexivity; rewrite ?Pos2Z.inj_succ; lia.
Qed.

Definition rne (m n : Z) : Z :=
  if n <=? 0 then m
  else
    let q := Z.shiftr m n in
    let r := m - Z.shiftl q n in
    let h := Z.shiftl 1 (n - 1) in
    if (h <? r) || ((h =? r) && Z.odd q) then q + 1 else q.

Lemma rne_unfold (m n : Z) :
  rne m n =
  if n <=? 0 then m
  else
    if (2 ^ (n - 1) <? m mod 2 ^ n) || ((2 ^ (n - 1) =? m mod 2 ^ n) && Z.odd (m / 2 ^ n))
    then m / 2 ^ n + 1 else m / 2 ^ n.
Proof.
  unfold rne. destruct (Z.leb_spec n 0) as [|Hn]; [reflexivity|]. cbv zeta.
  rewrite Z.shiftr_div_pow2, !Z.shiftl_mul_pow2, Z.mul_1_l by lia.
  rewrite (Z.mod_eq m (2 ^ n)) by (apply Z.pow_nonzero; lia).
  rewrite (Z.mul_comm (2 ^ n)). reflexivity.
Qed.

Lemma iter_pos_nat {A : Type} (f : A -> A) (p : positive) (x : A) :
  iter_pos f p x = Nat.iter (Pos.to_nat p) f x.
Proof.
  revert x. induction p as [p IH|p IH|]; intros x; cbn [iter_pos].
  - rewrite !IH, Pos2Nat.inj_xI.
    replace (S (2 * Pos.to_nat p))%nat with (Pos.to_nat p + (Pos.to_nat p + 1))%nat by lia.
    rewrite !Nat.iter_add. reflexivity.
  - rewrite !IH, Pos2Nat.inj_xO.
    replace (2 * Pos.to_nat p)%nat with (Pos.to_nat p + Pos.to_nat p)%nat by lia.
    rewrite Nat.iter_add. reflexivity.
  - reflexivity.
Qed.

Lemma shr_1_nonneg (m : Z) (r s : bool) :
  0 <= m ->
  shr_1 {| shr_m := m; shr_r := r; shr_s := s |} =
  {| shr_m := m / 2; shr_r := Z.odd m; shr_s := r || s |}.
Proof.
  intros Hm. rewrite <- Z.div2_div.
  destruct m as [|[p|p|]|p]; try reflexivity. lia.
Qed.

Lemma mod_pow2_succ (m n : Z) :
  0 <= n ->
  m mod 2 ^ (n + 1) = m mod 2 ^ n + 2 ^ n * ((m / 2 ^ n) mod 2).
Proof.
  intros Hn. rewrite Z.pow_add_r by lia. change (2 ^ 1) with 2.
  apply Z.rem_mul_r; [ apply Z.pow_nonzero; lia | lia ].
Qed.

Lemma odd_mod2 a : Z.odd a = (a mod 2 =? 1).
Proof.
  rewrite Zmod_odd. destruct (Z.odd a); reflexivity.
Qed.

Lemma shr_iter (m : Z) (n : nat) :
  0 <= m ->
  Nat.iter (S n) shr_1 {| shr_m := m; shr_r := false; shr_s := false |} =
  {| shr_m := m / 2 ^ (Z.of_nat n + 1);
     shr_r := Z.odd (m / 2 ^ Z.of_nat n);
     shr_s := negb (m mod 2 ^ Z.of_nat n =? 0) |}.
Proof.
  intros Hm. induction n as [|n IH].
  - cbn [Nat.iter]. rewrite shr_1_nonneg by assumption.
    change (2 ^ Z.of_nat 0) with 1. rewrite Z.div_1_r, Z.mod_1_r. reflexivity.
  - change (Nat.iter (S (S n)) shr_1 ?x) with (shr_1 (Nat.iter (S n) shr_1 x)).
    rewrite IH. rewrite shr_1_nonneg by (apply Z.div_pos; [lia | apply Z.pow_pos_nonneg; lia]).
    rewrite Nat2Z.inj_succ. unfold Z.succ.
    f_equal.
    + rewrite Z.div_div by (try apply Z.pow_pos_nonneg; lia).
      rewrite (Z.pow_add_r 2 (Z.of_nat n + 1) 1) by lia. reflexivity.
    + rewrite (mod_pow2_succ m (Z.of_nat n)) by lia.
      pose proof (Z.mod_pos_bound m (2 ^ Z.of_nat n) ltac:(apply Z.pow_pos_nonneg; lia)) as Hb.
      pose proof (Z.pow_pos_nonneg 2 (Z.of_nat n) ltac:(lia) ltac:(lia)) as Hp.
      rewrite odd_mod2.
      pose proof (Z.mod_pos_bound (m / 2 ^ Z.of_nat n) 2 ltac:(lia)) as Hb2.
      destruct (Z.eqb_spec ((m / 2 ^ Z.of_nat n) mod 2) 1) as [E|E];
      destruct (Z.eqb_spec (m mod 2 ^ Z.of_nat n) 0) as [F|F];
      destruct (Z.eqb_spec (m mod 2 ^ Z.of_nat n +
                            2 ^ Z.of_nat n * ((m / 2 ^ Z.of_nat n) mod 2)) 0) as [G|G];
      cbn [negb orb]; try reflexivity; exfalso; nia.
Qed.

Lemma rne_of_record (m k : Z) :
  0 <= m -> 0 <= k ->
  round_nearest_even (m / 2 ^ (k + 1))
    (loc_of_shr_record
       {| shr_m := m / 2 ^ (k + 1);
          shr_r := Z.odd (m / 2 ^ k);
          shr_s := negb (m mod 2 ^ k =? 0) |}) = rne m (k + 1).
Proof.
  intros Hm Hk. rewrite !rne_unfold.
  destruct (Z.leb_spec (k + 1) 0) as [?|_]; [lia|].
  replace (k + 1 - 1) with k by lia.
  rewrite (mod_pow2_succ m k) by lia.
  rewrite (Z.pow_add_r 2 k 1) by lia. change (2 ^ 1) with 2.
  pose proof (Z.pow_pos_nonneg 2 k ltac:(lia) ltac:(lia)) as Hp.
  rewrite <- Z.div_div by lia.
  set (h := 2 ^ k) in *.
  set (a := m / h). set (b := m mod h).
  pose proof (Z.mod_pos_bound m h Hp) as Hb. fold b in Hb.
  rewrite odd_mod2.
  pose proof (Z.mod_pos_bound a 2 ltac:(lia)) as Ha.
  cbn [loc_of_shr_record].
  destruct (Z.eqb_spec (a mod 2) 1) as [E|E];
  destruct (Z.eqb_spec b 0) as [F|F]; cbn [negb round_nearest_even].
  - rewrite E, F. replace (h <? 0 + h * 1) with false by (symmetry; apply Z.ltb_ge; lia).
    replace (h =? 0 + h * 1) with true by (symmetry; apply Z.eqb_eq; lia).
    cbn [orb andb]. rewrite <- Z.negb_odd. destruct (Z.odd (a / 2)); reflexivity.
  - rewrite E. replace (h <? b + h * 1) with true by (symmetry; apply Z.ltb_lt; lia).
    reflexivity.
  - assert (a mod 2 = 0) as -> by lia.
    replace (h <? b + h * 0) with false by (symmetry; apply Z.ltb_ge; lia).
    replace (h =? b + h * 0) with false by (symmetry; apply Z.eqb_neq; lia).
    reflexivity.
  - assert (a mod 2 = 0) as -> by lia.
    replace (h <? b + h * 0) with false by (symmetry; apply Z.ltb_ge; lia).
    replace (h =? b + h * 0) with false by (symmetry; apply Z.eqb_neq; lia).
    reflexivity.
Qed.

Lemma fexp_eq k : fexp prec emax k = Z.max (k - 53) (-1074).
Proof. reflexivity. Qed.

Lemma shr_fexp_exact (m e : Z) :
  0 <= m ->
  shr_fexp prec emax m e loc_Exact =
  let n := fexp prec emax (Zdigits2 m + e) - e in
  if n <=? 0 then ({| shr_m := m; shr_r := false; shr_s := false |}, e)
  else ({| shr_m := m / 2 ^ n;
           shr_r := Z.odd (m / 2 ^ (n - 1));
           shr_s := negb (m mod 2 ^ (n - 1) =? 0) |}, e + n).
Proof.
  intros Hm. unfold shr_fexp. cbn [shr_record_of_loc].
  set (n := fexp prec emax (Zdigits2 m + e) - e). cbv zeta.
  unfold shr. destruct n as [|p|p] eqn:En; try reflexivity.
  replace (Z.pos p <=? 0) with false by (symmetry; apply Z.leb_gt; lia).
  rewrite iter_pos_nat.
  destruct (Pos.to_nat p) as [|k] eqn:Ek; [lia|].
  rewrite shr_iter by assumption.
  replace (Z.of_nat k + 1) with (Z.pos p) by lia.
  replace (Z.of_nat k) with (Z.pos p - 1) by lia.
  reflexivity.
Qed.

Lemma rne_bounds (m n : Z) :
  0 <= m -> 0 <= n -> m / 2 ^ n <= rne m n <= m / 2 ^ n + 1.
Proof.
  intros Hm Hn. rewrite !rne_unfold.
  destruct (Z.leb_spec n 0).
  - replace n with 0 by lia. rewrite Z.div_1_r. lia.
  - destruct (_ || _); lia.
Qed.

(** rounding never goes past a multiple of 2^n above the argument *)
Lemma rne_le_multiple (m n c : Z) :
  0 <= m -> 0 <= n -> m <= c * 2 ^ n -> rne m n <= c.
Proof.
  intros Hm Hn Hc. rewrite !rne_unfold.
  pose proof (Z.pow_pos_nonneg 2 n ltac:(lia) Hn) as Hp.
  destruct (Z.leb_spec n 0).
  - replace n with 0 in Hc by lia. change (2 ^ 0) with 1 in Hc. lia.
  - pose proof (Z.div_mod m (2 ^ n) ltac:(lia)) as Hdm.
    pose proof (Z.mod_pos_bound m (2 ^ n) Hp) as Hb.
    assert (2 ^ n = 2 * 2 ^ (n - 1)) as Hh.
    { rewrite <- Z.pow_succ_r by lia. f_equal. lia. }
    pose proof (Z.pow_pos_nonneg 2 (n - 1) ltac:(lia) ltac:(lia)) as Hp1.
    set (q := m / 2 ^ n) in *. set (r := m mod 2 ^ n) in *.
    set (P := 2 ^ n) in *. set (h := 2 ^ (n - 1)) in *.
    assert (q <= c) by nia.
    destruct (Z.ltb_spec h r); cbn [orb].
    + assert (q < c) by nia. lia.
    + destruct (Z.eqb_spec h r); cbn [andb]; [|lia].
      destruct (Z.odd q); [|lia]. assert (q < c) by nia. lia.
Qed.

Lemma rne_ge_multiple (m n c : Z) :
  0 <= m -> 0 <= n -> c * 2 ^ n <= m -> c <= rne m n.
Proof.
  intros Hm Hn Hc.
  pose proof (Z.pow_pos_nonneg 2 n ltac:(lia) Hn) as Hp.
  pose proof (rne_bounds m n Hm Hn).
  assert (c <= m / 2 ^ n); [|lia].
  apply Z.div_le_lower_bound; lia.
Qed.

Lemma rne_mono (m1 m2 n : Z) :
  0 <= m1 -> m1 <= m2 -> 0 <= n -> rne m1 n <= rne m2 n.
Proof.
  intros H1 H12 Hn.
  pose proof (Z.pow_pos_nonneg 2 n ltac:(lia) Hn) as Hp.
  destruct (Z.eq_dec n 0) as [->|Hn0].
  { rewrite !rne_unfold. cbn. lia. }
  pose proof (Z.div_le_mono m1 m2 (2 ^ n) Hp H12) as Hq.
  destruct (Z.eq_dec (m1 / 2 ^ n) (m2 / 2 ^ n)) as [E|E].
  - rewrite !rne_unfold. destruct (Z.leb_spec n 0); [lia|].
    rewrite E.
    pose proof (Z.div_mod m1 (2 ^ n) ltac:(lia)) as D1.
    pose proof (Z.div_mod m2 (2 ^ n) ltac:(lia)) as D2.
    rewrite E in D1.
    assert (m1 mod 2 ^ n <= m2 mod 2 ^ n) as Hr by lia.
    set (h := 2 ^ (n - 1)) in *.
    destruct (Z.ltb_spec h (m1 mod 2 ^ n)); cbn [orb].
    + replace (h <? m2 mod 2 ^ n) with true by (symmetry; apply Z.ltb_lt; lia).
      cbn [orb]. lia.
    + destruct (Z.eqb_spec h (m1 mod 2 ^ n)); cbn [andb].
      * destruct (Z.odd (m2 / 2 ^ n)).
        -- destruct (Z.ltb_spec h (m2 mod 2 ^ n)); cbn [orb]; [lia|].
           replace (h =? m2 mod 2 ^ n) with true by (symmetry; apply Z.eqb_eq; lia).
           cbn [andb]. lia.
        -- destruct (_ || _); lia.
      * destruct (_ || _); lia.
  - pose proof (rne_bounds m1 n H1 Hn). pose proof (rne_bounds m2 n ltac:(lia) Hn). lia.
Qed.

Definition is_finite_SF (f : spec_float) : bool :=
  match f with
  | S754_zero _ | S754_finite _ _ _ => true
  | _ => false
  end.

Definition is_nan_SF (f : spec_float) : bool :=
  match f with
  | S754_nan => true
  | _ => false
  end.

Definition Kexp : Z := 2148.
Definition TOP : Z := 2 ^ (1024 + Kexp).

Definition SFval (f : spec_float) : Z :=
  match f with
  | S754_zero _ => 0
  | S754_infinity s => cond_Zopp s TOP
  | S754_nan => 0
  | S754_finite s m e => cond_Zopp s (Zpos m * 2 ^ (e + Kexp))
  end.

Lemma pow2_pos (n : Z) : 0 <= n -> 0 < 2 ^ n.
Proof. intros; apply Z.pow_pos_nonneg; lia. Qed.

Lemma TOP_pos : 0 < TOP.
Proof. unfold TOP. apply pow2_pos. unfold Kexp. lia. Qed.

Lemma TOP_eq_53 : TOP = 2 ^ 53 * 2 ^ (971 + Kexp).
Proof. reflexivity. Qed.

Lemma TOP_eq_52 : TOP = 2 ^ 52 * 2 ^ (972 + Kexp).
Proof. reflexivity. Qed.

Global Opaque TOP.

Lemma digits_bounds (p : positive) :
  2 ^ (Zpos (digits2_pos p) - 1) <= Zpos p < 2 ^ Zpos (digits2_pos p).
Proof.
  rewrite Zdigits2_log2.
  pose proof (Z.log2_spec (Zpos p) ltac:(lia)) as H.
  replace (Z.log2 (Z.pos p) + 1 - 1) with (Z.log2 (Zpos p)) by lia.
  unfold Z.succ in H. exact H.
Qed.

Lemma Zdigits2_pos_le (q b : Z) :
  0 < q -> 0 <= b -> q < 2 ^ b -> Zdigits2 q <= b.
Proof.
  intros Hq Hb Hlt. destruct q as [|p|p]; try lia.
  cbn [Zdigits2]. rewrite Zdigits2_log2.
  apply Z.log2_lt_pow2 in Hlt; lia.
Qed.

Lemma rne_range (mx : positive) (ex : Z) :
  let E := fexp prec emax (Zpos (digits2_pos mx) + ex) in
  ex <= E ->
  0 <= rne (Zpos mx) (E - ex) <= 2 ^ 53 /\
  (-1074 < E -> 2 ^ 52 <= rne (Zpos mx) (E - ex)).
Proof.
  intros E HE. pose proof (digits_bounds mx) as [Hlo Hhi].
  unfold E in *. rewrite fexp_eq in *.
  set (d := Zpos (digits2_pos mx)) in *.
  assert (0 < d) by (unfold d; lia).
  set (F := Z.max (d + ex - 53) (-1074)) in *.
  assert (d - 53 <= F - ex) by lia.
  repeat split.
  - pose proof (rne_bounds (Zpos mx) (F - ex) ltac:(lia) ltac:(lia)).
    pose proof (Z.div_pos (Zpos mx) (2 ^ (F - ex)) ltac:(lia) (pow2_pos (F - ex) ltac:(lia))). lia.
  - apply rne_le_multiple; try lia.
    rewrite <- Z.pow_add_r by lia.
    assert (2 ^ d <= 2 ^ (53 + (F - ex))) by (apply Z.pow_le_mono_r; lia). lia.
  - intros Hn. apply rne_ge_multiple; try lia.
    rewrite <- Z.pow_add_r by lia.
    replace (52 + (F - ex)) with (d - 1) by lia. exact Hlo.
Qed.

Lemma BRA_value (s : bool) (mx : positive) (ex : Z) :
  let E := fexp prec emax (Zpos (digits2_pos mx) + ex) in
  ex <= E -> - Kexp <= ex ->
  is_nan_SF (binary_round_aux prec emax s (Zpos mx) ex loc_Exact) = false /\
  SFval (binary_round_aux prec emax s (Zpos mx) ex loc_Exact) =
  cond_Zopp s (Z.min (rne (Zpos mx) (E - ex) * 2 ^ (E + Kexp)) TOP).
Proof.
  intros E HE HK.
  pose proof (rne_range mx ex HE) as [[Hq0 Hq53] Hq52]. fold E in Hq0, Hq53, Hq52.
  assert (-1074 <= E) as HEmin by (unfold E; rewrite fexp_eq; lia).
  unfold binary_round_aux.
  rewrite shr_fexp_exact by lia. cbv zeta.
  change (Zdigits2 (Z.pos mx)) with (Zpos (digits2_pos mx)). fold E.
  set (q' := rne (Zpos mx) (E - ex)) in *.
  assert ((let '(mrs', e') :=
             if E - ex <=? 0
             then ({| shr_m := Z.pos mx; shr_r := false; shr_s := false |}, ex)
             else ({| shr_m := Z.pos mx / 2 ^ (E - ex);
                      shr_r := Z.odd (Z.pos mx / 2 ^ (E - ex - 1));
                      shr_s := negb (Z.pos mx mod 2 ^ (E - ex - 1) =? 0) |},
                   ex + (E - ex)) in
           (round_nearest_even (shr_m mrs') (loc_of_shr_record mrs'), e')) = (q', E)) as Hstep.
  { destruct (Z.leb_spec (E - ex) 0).
    - cbn [shr_m loc_of_shr_record round_nearest_even].
      unfold q'. rewrite !rne_unfold. replace (E - ex <=? 0) with true by (symmetry; apply Z.leb_le; lia).
      f_equal. lia.
    - cbn [shr_m]. f_equal; [|lia].
      pose proof (rne_of_record (Zpos mx) (E - ex - 1) ltac:(lia) ltac:(lia)) as R.
      replace (E - ex - 1 + 1) with (E - ex) in R by lia. exact R. }
  destruct (if E - ex <=? 0 then _ else _) as [mrs' e'].
  injection Hstep as Hm' He'. rewrite Hm', He'. clear Hm' He' mrs' e'.
  rewrite shr_fexp_exact by lia. cbv zeta. rewrite fexp_eq.
  assert (0 < 2 ^ (E + Kexp)) as HpE by (apply pow2_pos; unfold Kexp in *; lia).
  pose proof TOP_eq_53 as HTOP. pose proof TOP_eq_52 as HTOP'.
  destruct (Z.eq_dec q' 0) as [Hz|Hnz].
  - rewrite Hz. cbn [Zdigits2].
    replace (Z.max (0 + E - 53) (-1074) - E <=? 0) with true
      by (symmetry; apply Z.leb_le; lia).
    cbn [shr_m]. split; [reflexivity|]. cbn [SFval]. rewrite Z.mul_0_l.
    pose proof TOP_pos.
    rewrite Z.min_l by lia. destruct s; reflexivity.
  - destruct (Z.eq_dec q' (2 ^ 53)) as [H53|H53].
    + rewrite H53. change (Zdigits2 (2 ^ 53)) with 54.
      replace (Z.max (54 + E - 53) (-1074) - E) with 1 by lia.
      cbn [Z.leb Z.compare shr_m]. change (2 ^ 53 / 2 ^ 1) with 4503599627370496.
      change (971) with 971.
      destruct (Z.leb_spec (E + 1) (emax - prec)) as [Hle|Hgt];
        change (emax - prec) with 971 in *; (split; [reflexivity|]); cbn [SFval]; f_equal.
      * rewrite Z.min_l.
        -- replace (E + 1 + Kexp) with (1 + (E + Kexp)) by lia.
           rewrite Z.pow_add_r by (unfold Kexp in *; lia).
           change (2 ^ 53) with (4503599627370496 * 2 ^ 1). lia.
        -- rewrite HTOP. apply Z.mul_le_mono_nonneg_l; [lia|].
           apply Z.pow_le_mono_r; lia.
      * rewrite Z.min_r; [reflexivity|].
        rewrite HTOP. apply Z.mul_le_mono_nonneg_l; [lia|].
        apply Z.pow_le_mono_r; lia.
    + assert (0 < q' < 2 ^ 53) as Hq by lia.
      pose proof (Zdigits2_pos_le q' 53 ltac:(lia) ltac:(lia) ltac:(lia)) as Hd.
      replace (Z.max (Zdigits2 q' + E - 53) (-1074) - E <=? 0) with true
        by (symmetry; apply Z.leb_le; lia).
      cbn [shr_m]. destruct q' as [|p|p] eqn:Eq'; try lia.
      destruct (Z.leb_spec E (emax - prec)) as [Hle|Hgt];
        change (emax - prec) with 971 in *; (split; [reflexivity|]); cbn [SFval]; f_equal.
      * rewrite Z.min_l; [reflexivity|].
        rewrite HTOP.
        assert (2 ^ (E + Kexp) <= 2 ^ (971 + Kexp)) by (apply Z.pow_le_mono_r; lia).
        assert (0 < 2 ^ (971 + Kexp)) by (apply pow2_pos; unfold Kexp; lia).
        nia.
      * rewrite Z.min_r; [reflexivity|].
        specialize (Hq52 ltac:(lia)).
        rewrite HTOP'.
        assert (2 ^ (972 + Kexp) <= 2 ^ (E + Kexp)) by (apply Z.pow_le_mono_r; unfold Kexp; lia).
        assert (0 < 2 ^ (972 + Kexp)) by (apply pow2_pos; unfold Kexp; lia).
        nia.
Qed.

Lemma rne_scale (m n j : Z) :
  0 <= m -> 0 <= n -> 0 <= j -> rne (m * 2 ^ j) (n + j) = rne m n.
Proof.
  intros Hm Hn Hj.
  pose proof (pow2_pos j Hj) as Hpj.
  pose proof (pow2_pos n Hn) as Hpn.
  assert ((m * 2 ^ j) / 2 ^ (n + j) = m / 2 ^ n) as Hq.
  { rewrite Z.pow_add_r by lia. apply Z.div_mul_cancel_r; lia. }
  assert ((m * 2 ^ j) mod 2 ^ (n + j) = (m mod 2 ^ n) * 2 ^ j) as Hr.
  { rewrite Z.pow_add_r by lia. apply Z.mul_mod_distr_r; lia. }
  rewrite !rne_unfold.
  destruct (Z.leb_spec n 0) as [Hn0|Hn0].
  - assert (n = 0) as -> by lia. cbn [Z.add] in *.
    change (2 ^ 0) with 1 in *. rewrite Z.div_1_r in Hq. rewrite Z.mod_1_r in Hr.
    destruct (Z.leb_spec j 0); [replace j with 0 by lia; change (2 ^ 0) with 1; lia|].
    rewrite Hq, Hr. cbn [Z.mul].
    pose proof (pow2_pos (j - 1) ltac:(lia)).
    replace (2 ^ (j - 1) <? 0) with false by (symmetry; apply Z.ltb_ge; lia).
    replace (2 ^ (j - 1) =? 0) with false by (symmetry; apply Z.eqb_neq; lia).
    reflexivity.
  - destruct (Z.leb_spec (n + j) 0); [lia|].
    rewrite Hq, Hr.
    replace (n + j - 1) with ((n - 1) + j) by lia.
    rewrite (Z.pow_add_r 2 (n - 1) j) by lia.
    pose proof (pow2_pos (n - 1) ltac:(lia)).
    set (h := 2 ^ (n - 1)) in *. set (r := m mod 2 ^ n) in *. set (J := 2 ^ j) in *.
    replace (h * J <? r * J) with (h <? r).
    2:{ destruct (Z.ltb_spec h r); symmetry; [apply Z.ltb_lt|apply Z.ltb_ge]; nia. }
    replace (h * J =? r * J) with (h =? r).
    2:{ destruct (Z.eqb_spec h r); symmetry; [apply Z.eqb_eq|apply Z.eqb_neq]; nia. }
    reflexivity.
Qed.

(** Round-to-nearest-even of a non-negative integer in units of 2^-Kexp onto
    the binary64 grid, saturating at the value assigned to infinity. *)
Definition RN (t : Z) : Z :=
  let k := Z.max (Z.log2 t - 52) (Kexp - 1074) in
  Z.min (Z.shiftl (rne t k) k) TOP.

Lemma RN_unfold (t : Z) :
  RN t = let k := Z.max (Z.log2 t - 52) (Kexp - 1074) in Z.min (rne t k * 2 ^ k) TOP.
Proof.
  unfold RN. cbv zeta. rewrite Z.shiftl_mul_pow2 by (unfold Kexp; lia). reflexivity.
Qed.

Lemma BRA_RN (s : bool) (mx : positive) (ex : Z) :
  ex <= fexp prec emax (Zpos (digits2_pos mx) + ex) -> - Kexp <= ex ->
  is_nan_SF (binary_round_aux prec emax s (Zpos mx) ex loc_Exact) = false /\
  SFval (binary_round_aux prec emax s (Zpos mx) ex loc_Exact) =
  cond_Zopp s (RN (Zpos mx * 2 ^ (ex + Kexp))).
Proof.
  intros HE HK. destruct (BRA_value s mx ex HE HK) as [Hn Hv].
  split; [exact Hn|]. rewrite Hv. f_equal.
  rewrite !RN_unfold; cbv zeta. rewrite Z.log2_mul_pow2 by lia.
  rewrite fexp_eq in *. rewrite Zdigits2_log2 in *.
  set (L := Z.log2 (Zpos mx)) in *.
  replace (Z.max (ex + Kexp + L - 52) (Kexp - 1074))
    with (Z.max (L + 1 + ex - 53) (-1074) + Kexp) by lia.
  set (E := Z.max (L + 1 + ex - 53) (-1074)) in *.
  replace (E + Kexp) with ((E - ex) + (ex + Kexp)) at 2 by lia.
  rewrite rne_scale by lia. reflexivity.
Qed.

Lemma RN_range (t : Z) : 0 <= t -> 0 <= RN t <= TOP.
Proof.
  intros Ht. rewrite !RN_unfold; cbv zeta.
  set (k := Z.max _ _). assert (0 <= k) by (unfold k, Kexp; lia).
  pose proof (rne_bounds t k Ht H).
  pose proof (Z.div_pos t (2 ^ k) Ht (pow2_pos k H)).
  pose proof (pow2_pos k H). pose proof TOP_pos.
  split; [apply Z.min_glb; nia | apply Z.le_min_r].
Qed.

Lemma RN_mono (t1 t2 : Z) : 0 <= t1 -> t1 <= t2 -> RN t1 <= RN t2.
Proof.
  intros H1 H12. rewrite !RN_unfold; cbv zeta.
  apply Z.min_le_compat_r.
  set (k1 := Z.max (Z.log2 t1 - 52) (Kexp - 1074)).
  set (k2 := Z.max (Z.log2 t2 - 52) (Kexp - 1074)).
  pose proof (Z.log2_le_mono t1 t2 H12) as HL.
  assert (0 <= k1) by (unfold k1, Kexp; lia).
  assert (k1 <= k2) as Hk by (unfold k1, k2; lia).
  destruct (Z.eq_dec k1 k2) as [E|NE].
  - rewrite <- E. apply Z.mul_le_mono_nonneg_r; [pose proof (pow2_pos k1); lia|].
    apply rne_mono; lia.
  - assert (k1 < k2) as Hlt by lia.
    assert (k2 = Z.log2 t2 - 52) as Hk2 by (unfold k1, k2 in *; lia).
    assert (0 < t2).
    { destruct (Z.eq_dec t2 0) as [->|]; [|lia]. cbn in Hk2. unfold k1, Kexp in *. lia. }
    set (L2 := Z.log2 t2) in *.
    pose proof (Z.log2_spec t2 ltac:(lia)) as [Hlo2 _]. fold L2 in Hlo2.
    transitivity (2 ^ L2).
    + (* rounding t1 stays below 2^L2 *)
      replace L2 with ((L2 - k1) + k1) by lia.
      rewrite Z.pow_add_r by lia.
      apply Z.mul_le_mono_nonneg_r; [pose proof (pow2_pos k1); lia|].
      apply rne_le_multiple; try lia.
      rewrite <- Z.pow_add_r by lia. replace (L2 - k1 + k1) with L2 by lia.
      destruct (Z.eq_dec t1 0) as [->|]; [pose proof (pow2_pos L2); lia|].
      pose proof (Z.log2_spec t1 ltac:(lia)) as [_ Hhi1].
      assert (Z.log2 t1 < L2) by (unfold k1 in *; lia).
      assert (2 ^ Z.succ (Z.log2 t1) <= 2 ^ L2) by (apply Z.pow_le_mono_r; lia).
      lia.
    + replace L2 with ((L2 - k2) + k2) at 1 by lia.
      rewrite Z.pow_add_r by lia.
      apply Z.mul_le_mono_nonneg_r; [pose proof (pow2_pos k2); lia|].
      apply rne_ge_multiple; try lia.
      rewrite <- Z.pow_add_r by lia. replace (L2 - k2 + k2) with L2 by lia. lia.
Qed.

(** signed rounding *)
Definition RNs (t : Z) : Z := if t <? 0 then - RN (- t) else RN t.

Lemma RN_0 : RN 0 = 0.
Proof. reflexivity. Qed.

Lemma RNs_mono (t1 t2 : Z) : t1 <= t2 -> RNs t1 <= RNs t2.
Proof.
  intros H. unfold RNs.
  destruct (Z.ltb_spec t1 0), (Z.ltb_spec t2 0).
  - pose proof (RN_mono (- t2) (- t1) ltac:(lia) ltac:(lia)). lia.
  - pose proof (RN_range (- t1) ltac:(lia)). pose proof (RN_range t2 ltac:(lia)). lia.
  - lia.
  - apply RN_mono; lia.
Qed.

Lemma RNs_range (t : Z) : - TOP <= RNs t <= TOP.
Proof.
  unfold RNs. pose proof TOP_pos. destruct (Z.ltb_spec t 0).
  - pose proof (RN_range (- t) ltac:(lia)). lia.
  - pose proof (RN_range t ltac:(lia)). lia.
Qed.

Lemma RNs_cond_Zopp (s : bool) (t : Z) :
  0 <= t -> cond_Zopp s (RN t) = RNs (cond_Zopp s t).
Proof.
  intros Ht. unfold RNs. destruct s; cbn [cond_Zopp].
  - destruct (Z.ltb_spec (- t) 0).
    + rewrite Z.opp_involutive. reflexivity.
    + assert (t = 0) as -> by lia. reflexivity.
  - destruct (Z.ltb_spec t 0); [lia | reflexivity].
Qed.

(** validity of a finite spec float, spelled out *)
Lemma bounded_spec (m : positive) (e : Z) :
  bounded prec emax m e = true ->
  -1074 <= e <= 971 /\ Zpos (digits2_pos m) <= 53 /\
  (Zpos (digits2_pos m) = 53 \/ e = -1074) /\
  fexp prec emax (Zpos (digits2_pos m) + e) = e.
Proof.
  unfold bounded, canonical_mantissa. rewrite fexp_eq.
  change (emax - prec) with 971.
  intros H. apply andb_true_iff in H as [H1 H2].
  apply Z.eqb_eq in H1. apply Z.leb_le in H2.
  pose proof (Pos2Z.is_pos (digits2_pos m)). lia.
Qed.

Lemma finite_lt_TOP (m : positive) (e : Z) :
  bounded prec emax m e = true -> 0 < Zpos m * 2 ^ (e + Kexp) < TOP.
Proof.
  intros H. apply bounded_spec in H as (He & Hd & _ & _).
  pose proof (digits_bounds m) as [_ Hhi].
  assert (2 ^ Zpos (digits2_pos m) <= 2 ^ 53) by (apply Z.pow_le_mono_r; lia).
  assert (2 ^ (e + Kexp) <= 2 ^ (971 + Kexp)) by (apply Z.pow_le_mono_r; unfold Kexp; lia).
  pose proof (pow2_pos (e + Kexp) ltac:(unfold Kexp; lia)).
  rewrite TOP_eq_53. nia.
Qed.

(** a valid float value is a fixed point of rounding *)
Lemma RN_id (m : positive) (e : Z) :
  bounded prec emax m e = true ->
  RN (Zpos m * 2 ^ (e + Kexp)) = Zpos m * 2 ^ (e + Kexp).
Proof.
  intros H. pose proof (finite_lt_TOP m e H) as Hlt.
  apply bounded_spec in H as (He & Hd & Hc & Hf).
  rewrite !RN_unfold; cbv zeta. rewrite Z.log2_mul_pow2 by (unfold Kexp; lia).
  rewrite fexp_eq in Hf. rewrite Zdigits2_log2 in *.
  replace (Z.max (e + Kexp + Z.log2 (Z.pos m) - 52) (Kexp - 1074)) with (0 + (e + Kexp)) by lia.
  rewrite rne_scale by (unfold Kexp; lia).
  rewrite !rne_unfold. cbn [Z.leb Z.compare]. rewrite Z.add_0_l. apply Z.min_l. lia.
Qed.

Lemma SFmul_value (x y : spec_float) :
  valid_binary x = true -> valid_binary y = true ->
  is_finite_SF x = true -> is_finite_SF y = true ->
  is_nan_SF (SFmul prec emax x y) = false /\
  SFval (SFmul prec emax x y) = RNs (SFval x * SFval y / 2 ^ Kexp).
Proof.
  intros Vx Vy Fx Fy.
  destruct x as [sx|sx| |sx mx ex]; try discriminate;
  destruct y as [sy|sy| |sy my ey]; try discriminate; cbn [SFmul SFval].
  - split; reflexivity.
  - split; reflexivity.
  - rewrite Z.mul_0_r. split; reflexivity.
  - cbn [valid_binary] in Vx, Vy.
    pose proof (bounded_spec mx ex Vx) as (Hex & Hdx & Hcx & _).
    pose proof (bounded_spec my ey Vy) as (Hey & Hdy & Hcy & _).
    destruct (BRA_RN (xorb sx sy) (mx * my) (ex + ey)) as [Hn Hv].
    + rewrite fexp_eq.
      pose proof (digits_bounds mx) as [Hmx _].
      pose proof (digits_bounds my) as [Hmy _].
      pose proof (digits_bounds (mx * my)) as [_ Hxy].
      rewrite Pos2Z.inj_mul in Hxy.
      set (dx := Zpos (digits2_pos mx)) in *.
      set (dy := Zpos (digits2_pos my)) in *.
      set (d := Zpos (digits2_pos (mx * my))) in *.
      assert (0 < dx /\ 0 < dy /\ 0 < d) as (? & ? & ?) by (unfold dx, dy, d; lia).
      assert (dx + dy - 1 <= d).
      { assert (2 ^ (dx - 1 + (dy - 1)) < 2 ^ d) as Hlt.
        { rewrite Z.pow_add_r by lia.
          pose proof (pow2_pos (dx - 1) ltac:(lia)). pose proof (pow2_pos (dy - 1) ltac:(lia)). nia. }
        apply Z.pow_lt_mono_r_iff in Hlt; lia. }
      lia.
    + unfold Kexp. lia.
    + split; [exact Hn|]. rewrite Hv.
      assert (cond_Zopp sx (Z.pos mx * 2 ^ (ex + Kexp)) * cond_Zopp sy (Z.pos my * 2 ^ (ey + Kexp)) / 2 ^ Kexp
              = cond_Zopp (xorb sx sy) (Zpos (mx * my) * 2 ^ (ex + ey + Kexp))) as ->.
      { assert (Z.pos mx * 2 ^ (ex + Kexp) * (Z.pos my * 2 ^ (ey + Kexp))
                = Zpos (mx * my) * 2 ^ (ex + ey + Kexp) * 2 ^ Kexp) as Hprod.
        { assert (2 ^ (ex + Kexp) * 2 ^ (ey + Kexp) = 2 ^ (ex + ey + Kexp) * 2 ^ Kexp) as Hpow.
          { rewrite <- !Z.pow_add_r by (unfold Kexp; lia). f_equal. lia. }
          rewrite Pos2Z.inj_mul. revert Hpow.
          generalize (2 ^ (ex + Kexp)) (2 ^ (ey + Kexp)) (2 ^ (ex + ey + Kexp)) (2 ^ Kexp).
          intros A B C D Hpow.
          replace (Z.pos mx * A * (Z.pos my * B)) with (Z.pos mx * Z.pos my * (A * B)) by ring.
          rewrite Hpow. ring. }
        pose proof (pow2_pos Kexp ltac:(unfold Kexp; lia)) as HpK.
        destruct sx, sy; cbn [cond_Zopp xorb];
          rewrite ?Z.mul_opp_l, ?Z.mul_opp_r, ?Z.opp_involutive, Hprod;
          rewrite <- ?Z.mul_opp_l; apply Z.div_mul; lia. }
      apply RNs_cond_Zopp.
      pose proof (pow2_pos (ex + ey + Kexp) ltac:(unfold Kexp; lia)). lia.
Qed.

Lemma pos_iter_xO (m d : positive) :
  Zpos (Pos.iter xO m d) = Zpos m * 2 ^ Zpos d.
Proof.
  induction d as [|d IH] using Pos.peano_ind.
  - cbn. lia.
  - rewrite Pos.iter_succ, Pos2Z.inj_xO, IH, Pos2Z.inj_succ, Z.pow_succ_r by lia. ring.
Qed.

Lemma shl_align_spec (mx : positive) (ex ex' : Z) :
  - Kexp <= ex -> - Kexp <= ex' ->
  let '(m', e') := shl_align mx ex ex' in
  e' = Z.min ex ex' /\
  Zpos m' * 2 ^ (e' + Kexp) = Zpos mx * 2 ^ (ex + Kexp) /\
  Zpos (digits2_pos m') + e' = Zpos (digits2_pos mx) + ex.
Proof.
  intros Hex Hex'. unfold shl_align.
  destruct (ex' - ex) as [|d|d] eqn:Ed.
  - repeat split; lia.
  - repeat split; lia.
  - assert (ex = ex' + Zpos d) as -> by lia.
    repeat split; try lia.
    + rewrite pos_iter_xO.
      replace (ex' + Zpos d + Kexp) with (Zpos d + (ex' + Kexp)) by lia.
      rewrite (Z.pow_add_r 2 (Zpos d)) by lia. ring.
    + rewrite !Zdigits2_log2, pos_iter_xO, Z.log2_mul_pow2 by lia. lia.
Qed.

Lemma binary_round_value (s : bool) (m : positive) (e : Z) :
  - Kexp <= e ->
  is_nan_SF (binary_round prec emax s m e) = false /\
  SFval (binary_round prec emax s m e) = cond_Zopp s (RN (Zpos m * 2 ^ (e + Kexp))).
Proof.
  intros He. unfold binary_round.
  assert (- Kexp <= fexp prec emax (Zpos (digits2_pos m) + e)) as Hf
    by (rewrite fexp_eq; unfold Kexp; lia).
  pose proof (shl_align_spec m e _ He Hf) as H.
  destruct (shl_align m e _) as [mz ez]. destruct H as (Hez & Hval & Hdig).
  destruct (BRA_RN s mz ez) as [Hn Hv].
  - rewrite Hdig. lia.
  - lia.
  - split; [exact Hn|]. rewrite Hv, Hval. reflexivity.
Qed.

Lemma binary_normalize_value (m e : Z) (szero : bool) :
  - Kexp <= e ->
  is_nan_SF (binary_normalize prec emax m e szero) = false /\
  SFval (binary_normalize prec emax m e szero) = RNs (m * 2 ^ (e + Kexp)).
Proof.
  intros He. pose proof (pow2_pos (e + Kexp) ltac:(lia)) as Hp.
  destruct m as [|p|p]; cbn [binary_normalize].
  - split; reflexivity.
  - destruct (binary_round_value false p e He) as [Hn Hv].
    split; [exact Hn|]. rewrite Hv. cbn [cond_Zopp].
    unfold RNs. destruct (Z.ltb_spec (Zpos p * 2 ^ (e + Kexp)) 0); [lia | reflexivity].
  - destruct (binary_round_value true p e He) as [Hn Hv].
    split; [exact Hn|]. rewrite Hv. cbn [cond_Zopp].
    unfold RNs. destruct (Z.ltb_spec (Zneg p * 2 ^ (e + Kexp)) 0); [|lia].
    rewrite <- Z.mul_opp_l. reflexivity.
Qed.

Lemma shl_align_fst_value (s : bool) (m : positive) (e ez : Z) :
  - Kexp <= ez -> ez <= e ->
  cond_Zopp s (Zpos (fst (shl_align m e ez))) * 2 ^ (ez + Kexp)
  = cond_Zopp s (Zpos m * 2 ^ (e + Kexp)).
Proof.
  intros H1 H2. pose proof (shl_align_spec m e ez ltac:(lia) H1) as H.
  destruct (shl_align m e ez) as [m' e']. destruct H as (He' & Hv & _).
  cbn [fst]. replace e' with ez in Hv by lia.
  destruct s; cbn [cond_Zopp]; lia.
Qed.

Lemma RNs_id_SFval (x : spec_float) :
  valid_binary x = true -> is_finite_SF x = true -> RNs (SFval x) = SFval x.
Proof.
  intros V F. destruct x as [s|s| |s m e]; try discriminate; try reflexivity.
  cbn [SFval valid_binary] in *.
  rewrite <- RNs_cond_Zopp by (pose proof (finite_lt_TOP m e V); lia).
  rewrite RN_id by assumption. reflexivity.
Qed.

Lemma SFadd_value (x y : spec_float) :
  valid_binary x = true -> valid_binary y = true ->
  is_finite_SF x = true -> is_finite_SF y = true ->
  is_nan_SF (SFadd prec emax x y) = false /\
  SFval (SFadd prec emax x y) = RNs (SFval x + SFval y).
Proof.
  intros Vx Vy Fx Fy.
  destruct x as [sx|sx| |sx mx ex]; try discriminate;
  destruct y as [sy|sy| |sy my ey]; try discriminate.
  - cbn [SFadd SFval]. destruct sx, sy; split; reflexivity.
  - cbn [SFadd]. change (SFval (S754_zero sx)) with 0. rewrite Z.add_0_l.
    rewrite RNs_id_SFval by assumption. split; reflexivity.
  - cbn [SFadd]. change (SFval (S754_zero sy)) with 0. rewrite Z.add_0_r.
    rewrite RNs_id_SFval by assumption. split; reflexivity.
  - cbn [SFadd]. cbn [valid_binary] in Vx, Vy.
    pose proof (bounded_spec mx ex Vx) as (Hex & _).
    pose proof (bounded_spec my ey Vy) as (Hey & _).
    match goal with |- context [binary_normalize _ _ ?m ?e ?z] =>
      destruct (binary_normalize_value m e z) as [Hn Hv] end.
    { unfold Kexp. lia. }
    split; [exact Hn|]. rewrite Hv.
    f_equal. rewrite Z.mul_add_distr_r.
    rewrite !shl_align_fst_value by (unfold Kexp; lia). reflexivity.
Qed.

Lemma SFsub_add_opp (x y : spec_float) :
  SFsub prec emax x y = SFadd prec emax x (SFopp y).
Proof.
  destruct x as [sx|sx| |sx mx ex], y as [sy|sy| |sy my ey]; cbn [SFsub SFadd SFopp];
    try reflexivity; destruct sx, sy; reflexivity.
Qed.

Lemma finite_lt_by_exponent (m1 m2 : positive) (e1 e2 : Z) :
  bounded prec emax m1 e1 = true -> bounded prec emax m2 e2 = true ->
  e1 < e2 -> Zpos m1 * 2 ^ (e1 + Kexp) < Zpos m2 * 2 ^ (e2 + Kexp).
Proof.
  intros B1 B2 Hlt.
  apply bounded_spec in B1 as (He1 & Hd1 & _ & _).
  apply bounded_spec in B2 as (He2 & Hd2 & Hc2 & _).
  pose proof (digits_bounds m1) as [_ Hhi].
  pose proof (digits_bounds m2) as [Hlo _].
  assert (Zpos (digits2_pos m2) = 53) as Hd by lia. rewrite Hd in Hlo.
  assert (2 ^ Zpos (digits2_pos m1) <= 2 ^ 53) by (apply Z.pow_le_mono_r; lia).
  assert (2 ^ (e1 + 1 + Kexp) <= 2 ^ (e2 + Kexp)) by (apply Z.pow_le_mono_r; unfold Kexp; lia).
  replace (e1 + 1 + Kexp) with (1 + (e1 + Kexp)) in * by lia.
  rewrite Z.pow_add_r in * by (unfold Kexp; lia).
  pose proof (pow2_pos (e1 + Kexp) ltac:(unfold Kexp; lia)).
  change (2 ^ (53 - 1)) with 4503599627370496 in Hlo.
  change (2 ^ 53) with 9007199254740992 in *. change (2 ^ 1) with 2 in *.
  nia.
Qed.

Lemma SFcompare_SFval (x y : spec_float) :
  valid_binary x = true -> valid_binary y = true ->
  is_nan_SF x = false -> is_nan_SF y = false ->
  SFcompare x y = Some (SFval x ?= SFval y).
Proof.
  intros Vx Vy Nx Ny. pose proof TOP_pos as HT.
  destruct x as [sx|sx| |sx mx ex]; try discriminate;
  destruct y as [sy|sy| |sy my ey]; try discriminate;
  cbn [SFcompare SFval valid_binary] in *;
  try pose proof (finite_lt_TOP mx ex Vx) as Hx;
  try pose proof (finite_lt_TOP my ey Vy) as Hy;
  f_equal; symmetry.
  all: repeat match goal with s : bool |- _ => destruct s end; cbn [cond_Zopp].
  all: try solve [ first [ apply Z.compare_eq_iff | apply Z.compare_lt_iff
                         | apply Z.compare_gt_iff ]; lia ].
  - (* both negative *)
    pose proof (bounded_spec mx ex Vx) as (? & _).
    rewrite Z.compare_opp.
    destruct (Z.compare_spec ex ey) as [E|L|G].
    + subst ey. rewrite <- Zmult_compare_compat_r by (apply Z.lt_gt, pow2_pos; unfold Kexp; lia).
      rewrite (Z.compare_antisym (Zpos mx)). reflexivity.
    + apply Z.compare_gt_iff. apply finite_lt_by_exponent; assumption.
    + apply Z.compare_lt_iff. apply finite_lt_by_exponent; assumption.
  - pose proof (bounded_spec mx ex Vx) as (? & _).
    destruct (Z.compare_spec ex ey) as [E|L|G].
    + subst ey. rewrite <- Zmult_compare_compat_r by (apply Z.lt_gt, pow2_pos; unfold Kexp; lia).
      reflexivity.
    + apply Z.compare_lt_iff. apply finite_lt_by_exponent; assumption.
    + apply Z.compare_gt_iff. apply finite_lt_by_exponent; assumption.
Qed.

Definition Fval (x : float) : Z := SFval (Prim2SF x).

Lemma is_nan_Prim (x : float) : is_nan x = is_nan_SF (Prim2SF x).
Proof.
  unfold is_nan. rewrite FloatAxioms.eqb_spec. unfold SFeqb.
  destruct (is_nan_SF (Prim2SF x)) eqn:E.
  - destruct (Prim2SF x); try discriminate. reflexivity.
  - rewrite SFcompare_SFval by (try apply Prim2SF_valid; assumption).
    rewrite Z.compare_refl. reflexivity.
Qed.

Lemma SFval_range (x : spec_float) :
  valid_binary x = true -> - TOP <= SFval x <= TOP.
Proof.
  intros V. pose proof TOP_pos.
  destruct x as [s|s| |s m e]; cbn [SFval]; try lia.
  - destruct s; cbn [cond_Zopp]; lia.
  - pose proof (finite_lt_TOP m e V). destruct s; cbn [cond_Zopp]; lia.
Qed.

Lemma finite_iff_SFval (x : spec_float) :
  valid_binary x = true -> is_nan_SF x = false ->
  (is_finite_SF x = true <-> - TOP < SFval x < TOP).
Proof.
  intros V N. pose proof TOP_pos.
  destruct x as [s|s| |s m e]; try discriminate; cbn [SFval is_finite_SF].
  - split; [lia | reflexivity].
  - destruct s; cbn [cond_Zopp]; split; try discriminate; lia.
  - pose proof (finite_lt_TOP m e V). destruct s; cbn [cond_Zopp]; split; try reflexivity; lia.
Qed.

Lemma leb_Fval (x y : float) :
  is_nan x = false -> is_nan y = false -> PrimFloat.leb x y = (Fval x <=? Fval y).
Proof.
  intros Nx Ny. rewrite is_nan_Prim in Nx, Ny.
  rewrite FloatAxioms.leb_spec. unfold SFleb.
  rewrite SFcompare_SFval by (try apply Prim2SF_valid; assumption).
  unfold Fval, Z.leb. destruct (SFval (Prim2SF x) ?= SFval (Prim2SF y)); reflexivity.
Qed.

Lemma ltb_Fval (x y : float) :
  is_nan x = false -> is_nan y = false -> PrimFloat.ltb x y = (Fval x <? Fval y).
Proof.
  intros Nx Ny. rewrite is_nan_Prim in Nx, Ny.
  rewrite FloatAxioms.ltb_spec. unfold SFltb.
  rewrite SFcompare_SFval by (try apply Prim2SF_valid; assumption).
  unfold Fval, Z.ltb. destruct (SFval (Prim2SF x) ?= SFval (Prim2SF y)); reflexivity.
Qed.

Lemma Prim2SF_infinity : Prim2SF infinity = S754_infinity false.
Proof. reflexivity. Qed.

Lemma Prim2SF_zero : Prim2SF 0%float = S754_zero false.
Proof. reflexivity. Qed.

Lemma Fval_zero : Fval 0%float = 0.
Proof. reflexivity. Qed.

Lemma is_finite_Prim (x : float) : is_finite x = is_finite_SF (Prim2SF x).
Proof.
  unfold is_finite, is_infinity.
  rewrite is_nan_Prim, FloatAxioms.eqb_spec, abs_spec, Prim2SF_infinity.
  destruct (Prim2SF x) as [s|s| |s m e]; reflexivity.
Qed.

Lemma finite_Fval (x : float) : is_finite x = true -> is_nan x = false /\ - TOP < Fval x < TOP.
Proof.
  intros F. assert (is_nan x = false) as N.
  { unfold is_finite in F. destruct (is_nan x); [discriminate | reflexivity]. }
  split; [exact N|].
  rewrite is_finite_Prim in F. rewrite is_nan_Prim in N.
  apply finite_iff_SFval; try assumption. apply Prim2SF_valid.
Qed.

Lemma Fval_finite (x : float) :
  is_nan x = false -> - TOP < Fval x < TOP -> is_finite x = true.
Proof.
  intros N H. rewrite is_finite_Prim. rewrite is_nan_Prim in N.
  apply finite_iff_SFval; try assumption. apply Prim2SF_valid.
Qed.

Definition min4 (a b c d : Z) : Z := Z.min (Z.min a b) (Z.min c d).
Definition max4 (a b c d : Z) : Z := Z.max (Z.max a b) (Z.max c d).

Lemma mul_corner_bounds (al ah bl bh u v : Z) :
  al <= u <= ah -> bl <= v <= bh ->
  min4 (al * bl) (al * bh) (ah * bl) (ah * bh) <= u * v
  <= max4 (al * bl) (al * bh) (ah * bl) (ah * bh).
Proof.
  intros Hu Hv. unfold min4, max4.
  assert (Z.min (al * v) (ah * v) <= u * v <= Z.max (al * v) (ah * v)) as H1.
  { destruct (Z.le_gt_cases 0 v); split; nia. }
  assert (Z.min (al * bl) (al * bh) <= al * v <= Z.max (al * bl) (al * bh)) as H2.
  { destruct (Z.le_gt_cases 0 al); split; nia. }
  assert (Z.min (ah * bl) (ah * bh) <= ah * v <= Z.max (ah * bl) (ah * bh)) as H3.
  { destruct (Z.le_gt_cases 0 ah); split; nia. }
  lia.
Qed.

Lemma positive_SF (x : spec_float) :
  valid_binary x = true -> is_nan_SF x = false -> 0 < SFval x ->
  x = S754_infinity false \/ exists m e, x = S754_finite false m e.
Proof.
  intros V N H. pose proof TOP_pos.
  destruct x as [s|s| |s m e]; try discriminate; cbn [SFval] in H; try lia.
  - destruct s; cbn [cond_Zopp] in H; [lia | left; reflexivity].
  - pose proof (finite_lt_TOP m e V).
    destruct s; cbn [cond_Zopp] in H; [lia | right; eauto].
Qed.

Lemma valid_SFopp (y : spec_float) :
  valid_binary (SFopp y) = valid_binary y.
Proof. destruct y; reflexivity. Qed.

Lemma SFval_SFopp (y : spec_float) : SFval (SFopp y) = - SFval y.
Proof.
  destruct y as [s|s| |s m e]; cbn [SFopp SFval]; try reflexivity;
    destruct s; cbn [negb cond_Zopp]; lia.
Qed.

Lemma is_nan_SFopp (y : spec_float) : is_nan_SF (SFopp y) = is_nan_SF y.
Proof. destruct y; reflexivity. Qed.

(** ** Monotonicity of the binary64 operations *)

Lemma not_ninf_SF (x : spec_float) :
  valid_binary x = true -> is_nan_SF x = false -> - TOP < SFval x ->
  is_finite_SF x = true \/ x = S754_infinity false.
Proof.
  intros V N H. destruct x as [s|s| |s m e]; try discriminate; auto.
  destruct s; [cbn [SFval cond_Zopp] in H; lia | auto].
Qed.

Lemma not_pinf_SF (x : spec_float) :
  valid_binary x = true -> is_nan_SF x = false -> SFval x < TOP ->
  is_finite_SF x = true \/ x = S754_infinity true.
Proof.
  intros V N H. destruct x as [s|s| |s m e]; try discriminate; auto.
  destruct s; [auto | cbn [SFval cond_Zopp] in H; lia].
Qed.

Lemma SFadd_pinf_l (y : spec_float) :
  is_nan_SF y = false -> - TOP < SFval y ->
  SFadd prec emax (S754_infinity false) y = S754_infinity false.
Proof.
  intros N H. destruct y as [s|s| |s m e]; try discriminate; try reflexivity.
  destruct s; [cbn [SFval cond_Zopp] in H; lia | reflexivity].
Qed.

Lemma SFadd_pinf_r (x : spec_float) :
  is_nan_SF x = false -> - TOP < SFval x ->
  SFadd prec emax x (S754_infinity false) = S754_infinity false.
Proof.
  intros N H. destruct x as [s|s| |s m e]; try discriminate; try reflexivity.
  destruct s; [cbn [SFval cond_Zopp] in H; lia | reflexivity].
Qed.

Lemma SFval_pinf : SFval (S754_infinity false) = TOP.
Proof. reflexivity. Qed.

(** Addition is monotone wherever no operand is [-∞]. *)
Lemma SFadd_mono (a b a' b' : spec_float) :
  valid_binary a = true -> valid_binary b = true ->
  valid_binary a' = true -> valid_binary b' = true ->
  is_nan_SF a = false -> is_nan_SF b = false ->
  is_nan_SF a' = false -> is_nan_SF b' = false ->
  - TOP < SFval a -> - TOP < SFval b -> SFval a <= SFval a' -> SFval b <= SFval b' ->
  is_nan_SF (SFadd prec emax a b) = false /\
  is_nan_SF (SFadd prec emax a' b') = false /\
  SFval (SFadd prec emax a b) <= SFval (SFadd prec emax a' b').
Proof.
  intros Va Vb Va' Vb' Na Nb Na' Nb' Ha Hb Haa Hbb.
  pose proof TOP_pos as HT.
  assert (forall p q, valid_binary p = true -> valid_binary q = true ->
            is_nan_SF p = false -> is_nan_SF q = false -> - TOP < SFval p -> - TOP < SFval q ->
            is_nan_SF (SFadd prec emax p q) = false /\
            - TOP <= SFval (SFadd prec emax p q) <= TOP /\
            (is_finite_SF p = true -> is_finite_SF q = true ->
             SFval (SFadd prec emax p q) = RNs (SFval p + SFval q)) /\
            (is_finite_SF p = false \/ is_finite_SF q = false ->
             SFval (SFadd prec emax p q) = TOP)) as Hadd.
  { intros p q Vp Vq Np Nq Hp Hq.
    destruct (not_ninf_SF p Vp Np Hp) as [Fp|Ep];
    destruct (not_ninf_SF q Vq Nq Hq) as [Fq|Eq].
    - destruct (SFadd_value p q Vp Vq Fp Fq) as [Hn Hv].
      split; [exact Hn|]. split; [rewrite Hv; apply RNs_range|].
      split; [intros _ _; exact Hv | intros [F|F]; congruence].
    - subst q. rewrite SFadd_pinf_r by assumption. rewrite SFval_pinf.
      split; [reflexivity|]. split; [lia|]. split; [discriminate | reflexivity].
    - subst p. rewrite SFadd_pinf_l by assumption. rewrite SFval_pinf.
      split; [reflexivity|]. split; [lia|]. split; [discriminate | reflexivity].
    - subst p q. cbn [SFadd]. rewrite SFval_pinf.
      split; [reflexivity|]. split; [lia|]. split; [discriminate | reflexivity]. }
  destruct (Hadd a b) as (N1 & R1 & F1 & I1); try assumption.
  destruct (Hadd a' b') as (N2 & R2 & F2 & I2); try assumption; try lia.
  repeat split; try assumption.
  destruct (is_finite_SF a') eqn:Fa'; destruct (is_finite_SF b') eqn:Fb';
    try (rewrite I2 by auto; lia).
  assert (is_finite_SF a = true) as Fa.
  { apply finite_iff_SFval; try assumption.
    apply finite_iff_SFval in Fa'; try assumption. lia. }
  assert (is_finite_SF b = true) as Fb.
  { apply finite_iff_SFval; try assumption.
    apply finite_iff_SFval in Fb'; try assumption. lia. }
  rewrite F1 by assumption. rewrite F2 by reflexivity. apply RNs_mono. lia.
Qed.

Lemma SFmul_pinf_l (y : spec_float) :
  valid_binary y = true -> is_nan_SF y = false -> 0 < SFval y ->
  SFmul prec emax (S754_infinity false) y = S754_infinity false.
Proof.
  intros V N H. destruct (positive_SF y V N H) as [->|(m & e & ->)]; reflexivity.
Qed.

Lemma SFmul_pinf_r (x : spec_float) :
  valid_binary x = true -> is_nan_SF x = false -> 0 < SFval x ->
  SFmul prec emax x (S754_infinity false) = S754_infinity false.
Proof.
  intros V N H. destruct (positive_SF x V N H) as [->|(m & e & ->)]; reflexivity.
Qed.

(** Multiplication of positive numbers is monotone. *)
Lemma SFmul_mono_pos (a b a' b' : spec_float) :
  valid_binary a = true -> valid_binary b = true ->
  valid_binary a' = true -> valid_binary b' = true ->
  is_nan_SF a = false -> is_nan_SF b = false ->
  is_nan_SF a' = false -> is_nan_SF b' = false ->
  0 < SFval a -> 0 < SFval b -> SFval a <= SFval a' -> SFval b <= SFval b' ->
  is_nan_SF (SFmul prec emax a b) = false /\
  is_nan_SF (SFmul prec emax a' b') = false /\
  SFval (SFmul prec emax a b) <= SFval (SFmul prec emax a' b').
Proof.
  intros Va Vb Va' Vb' Na Nb Na' Nb' Ha Hb Haa Hbb.
  pose proof TOP_pos as HT.
  pose proof (pow2_pos Kexp ltac:(unfold Kexp; lia)) as HpK.
  assert (forall p q, valid_binary p = true -> valid_binary q = true ->
            is_nan_SF p = false -> is_nan_SF q = false -> 0 < SFval p -> 0 < SFval q ->
            is_nan_SF (SFmul prec emax p q) = false /\
            - TOP <= SFval (SFmul prec emax p q) <= TOP /\
            (is_finite_SF p = true -> is_finite_SF q = true ->
             SFval (SFmul prec emax p q) = RNs (SFval p * SFval q / 2 ^ Kexp)) /\
            (is_finite_SF p = false \/ is_finite_SF q = false ->
             SFval (SFmul prec emax p q) = TOP)) as Hmul.
  { intros p q Vp Vq Np Nq Hp Hq.
    destruct (not_ninf_SF p Vp Np ltac:(lia)) as [Fp|Ep];
    destruct (not_ninf_SF q Vq Nq ltac:(lia)) as [Fq|Eq].
    - destruct (SFmul_value p q Vp Vq Fp Fq) as [Hn Hv].
      split; [exact Hn|]. split; [rewrite Hv; apply RNs_range|].
      split; [intros _ _; exact Hv | intros [F|F]; congruence].
    - subst q. rewrite SFmul_pinf_r by assumption. rewrite SFval_pinf.
      split; [reflexivity|]. split; [lia|]. split; [discriminate | reflexivity].
    - subst p. rewrite SFmul_pinf_l by assumption. rewrite SFval_pinf.
      split; [reflexivity|]. split; [lia|]. split; [discriminate | reflexivity].
    - subst p q. cbn [SFmul xorb]. rewrite SFval_pinf.
      split; [reflexivity|]. split; [lia|]. split; [discriminate | reflexivity]. }
  destruct (Hmul a b) as (N1 & R1 & F1 & I1); try assumption.
  destruct (Hmul a' b') as (N2 & R2 & F2 & I2); try assumption; try lia.
  repeat split; try assumption.
  destruct (is_finite_SF a') eqn:Fa'; destruct (is_finite_SF b') eqn:Fb';
    try (rewrite I2 by auto; lia).
  assert (is_finite_SF a = true) as Fa.
  { apply finite_iff_SFval; try assumption.
    apply finite_iff_SFval in Fa'; try assumption. lia. }
  assert (is_finite_SF b = true) as Fb.
  { apply finite_iff_SFval; try assumption.
    apply finite_iff_SFval in Fb'; try assumption. lia. }
  rewrite F1 by assumption. rewrite F2 by reflexivity.
  apply RNs_mono. apply Z.div_le_mono; [lia|]. nia.
Qed.

(** ** Rounding with an arbitrary location: shape of the result *)

Lemma shr_m_iter (n : nat) (mrs : shr_record) :
  0 <= shr_m mrs ->
  shr_m (Nat.iter n shr_1 mrs) = shr_m mrs / 2 ^ Z.of_nat n.
Proof.
  intros Hm. induction n as [|n IH].
  - cbn [Nat.iter]. change (2 ^ Z.of_nat 0) with 1. rewrite Z.div_1_r. reflexivity.
  - change (Nat.iter (S n) shr_1 mrs) with (shr_1 (Nat.iter n shr_1 mrs)).
    destruct (Nat.iter n shr_1 mrs) as [m r s] eqn:E. cbn [shr_m] in IH.
    assert (0 <= m) by (rewrite IH; apply Z.div_pos; [assumption | apply pow2_pos; lia]).
    rewrite shr_1_nonneg by assumption. cbn [shr_m]. rewrite IH.
    rewrite Z.div_div by (try apply pow2_pos; lia).
    rewrite Nat2Z.inj_succ, Z.pow_succ_r by lia. f_equal. lia.
Qed.

Lemma shr_fexp_shape (m e : Z) (l : location) :
  0 <= m ->
  let n := fexp prec emax (Zdigits2 m + e) - e in
  shr_m (fst (shr_fexp prec emax m e l)) = (if n <=? 0 then m else m / 2 ^ n) /\
  snd (shr_fexp prec emax m e l) = (if n <=? 0 then e else e + n).
Proof.
  intros Hm n. unfold shr_fexp. fold n.
  assert (shr_m (shr_record_of_loc m l) = m) as Hrec by (destruct l as [|[]]; reflexivity).
  unfold shr. destruct n as [|p|p] eqn:En; cbn [fst snd Z.leb Z.compare]; auto.
  rewrite iter_pos_nat, shr_m_iter by (rewrite Hrec; assumption).
  rewrite Hrec, positive_nat_Z. auto.
Qed.

Lemma round_nearest_even_bounds (m : Z) (l : location) :
  m <= round_nearest_even m l <= m + 1.
Proof.
  destruct l as [|[]]; cbn [round_nearest_even]; try lia.
  destruct (Z.even m); lia.
Qed.

Lemma Zdigits2_le (q b : Z) : 0 <= q -> 0 <= b -> q < 2 ^ b -> Zdigits2 q <= b.
Proof.
  intros Hq Hb Hlt. destruct (Z.eq_dec q 0) as [->|]; [cbn; lia|].
  apply Zdigits2_pos_le; lia.
Qed.

Lemma Zdigits2_bounds (q : Z) : 0 < q -> 2 ^ (Zdigits2 q - 1) <= q < 2 ^ Zdigits2 q.
Proof.
  intros Hq. destruct q as [|p|p]; try lia. apply digits_bounds.
Qed.

Lemma BRA_shape (s : bool) (mx ex : Z) (lx : location) :
  0 <= mx ->
  let r := binary_round_aux prec emax s mx ex lx in
  is_nan_SF r = false /\
  0 <= cond_Zopp s (SFval r) /\
  (Z.max ex (fexp prec emax (Zdigits2 mx + ex)) + 1 <= 971 -> is_finite_SF r = true).
Proof.
  intros Hmx. cbv zeta. unfold binary_round_aux.
  pose proof (shr_fexp_shape mx ex lx Hmx) as [Hm1 He1]. cbv zeta in Hm1, He1.
  destruct (shr_fexp prec emax mx ex lx) as [mrs1 e1]. cbn [fst snd] in Hm1, He1.
  set (F := fexp prec emax (Zdigits2 mx + ex)) in *.
  assert (-1074 <= F /\ Zdigits2 mx + ex - 53 <= F) as [HF1 HF2]
    by (unfold F; rewrite fexp_eq; lia).
  assert (0 <= shr_m mrs1 < 2 ^ 53 /\ e1 = Z.max ex F) as [Hm1b He1b].
  { rewrite Hm1, He1. destruct (Z.leb_spec (F - ex) 0) as [Hn|Hn].
    - split; [|lia]. split; [lia|].
      destruct (Z.eq_dec mx 0) as [->|]; [lia|].
      pose proof (Zdigits2_bounds mx ltac:(lia)) as [_ Hhi].
      assert (2 ^ Zdigits2 mx <= 2 ^ 53) by (apply Z.pow_le_mono_r; lia). lia.
    - split; [|lia]. split; [apply Z.div_pos; [lia | apply pow2_pos; lia]|].
      apply Z.div_lt_upper_bound; [apply pow2_pos; lia|].
      destruct (Z.eq_dec mx 0) as [->|]; [pose proof (pow2_pos (F - ex)); lia|].
      pose proof (Zdigits2_bounds mx ltac:(lia)) as [_ Hhi].
      rewrite <- Z.pow_add_r by lia.
      assert (2 ^ Zdigits2 mx <= 2 ^ (F - ex + 53)) by (apply Z.pow_le_mono_r; lia). lia. }
  pose proof (round_nearest_even_bounds (shr_m mrs1) (loc_of_shr_record mrs1)) as Hm2.
  set (m2 := round_nearest_even (shr_m mrs1) (loc_of_shr_record mrs1)) in *.
  pose proof (shr_fexp_shape m2 e1 loc_Exact ltac:(lia)) as [Hm3 He3]. cbv zeta in Hm3, He3.
  destruct (shr_fexp prec emax m2 e1 loc_Exact) as [mrs3 e3]. cbn [fst snd] in Hm3, He3.
  rewrite fexp_eq in Hm3, He3.
  assert (0 <= shr_m mrs3 /\ e3 <= e1 + 1) as [Hm3b He3b].
  { rewrite Hm3, He3. destruct (Z.eq_dec m2 (2 ^ 53)) as [E|NE].
    - rewrite E. change (Zdigits2 (2 ^ 53)) with 54.
      replace (Z.max (54 + e1 - 53) (-1074) - e1) with 1 by lia.
      cbn. lia.
    - pose proof (Zdigits2_le m2 53 ltac:(lia) ltac:(lia) ltac:(lia)).
      replace (Z.max (Zdigits2 m2 + e1 - 53) (-1074) - e1 <=? 0) with true
        by (symmetry; apply Z.leb_le; lia).
      lia. }
  destruct (shr_m mrs3) as [|p|p] eqn:E3; try lia.
  - repeat split. destruct s; cbn; lia.
  - change (emax - prec) with 971.
    destruct (Z.leb_spec e3 971) as [Hle|Hgt].
    + repeat split. cbn [SFval].
      pose proof (Z.pow_nonneg 2 (e3 + Kexp) ltac:(lia)).
      destruct s; cbn [cond_Zopp]; nia.
    + repeat split.
      * cbn [SFval]. pose proof TOP_pos. destruct s; cbn [cond_Zopp]; lia.
      * intros Hb. lia.
Qed.

(** Dividing a finite number by a finite number that is at least 2 gives a
    finite number of the expected sign. *)
Lemma SFdiv_shape (sx sy : bool) (mx my : positive) (ex ey : Z) :
  bounded prec emax mx ex = true ->
  2 <= Zpos (digits2_pos my) + ey ->
  let r := SFdiv prec emax (S754_finite sx mx ex) (S754_finite sy my ey) in
  is_nan_SF r = false /\ is_finite_SF r = true /\ 0 <= cond_Zopp (xorb sx sy) (SFval r).
Proof.
  intros Bx Hy. cbv zeta. cbn [SFdiv]. unfold SFdiv_core_binary.
  apply bounded_spec in Bx as (Hex & Hdx & _ & _).
  cbn [Zdigits2]. rewrite fexp_eq.
  set (d1 := Zpos (digits2_pos mx)) in *. set (d2 := Zpos (digits2_pos my)) in *.
  set (e' := Z.min (Z.max (d1 + ex - (d2 + ey) - 53) (-1074)) (ex - ey)).
  set (sh := ex - ey - e').
  assert (0 <= sh) by (unfold sh, e'; lia).
  set (m' := match sh with Z.pos _ => Z.shiftl (Z.pos mx) sh | 0 => Z.pos mx | Z.neg _ => 0 end).
  assert (m' = Zpos mx * 2 ^ sh) as Hm'.
  { unfold m'. destruct sh as [|p|p] eqn:Esh; try lia.
    apply Z.shiftl_mul_pow2. lia. }
  pose proof (Z_div_mod m' (Zpos my) ltac:(lia)) as Hdm.
  destruct (Z.div_eucl m' (Z.pos my)) as [q rr].
  destruct Hdm as [Hdm Hrr].
  assert (0 <= q) by nia.
  pose proof (BRA_shape (xorb sx sy) q e' (new_location (Z.pos my) rr) ltac:(lia)) as (Hn & Hs & Hf).
  cbv zeta in Hn, Hs, Hf.
  repeat split; try assumption.
  apply Hf. rewrite fexp_eq.
  assert (Zdigits2 q <= Z.max 0 (d1 + sh - d2 + 1)).
  { pose proof (digits_bounds mx) as [_ Hhi]. pose proof (digits_bounds my) as [Hlo _].
    fold d1 in Hhi. fold d2 in Hlo.
    assert (0 < d2) by (unfold d2; lia). assert (0 < d1) by (unfold d1; lia).
    destruct (Z.le_gt_cases (d1 + sh - d2 + 1) 0) as [Hneg|Hpos].
    - (* quotient is zero *)
      assert (q = 0); [|subst q; cbn; lia].
      assert (m' < Zpos my); [|nia].
      rewrite Hm'.
      assert (2 ^ d1 * 2 ^ sh <= 2 ^ (d2 - 1)).
      { rewrite <- Z.pow_add_r by lia. apply Z.pow_le_mono_r; lia. }
      pose proof (pow2_pos sh ltac:(lia)). nia.
    - rewrite Z.max_r by lia. apply Zdigits2_le; try lia.
      assert (m' < 2 ^ (d1 + sh)).
      { rewrite Hm', Z.pow_add_r by lia. pose proof (pow2_pos sh ltac:(lia)). nia. }
      assert (2 ^ (d1 + sh) <= 2 ^ (d1 + sh - d2 + 1) * 2 ^ (d2 - 1)).
      { rewrite <- Z.pow_add_r by lia. apply Z.pow_le_mono_r; lia. }
      pose proof (pow2_pos (d1 + sh - d2 + 1) ltac:(lia)).
      nia. }
  unfold sh in *. lia.
Qed.

(** ** Conversion of small integers and [Math.round] *)

Lemma BRA_canonical (s : bool) (m : positive) (e : Z) :
  bounded prec emax m e = true ->
  binary_round_aux prec emax s (Zpos m) e loc_Exact = S754_finite s m e.
Proof.
  intros B. pose proof (bounded_spec m e B) as (He & Hd & Hc & Hf).
  unfold binary_round_aux.
  rewrite shr_fexp_exact by lia. cbv zeta. cbn [Zdigits2]. rewrite Hf, Z.sub_diag.
  cbn [Z.leb Z.compare shr_m loc_of_shr_record round_nearest_even].
  rewrite shr_fexp_exact by lia. cbv zeta. cbn [Zdigits2]. rewrite Hf, Z.sub_diag.
  cbn [Z.leb Z.compare shr_m].
  change (emax - prec) with 971.
  replace (e <=? 971) with true by (symmetry; apply Z.leb_le; lia).
  reflexivity.
Qed.

Lemma binary_round_small (s : bool) (p : positive) :
  Zpos (digits2_pos p) <= 53 ->
  exists m e, binary_round prec emax s p 0 = S754_finite s m e /\
              bounded prec emax m e = true /\
              Zpos m * 2 ^ (e + Kexp) = Zpos p * 2 ^ Kexp.
Proof.
  intros Hd. unfold binary_round.
  pose proof (shl_align_spec p 0 (fexp prec emax (Zpos (digits2_pos p) + 0))
                ltac:(unfold Kexp; lia) ltac:(rewrite fexp_eq; unfold Kexp; lia)) as H.
  destruct (shl_align p 0 _) as [mz ez]. destruct H as (Hez & Hv & Hdig).
  rewrite fexp_eq in Hez.
  assert (bounded prec emax mz ez = true) as B.
  { unfold bounded, canonical_mantissa. rewrite fexp_eq. change (emax - prec) with 971.
    apply andb_true_iff. split; [apply Z.eqb_eq | apply Z.leb_le]; lia. }
  exists mz, ez. rewrite BRA_canonical by assumption.
  repeat split; assumption.
Qed.

Lemma binary_normalize_small (n : Z) (s : bool) :
  - 2 ^ 53 < n < 2 ^ 53 ->
  valid_binary (binary_normalize prec emax n 0 s) = true /\
  is_finite_SF (binary_normalize prec emax n 0 s) = true /\
  SFval (binary_normalize prec emax n 0 s) = n * 2 ^ Kexp.
Proof.
  intros Hn. destruct n as [|p|p]; cbn [binary_normalize].
  - repeat split.
  - destruct (binary_round_small false p) as (m & e & -> & B & V).
    { apply (Zdigits2_pos_le (Zpos p) 53); lia. }
    repeat split; [exact B | exact V].
  - destruct (binary_round_small true p) as (m & e & -> & B & V).
    { apply (Zdigits2_pos_le (Zpos p) 53); lia. }
    repeat split; [exact B |]. cbn [SFval cond_Zopp]. rewrite V. lia.
Qed.

(** [n = round_half_up s m e] is the integer with [n - 1/2 <= ±m·2^e < n + 1/2]. *)
Lemma round_half_up_spec (s : bool) (m : positive) (e : Z) :
  e < 0 ->
  let n := round_half_up s m e in
  (2 * n - 1) * 2 ^ (- e) <= 2 * cond_Zopp s (Zpos m) < (2 * n + 1) * 2 ^ (- e).
Proof.
  intros He n. unfold n, round_half_up.
  replace (1 - e) with (1 + - e) by lia. rewrite Z.pow_add_r by lia. change (2 ^ 1) with 2.
  pose proof (pow2_pos (- e) ltac:(lia)) as HP.
  set (P := 2 ^ (- e)) in *.
  set (a := cond_Zopp s (2 * Zpos m) + P).
  pose proof (Z.div_mod a (2 * P) ltac:(lia)) as Hdm.
  pose proof (Z.mod_pos_bound a (2 * P) ltac:(lia)) as Hb.
  assert (2 * cond_Zopp s (Zpos m) = a - P) as -> by (unfold a; destruct s; cbn [cond_Zopp]; lia).
  nia.
Qed.

Lemma round_half_up_range (s : bool) (m : positive) (e : Z) :
  e < 0 -> Zpos (digits2_pos m) <= 53 ->
  - 2 ^ 52 <= round_half_up s m e <= 2 ^ 52 /\
  0 <= cond_Zopp s (round_half_up s m e).
Proof.
  intros He Hd. pose proof (round_half_up_spec s m e He) as H. cbv zeta in H.
  set (n := round_half_up s m e) in *.
  pose proof (digits_bounds m) as [_ Hhi].
  assert (2 ^ Zpos (digits2_pos m) <= 2 ^ 53) by (apply Z.pow_le_mono_r; lia).
  assert (2 ^ 1 <= 2 ^ (- e)) by (apply Z.pow_le_mono_r; lia).
  change (2 ^ 1) with 2 in *. change (2 ^ 53) with 9007199254740992 in *.
  change (2 ^ 52) with 4503599627370496.
  set (P := 2 ^ (- e)) in *.
  destruct s; cbn [cond_Zopp] in *; split; nia.
Qed.

Lemma leb_true_iff (a b : float) :
  PrimFloat.leb a b = true <-> is_nan a = false /\ is_nan b = false /\ Fval a <= Fval b.
Proof.
  split.
  - intros H. assert (is_nan a = false /\ is_nan b = false) as [Na Nb].
    { rewrite !is_nan_Prim. rewrite FloatAxioms.leb_spec in H. unfold SFleb in H.
      destruct (Prim2SF a), (Prim2SF b); try discriminate; auto. }
    repeat split; try assumption.
    rewrite leb_Fval in H by assumption. apply Z.leb_le. exact H.
  - intros (Na & Nb & H). rewrite leb_Fval by assumption. apply Z.leb_le. exact H.
Qed.

Lemma ltb_true_iff (a b : float) :
  PrimFloat.ltb a b = true <-> is_nan a = false /\ is_nan b = false /\ Fval a < Fval b.
Proof.
  split.
  - intros H. assert (is_nan a = false /\ is_nan b = false) as [Na Nb].
    { rewrite !is_nan_Prim. rewrite FloatAxioms.ltb_spec in H. unfold SFltb in H.
      destruct (Prim2SF a), (Prim2SF b); try discriminate; auto. }
    repeat split; try assumption.
    rewrite ltb_Fval in H by assumption. apply Z.ltb_lt. exact H.
  - intros (Na & Nb & H). rewrite ltb_Fval by assumption. apply Z.ltb_lt. exact H.
Qed.

(** ** Intervals with binary64 endpoints *)

Definition interval : Type := float * float.

Definition contains (iv : interval) (x : float) : Prop :=
  PrimFloat.leb (fst iv) x = true /\ PrimFloat.leb x (snd iv) = true.

Definition fmin (a b : float) : float := if PrimFloat.leb a b then a else b.
Definition fmax (a b : float) : float := if PrimFloat.leb a b then b else a.
Definition fmin4 (a b c d : float) : float := fmin (fmin a b) (fmin c d).
Definition fmax4 (a b c d : float) : float := fmax (fmax a b) (fmax c d).

Definition imul (a b : interval) : option interval :=
  let '(al, ah) := a in
  let '(bl, bh) := b in
  if is_finite al && is_finite ah && is_finite bl && is_finite bh then
    Some (fmin4 (al * bl) (al * bh) (ah * bl) (ah * bh),
          fmax4 (al * bl) (al * bh) (ah * bl) (ah * bh))%float
  else if PrimFloat.ltb 0 al && PrimFloat.ltb 0 bl then Some (al * bl, ah * bh)%float
  else None.

Definition iadd (a b : interval) : option interval :=
  let '(al, ah) := a in
  let '(bl, bh) := b in
  if PrimFloat.ltb neg_infinity al && PrimFloat.ltb neg_infinity bl
  then Some (al + bl, ah + bh)%float
  else None.

Definition isub (a b : interval) : option interval :=
  let '(al, ah) := a in
  let '(bl, bh) := b in
  if PrimFloat.ltb neg_infinity al && PrimFloat.ltb bh infinity
  then Some (al - bh, ah - bl)%float
  else None.

Inductive expr : Type :=
| Var
| Const (c : float)
| Mul (a b : expr)
| Add (a b : expr)
| Sub (a b : expr).

Fixpoint feval (e : expr) (x : float) : float :=
  match e with
  | Var => x
  | Const c => c
  | Mul a b => (feval a x * feval b x)%float
  | Add a b => (feval a x + feval b x)%float
  | Sub a b => (feval a x - feval b x)%float
  end.

Fixpoint ieval (e : expr) (x : interval) : option interval :=
  match e with
  | Var => Some x
  | Const c => if is_nan c then None else Some (c, c)
  | Mul a b =>
      match ieval a x, ieval b x with
      | Some ia, Some ib => imul ia ib
      | _, _ => None
      end
  | Add a b =>
      match ieval a x, ieval b x with
      | Some ia, Some ib => iadd ia ib
      | _, _ => None
      end
  | Sub a b =>
      match ieval a x, ieval b x with
      | Some ia, Some ib => isub ia ib
      | _, _ => None
      end
  end.

Lemma fmin_spec (a b : float) :
  is_nan a = false -> is_nan b = false ->
  is_nan (fmin a b) = false /\ Fval (fmin a b) = Z.min (Fval a) (Fval b).
Proof.
  intros Na Nb. unfold fmin. rewrite leb_Fval by assumption.
  destruct (Z.leb_spec (Fval a) (Fval b)); split; try assumption; lia.
Qed.

Lemma fmax_spec (a b : float) :
  is_nan a = false -> is_nan b = false ->
  is_nan (fmax a b) = false /\ Fval (fmax a b) = Z.max (Fval a) (Fval b).
Proof.
  intros Na Nb. unfold fmax. rewrite leb_Fval by assumption.
  destruct (Z.leb_spec (Fval a) (Fval b)); split; try assumption; lia.
Qed.

Lemma Fval_neg_infinity : Fval neg_infinity = - TOP.
Proof. reflexivity. Qed.

Lemma Fval_infinity : Fval infinity = TOP.
Proof. reflexivity. Qed.

Lemma mul_finite_value (x y : float) :
  is_finite x = true -> is_finite y = true ->
  is_nan (x * y) = false /\ Fval (x * y) = RNs (Fval x * Fval y / 2 ^ Kexp).
Proof.
  intros Fx Fy. rewrite is_finite_Prim in Fx, Fy. rewrite is_nan_Prim. unfold Fval.
  rewrite FloatAxioms.mul_spec. apply SFmul_value; try apply Prim2SF_valid; assumption.
Qed.

Lemma finite_between (l h x : float) :
  is_finite l = true -> is_finite h = true ->
  PrimFloat.leb l x = true -> PrimFloat.leb x h = true -> is_finite x = true.
Proof.
  intros Fl Fh Hl Hh.
  apply leb_true_iff in Hl as (_ & Nx & Hl). apply leb_true_iff in Hh as (_ & _ & Hh).
  apply finite_Fval in Fl as [_ Fl]. apply finite_Fval in Fh as [_ Fh].
  apply Fval_finite; [assumption | lia].
Qed.

Lemma imul_sound (a b r : interval) (x y : float) :
  imul a b = Some r -> contains a x -> contains b y -> contains r (x * y)%float.
Proof.
  destruct a as [al ah], b as [bl bh]. unfold imul, contains. cbn [fst snd].
  intros H [Hxl Hxh] [Hyl Hyh].
  destruct (is_finite al && is_finite ah && is_finite bl && is_finite bh) eqn:Hfin.
  - assert (r = (fmin4 (al * bl) (al * bh) (ah * bl) (ah * bh),
                 fmax4 (al * bl) (al * bh) (ah * bl) (ah * bh))%float) as -> by congruence.
    clear H. cbn [fst snd].
    repeat (apply andb_true_iff in Hfin as [Hfin ?]).
    rename Hfin into Fal, H1 into Fah, H0 into Fbl, H into Fbh.
    pose proof (finite_between _ _ _ Fal Fah Hxl Hxh) as Fx.
    pose proof (finite_between _ _ _ Fbl Fbh Hyl Hyh) as Fy.
    destruct (mul_finite_value x y Fx Fy) as [Nxy Vxy].
    destruct (mul_finite_value al bl Fal Fbl) as [N1 V1].
    destruct (mul_finite_value al bh Fal Fbh) as [N2 V2].
    destruct (mul_finite_value ah bl Fah Fbl) as [N3 V3].
    destruct (mul_finite_value ah bh Fah Fbh) as [N4 V4].
    apply leb_true_iff in Hxl as (_ & _ & Hxl). apply leb_true_iff in Hxh as (_ & _ & Hxh).
    apply leb_true_iff in Hyl as (_ & _ & Hyl). apply leb_true_iff in Hyh as (_ & _ & Hyh).
    pose proof (mul_corner_bounds _ _ _ _ _ _ (conj Hxl Hxh) (conj Hyl Hyh)) as [Hlo Hhi].
    pose proof (pow2_pos Kexp ltac:(unfold Kexp; lia)) as HpK.
    assert (forall s t, s <= t -> RNs (s / 2 ^ Kexp) <= RNs (t / 2 ^ Kexp)) as Hmono
      by (intros; apply RNs_mono, Z.div_le_mono; lia).
    unfold fmin4, fmax4.
    destruct (fmin_spec _ _ N1 N2) as [Na Ua]. destruct (fmin_spec _ _ N3 N4) as [Nb Ub].
    destruct (fmin_spec _ _ Na Nb) as [Nm Um].
    destruct (fmax_spec _ _ N1 N2) as [Nc Uc]. destruct (fmax_spec _ _ N3 N4) as [Nd Ud].
    destruct (fmax_spec _ _ Nc Nd) as [NM UM].
    split; apply leb_true_iff; (split; [assumption|]); (split; [assumption|]).
    + rewrite Um, Ua, Ub, V1, V2, V3, V4, Vxy.
      transitivity (RNs (min4 (Fval al * Fval bl) (Fval al * Fval bh) (Fval ah * Fval bl) (Fval ah * Fval bh) / 2 ^ Kexp));
        [|apply Hmono; exact Hlo].
      unfold min4.
      repeat match goal with |- context [Z.min ?p ?q] =>
        destruct (Z.min_spec p q) as [[? ->]|[? ->]] end;
      repeat match goal with |- context [Z.min (RNs ?p) (RNs ?q)] =>
        pose proof (Z.le_min_l (RNs p) (RNs q)); pose proof (Z.le_min_r (RNs p) (RNs q));
        generalize dependent (Z.min (RNs p) (RNs q)); intros end; lia.
    + rewrite UM, Uc, Ud, V1, V2, V3, V4, Vxy.
      transitivity (RNs (max4 (Fval al * Fval bl) (Fval al * Fval bh) (Fval ah * Fval bl) (Fval ah * Fval bh) / 2 ^ Kexp));
        [apply Hmono; exact Hhi|].
      unfold max4.
      repeat match goal with |- context [Z.max ?p ?q] =>
        destruct (Z.max_spec p q) as [[? ->]|[? ->]] end;
      repeat match goal with |- context [Z.max (RNs ?p) (RNs ?q)] =>
        pose proof (Z.le_max_l (RNs p) (RNs q)); pose proof (Z.le_max_r (RNs p) (RNs q));
        generalize dependent (Z.max (RNs p) (RNs q)); intros end; lia.
  - destruct (PrimFloat.ltb 0 al && PrimFloat.ltb 0 bl) eqn:Hpos; [|discriminate].
    assert (r = (al * bl, ah * bh)%float) as -> by congruence. clear H. cbn [fst snd].
    apply andb_true_iff in Hpos as [Pa Pb].
    apply ltb_true_iff in Pa as (_ & Nal & Pa). apply ltb_true_iff in Pb as (_ & Nbl & Pb).
    rewrite Fval_zero in Pa, Pb.
    apply leb_true_iff in Hxl as (_ & Nx & Hxl). apply leb_true_iff in Hxh as (_ & Nah & Hxh).
    apply leb_true_iff in Hyl as (_ & Ny & Hyl). apply leb_true_iff in Hyh as (_ & Nbh & Hyh).
    rewrite is_nan_Prim in Nal, Nbl, Nx, Nah, Ny, Nbh. unfold Fval in *.
    destruct (SFmul_mono_pos (Prim2SF al) (Prim2SF bl) (Prim2SF x) (Prim2SF y))
      as (M1 & M2 & M3); try apply Prim2SF_valid; try assumption.
    destruct (SFmul_mono_pos (Prim2SF x) (Prim2SF y) (Prim2SF ah) (Prim2SF bh))
      as (_ & M5 & M6); try apply Prim2SF_valid; try assumption; try lia.
    split; apply leb_true_iff; rewrite !is_nan_Prim; unfold Fval;
      rewrite !FloatAxioms.mul_spec; auto.
Qed.

Lemma iadd_sound (a b r : interval) (x y : float) :
  iadd a b = Some r -> contains a x -> contains b y -> contains r (x + y)%float.
Proof.
  destruct a as [al ah], b as [bl bh]. unfold iadd, contains. cbn [fst snd].
  intros H [Hxl Hxh] [Hyl Hyh].
  destruct (PrimFloat.ltb neg_infinity al && PrimFloat.ltb neg_infinity bl) eqn:Hc;
    [|discriminate].
  assert (r = (al + bl, ah + bh)%float) as -> by congruence. clear H. cbn [fst snd].
  apply andb_true_iff in Hc as [Pa Pb].
  apply ltb_true_iff in Pa as (_ & Nal & Pa). apply ltb_true_iff in Pb as (_ & Nbl & Pb).
  rewrite Fval_neg_infinity in Pa, Pb.
  apply leb_true_iff in Hxl as (_ & Nx & Hxl). apply leb_true_iff in Hxh as (_ & Nah & Hxh).
  apply leb_true_iff in Hyl as (_ & Ny & Hyl). apply leb_true_iff in Hyh as (_ & Nbh & Hyh).
  rewrite is_nan_Prim in Nal, Nbl, Nx, Nah, Ny, Nbh. unfold Fval in *.
  destruct (SFadd_mono (Prim2SF al) (Prim2SF bl) (Prim2SF x) (Prim2SF y))
    as (M1 & M2 & M3); try apply Prim2SF_valid; try assumption.
  destruct (SFadd_mono (Prim2SF x) (Prim2SF y) (Prim2SF ah) (Prim2SF bh))
    as (_ & M5 & M6); try apply Prim2SF_valid; try assumption; try lia.
  split; apply leb_true_iff; rewrite !is_nan_Prim; unfold Fval;
    rewrite !FloatAxioms.add_spec; auto.
Qed.

Lemma isub_sound (a b r : interval) (x y : float) :
  isub a b = Some r -> contains a x -> contains b y -> contains r (x - y)%float.
Proof.
  destruct a as [al ah], b as [bl bh]. unfold isub, contains. cbn [fst snd].
  intros H [Hxl Hxh] [Hyl Hyh].
  destruct (PrimFloat.ltb neg_infinity al && PrimFloat.ltb bh infinity) eqn:Hc;
    [|discriminate].
  assert (r = (al - bh, ah - bl)%float) as -> by congruence. clear H. cbn [fst snd].
  apply andb_true_iff in Hc as [Pa Pb].
  apply ltb_true_iff in Pa as (_ & Nal & Pa). apply ltb_true_iff in Pb as (Nbh & _ & Pb).
  rewrite Fval_neg_infinity in Pa. rewrite Fval_infinity in Pb.
  apply leb_true_iff in Hxl as (_ & Nx & Hxl). apply leb_true_iff in Hxh as (_ & Nah & Hxh).
  apply leb_true_iff in Hyl as (Nbl & Ny & Hyl). apply leb_true_iff in Hyh as (_ & _ & Hyh).
  rewrite is_nan_Prim in Nal, Nbl, Nx, Nah, Ny, Nbh. unfold Fval in *.
  destruct (SFadd_mono (Prim2SF al) (SFopp (Prim2SF bh)) (Prim2SF x) (SFopp (Prim2SF y)))
    as (M1 & M2 & M3);
    rewrite ?valid_SFopp, ?is_nan_SFopp, ?SFval_SFopp; try apply Prim2SF_valid; try assumption;
    try lia.
  destruct (SFadd_mono (Prim2SF x) (SFopp (Prim2SF y)) (Prim2SF ah) (SFopp (Prim2SF bl)))
    as (_ & M5 & M6);
    rewrite ?valid_SFopp, ?is_nan_SFopp, ?SFval_SFopp; try apply Prim2SF_valid; try assumption;
    try lia.
  split; apply leb_true_iff; rewrite !is_nan_Prim; unfold Fval;
    rewrite !FloatAxioms.sub_spec; unfold SF64sub; rewrite !SFsub_add_opp; auto.
Qed.

Theorem ieval_sound (e : expr) (iv r : interval) (x : float) :
  ieval e iv = Some r -> contains iv x -> contains r (feval e x).
Proof.
  revert r. induction e as [|c|a IHa b IHb|a IHa b IHb|a IHa b IHb];
    intros r H Hx; cbn [ieval feval] in *.
  - assert (r = iv) as -> by congruence. exact Hx.
  - destruct (is_nan c) eqn:Nc; [discriminate|].
    assert (r = (c, c)) as -> by congruence.
    split; cbn [fst snd]; apply leb_true_iff; repeat split; try assumption; lia.
  - destruct (ieval a iv) as [ia|]; [|discriminate].
    destruct (ieval b iv) as [ib|]; [|discriminate].
    eapply imul_sound; eauto.
  - destruct (ieval a iv) as [ia|]; [|discriminate].
    destruct (ieval b iv) as [ib|]; [|discriminate].
    eapply iadd_sound; eauto.
  - destruct (ieval a iv) as [ia|]; [|discriminate].
    destruct (ieval b iv) as [ib|]; [|discriminate].
    eapply isub_sound; eauto.
Qed.

(** ** Covering a range by consecutive intervals *)

Fixpoint check_cover (e : expr) (ok : interval -> bool) (lo : float) (bs : list float) : bool :=
  match bs with
  | [] => true
  | b :: bs' =>
      negb (is_nan b) &&
      match ieval e (lo, b) with
      | Some r => ok r && check_cover e ok b bs'
      | None => false
      end
  end.

Lemma last_cons_default (A : Type) (l : list A) (a d d' : A) :
  last (a :: l) d = last (a :: l) d'.
Proof.
  revert a. induction l as [|b l IH]; intros a; [reflexivity|].
  change (last (a :: b :: l) d) with (last (b :: l) d).
  change (last (a :: b :: l) d') with (last (b :: l) d'). apply IH.
Qed.

Lemma check_cover_sound (e : expr) (ok : interval -> bool) (bs : list float) :
  forall lo x,
    bs <> [] ->
    check_cover e ok lo bs = true ->
    PrimFloat.leb lo x = true -> PrimFloat.leb x (last bs lo) = true ->
    exists r, ok r = true /\ contains r (feval e x).
Proof.
  induction bs as [|b bs IH]; intros lo x Hne Hc Hlo Hhi; [congruence|].
  cbn [check_cover] in Hc.
  apply andb_true_iff in Hc as [Nb Hc]. apply negb_true_iff in Nb.
  destruct (ieval e (lo, b)) as [r|] eqn:Hr; [|discriminate].
  apply andb_true_iff in Hc as [Hok Hc].
  destruct (PrimFloat.leb x b) eqn:Hxb.
  - exists r. split; [exact Hok|].
    apply (ieval_sound e (lo, b)); [exact Hr|]. split; assumption.
  - destruct bs as [|b' bs'].
    + cbn [last] in Hhi. congruence.
    + apply (IH b x); try assumption; [discriminate| |].
      * apply leb_true_iff in Hhi as (Nx & _ & _).
        apply leb_true_iff. repeat split; try assumption.
        rewrite leb_Fval in Hxb by assumption. apply Z.leb_gt in Hxb. lia.
      * change (last (b :: b' :: bs') lo) with (last (b' :: bs') lo) in Hhi.
        rewrite (last_cons_default _ bs' b' b lo). exact Hhi.
Qed.

(** ** The water-cement regression is positive *)

Definition wc_expr : expr :=
  Add (Sub (Mul (Mul (Const 9e-06) Var) Var) (Mul (Const 0.0044) Var)) (Const 0.5617).

Definition steps (start step : float) (count : nat) : list float :=
  map (fun i => (start + step * of_uint63 (Uint63.of_Z (Z.of_nat i)))%float) (seq 1 count).

Fixpoint powers (start factor : float) (count : nat) : list float :=
  match count with
  | O => []
  | S n => (start * factor)%float :: powers (start * factor)%float factor n
  end.

Definition max_float : float := 0x1.fffffffffffffp+1023%float.

Definition wc_breaks : list float :=
  (steps 0 64 1 ++ steps 64 32 2 ++ steps 128 4 68 ++ steps 400 16 7 ++ steps 512 64 8
   ++ powers 1024 2 34 ++ powers 0x1p+44 0x1p+30 32 ++ [max_float])%float.

Definition lower_positive (r : interval) : bool := PrimFloat.ltb 0 (fst r).

Lemma wc_cover : check_cover wc_expr lower_positive 0%float wc_breaks = true.
Proof. vm_compute. reflexivity. Qed.

Lemma eqb_leb (x y : float) : PrimFloat.eqb x y = true -> PrimFloat.leb x y = true.
Proof.
  rewrite FloatAxioms.eqb_spec, FloatAxioms.leb_spec. unfold SFeqb, SFleb.
  destruct (SFcompare _ _) as [[]|]; auto.
Qed.

(** product of two positive numbers *)
Lemma mul_pos_nonneg (x y : float) :
  is_nan x = false -> is_nan y = false -> 0 < Fval x -> 0 < Fval y ->
  is_nan (x * y) = false /\ 0 <= Fval (x * y).
Proof.
  intros Nx Ny Hx Hy.
  pose proof (Prim2SF_valid x) as Vx. pose proof (Prim2SF_valid y) as Vy.
  rewrite is_nan_Prim in *. unfold Fval in *. rewrite FloatAxioms.mul_spec. unfold SF64mul.
  pose proof TOP_pos.
  destruct (positive_SF _ Vx Nx Hx) as [Ex|(mx & ex & Ex)];
  destruct (positive_SF _ Vy Ny Hy) as [Ey|(my & ey & Ey)].
  1-3: rewrite Ex, Ey; split; [reflexivity|];
       match goal with |- _ <= SFval ?t => change (SFval t) with TOP end; lia.
  destruct (SFmul_value _ _ Vx Vy) as [Hn Hv]; try (rewrite ?Ex, ?Ey; reflexivity).
  split; [exact Hn|]. rewrite Hv.
  pose proof (pow2_pos Kexp ltac:(unfold Kexp; lia)).
  assert (0 <= SFval (Prim2SF x) * SFval (Prim2SF y) / 2 ^ Kexp) by (apply Z.div_pos; nia).
  unfold RNs. destruct (Z.ltb_spec (SFval (Prim2SF x) * SFval (Prim2SF y) / 2 ^ Kexp) 0); [lia|].
  apply RN_range. assumption.
Qed.

(** ** [Math.round] *)

Lemma Math_round_cases (y : float) :
  match Prim2SF y with
  | S754_finite s m e =>
      if 0 <=? e then Math_round y = y
      else Prim2SF (Math_round y) = binary_normalize prec emax (round_half_up s m e) 0 s
  | _ => Math_round y = y
  end.
Proof.
  unfold Math_round. pose proof (Prim2SF_valid y) as V.
  destruct (Prim2SF y) as [s|s| |s m e]; try reflexivity.
  destruct (Z.leb_spec 0 e) as [He|He]; [reflexivity|].
  cbn [valid_binary] in V. apply bounded_spec in V as (_ & Hd & _ & _).
  pose proof (round_half_up_range s m e He Hd) as [Hr _].
  apply Prim2SF_SF2Prim.
  apply binary_normalize_small.
  change (2 ^ 53) with 9007199254740992. change (2 ^ 52) with 4503599627370496 in Hr. lia.
Qed.

(** The rounded number is an integer [n] with [n - 1/2 <= y < n + 1/2]. *)
Lemma Math_round_nearest (y : float) :
  is_finite y = true ->
  exists n : Z,
    is_finite (Math_round y) = true /\
    Fval (Math_round y) = n * 2 ^ Kexp /\
    (2 * n - 1) * 2 ^ Kexp <= 2 * Fval y < (2 * n + 1) * 2 ^ Kexp.
Proof.
  intros F. pose proof (Math_round_cases y) as H.
  pose proof (Prim2SF_valid y) as V.
  pose proof (pow2_pos Kexp ltac:(unfold Kexp; lia)) as HpK.
  rewrite is_finite_Prim in *. unfold Fval.
  destruct (Prim2SF y) as [s|s| |s m e] eqn:Ey; try discriminate.
  - rewrite H, Ey. exists 0. cbn [SFval]. repeat split; lia.
  - cbn [valid_binary] in V. pose proof (bounded_spec m e V) as (He & Hd & _ & _).
    destruct (Z.leb_spec 0 e) as [He0|He0].
    + rewrite H, Ey. exists (cond_Zopp s (Zpos m * 2 ^ e)).
      split; [reflexivity|]. cbn [SFval].
      rewrite Z.pow_add_r by (unfold Kexp; lia).
      assert (cond_Zopp s (Z.pos m * (2 ^ e * 2 ^ Kexp)) = cond_Zopp s (Z.pos m * 2 ^ e) * 2 ^ Kexp)
        as -> by (destruct s; cbn [cond_Zopp]; ring).
      split; [reflexivity|]. lia.
    + pose proof (round_half_up_range s m e He0 Hd) as [Hr _].
      pose proof (round_half_up_spec s m e He0) as Hs. cbv zeta in Hs.
      set (n := round_half_up s m e) in *.
      destruct (binary_normalize_small n s) as (Vn & Fn & Un).
      { change (2 ^ 53) with 9007199254740992.
        change (2 ^ 52) with 4503599627370496 in Hr. lia. }
      rewrite H. exists n. repeat split; try assumption.
      * cbn [SFval].
        assert (2 ^ Kexp = 2 ^ (e + Kexp) * 2 ^ (- e)) as HK.
        { rewrite <- Z.pow_add_r by (unfold Kexp; lia). f_equal. lia. }
        pose proof (pow2_pos (e + Kexp) ltac:(unfold Kexp; lia)).
        rewrite HK.
        assert (2 * cond_Zopp s (Z.pos m * 2 ^ (e + Kexp))
                = 2 * cond_Zopp s (Z.pos m) * 2 ^ (e + Kexp)) as ->
          by (destruct s; cbn [cond_Zopp]; ring).
        nia.
      * cbn [SFval].
        assert (2 ^ Kexp = 2 ^ (e + Kexp) * 2 ^ (- e)) as HK.
        { rewrite <- Z.pow_add_r by (unfold Kexp; lia). f_equal. lia. }
        pose proof (pow2_pos (e + Kexp) ltac:(unfold Kexp; lia)).
        rewrite HK.
        assert (2 * cond_Zopp s (Z.pos m * 2 ^ (e + Kexp))
                = 2 * cond_Zopp s (Z.pos m) * 2 ^ (e + Kexp)) as ->
          by (destruct s; cbn [cond_Zopp]; ring).
        nia.
Qed.

Lemma Math_round_nonneg (y : float) :
  is_nan y = false -> 0 <= Fval y ->
  is_nan (Math_round y) = false /\ 0 <= Fval (Math_round y).
Proof.
  intros N H. destruct (is_finite y) eqn:F.
  - destruct (Math_round_nearest y F) as (n & Fn & Un & Hn).
    apply finite_Fval in Fn as [Nn _]. split; [exact Nn|].
    rewrite Un. pose proof (pow2_pos Kexp ltac:(unfold Kexp; lia)) as HpK.
    destruct (Z.le_gt_cases 0 n) as [Hn0|Hn0]; [apply Z.mul_nonneg_nonneg; lia|].
    exfalso. destruct Hn as [_ Hn]. revert Hn HpK H. generalize (2 ^ Kexp) (Fval y).
    intros P u Hn HP Hu. assert ((2 * n + 1) * P <= -1 * P) by (apply Z.mul_le_mono_nonneg_r; lia).
    lia.
  - pose proof (Math_round_cases y) as Hc.
    rewrite is_finite_Prim in F.
    destruct (Prim2SF y) as [s|s| |s m e] eqn:Ey; try discriminate; rewrite Hc; auto.
Qed.

(** ** Division by the scaling factors *)

Lemma div_by_constant (y d : float) (md : positive) (ed : Z) :
  Prim2SF d = S754_finite false md ed ->
  2 <= Zpos (digits2_pos md) + ed ->
  is_nan y = false ->
  is_nan (y / d) = false /\
  (is_finite y = true -> is_finite (y / d) = true) /\
  (0 <= Fval y -> 0 <= Fval (y / d)).
Proof.
  intros Ed Hd N. pose proof (Prim2SF_valid y) as V. pose proof TOP_pos as HT.
  rewrite !is_finite_Prim, !is_nan_Prim in *. unfold Fval.
  rewrite FloatAxioms.div_spec, Ed. unfold SF64div.
  destruct (Prim2SF y) as [s|s| |s m e] eqn:Ey; try discriminate.
  - cbn [SFdiv]. repeat split; try reflexivity.
  - cbn [SFdiv xorb SFval]. rewrite xorb_false_r. repeat split; try discriminate.
    auto.
  - cbn [valid_binary] in V.
    pose proof (SFdiv_shape s false m md e ed V Hd) as (Hn & Hf & Hs). cbv zeta in Hn, Hf, Hs.
    rewrite xorb_false_r in Hs.
    split; [exact Hn|]. split; [intros _; exact Hf|].
    intros Hy. pose proof (finite_lt_TOP m e V).
    destruct s; [exfalso; unfold SFval, cond_Zopp in Hy; lia | exact Hs].
Qed.

Lemma Prim2SF_100 : Prim2SF 100%float = S754_finite false 7036874417766400 (-46).
Proof. reflexivity. Qed.

Lemma Prim2SF_1000 : Prim2SF 1000%float = S754_finite false 8796093022208000 (-43).
Proof. reflexivity. Qed.

End Binary64.

Import Binary64.

(** ** Concrete evaluations *)

(** Two numbers that [=?] tells apart are different values. *)
Lemma float_neq (a b : float) : (a =? b) = false -> is_nan a = false -> a <> b.
Proof.
  intros Hab Hnan E. subst b.
  unfold is_nan in Hnan. rewrite Hab in Hnan. discriminate.
Qed.

Lemma Some_float_neq (a b : float) :
  (a =? b) = false -> is_nan a = false -> Some a <> Some b.
Proof.
  intros Hab Hnan E. injection E as E. exact (float_neq a b Hab Hnan E).
Qed.

(** C1 (as amended): for [fck = 20] and exposure ["moderate"] the
    computation succeeds with rounded outputs 26.44, 0.477, 189.4, 380.91,
    647.64 and 1142.35, and flags [isWcOk = true], [isCementOk = true],
    [isGradeOk = false], against the limits of the moderate class. *)
Theorem C1_scenario_20_moderate :
  forall StringToNumber,
    computeMixDesign StringToNumber (VNumber 20) (Some "moderate"%string) =
    Some {| fckMean := Some 26.44;
            w_c := Some 0.477;
            water := Some 189.4;
            cement := Some 380.91;
            fineAgg := Some 647.64;
            coarseAgg := Some 1142.35;
            checks := {| isWcOk := true;
                         isCementOk := true;
                         isGradeOk := false;
                         limits := OExposure moderate |} |}.
Proof. intros StringToNumber. vm_compute. reflexivity. Qed.

(** C1 (as stated) fails: none of the six numbers the scenario lists
    (26.43, 0.486, 189.38, 379.16, 662.21, 1140.46) is the one the code
    emits for [fck = 20], exposure ["moderate"]. *)
Lemma C1_stated_values_differ :
  exists r,
    (forall StringToNumber,
       computeMixDesign StringToNumber (VNumber 20) (Some "moderate"%string)
       = Some r) /\
    fckMean r <> Some 26.43 /\
    w_c r <> Some 0.486 /\
    water r <> Some 189.38 /\
    cement r <> Some 379.16 /\
    fineAgg r <> Some 662.21 /\
    coarseAgg r <> Some 1140.46.
Proof.
  eexists. split.
  - intros StringToNumber. vm_compute. reflexivity.
  - cbn [fckMean w_c water cement fineAgg coarseAgg].
    repeat split; apply Some_float_neq; vm_compute; reflexivity.
Qed.

(** ** Exposure resolution *)

Definition resolve (exposureKey : option string) : object :=
  or_else (EXPOSURES_get exposureKey) (OExposure mild).

Lemma own_property_EXPOSURES (k : string) (e : ExposureClass) :
  own_property k EXPOSURES = Some e ->
  e = mild \/ e = moderate \/ e = severe \/ e = verySevere \/ e = extreme.
Proof.
  unfold EXPOSURES. cbn [own_property].
  repeat (destruct (String.eqb k _); [ intros E; injection E as <-; tauto | ]).
  discriminate.
Qed.

(** A key that is neither an own property of the table nor a property name
    of [Object.prototype] falls back to the mild class. *)
Lemma resolve_unknown (k : string) :
  own_property k EXPOSURES = None ->
  existsb (String.eqb k) Object_prototype = false ->
  resolve (Some k) = OExposure mild.
Proof.
  intros Hown Hproto. unfold resolve, EXPOSURES_get. cbn [ToPropertyKey].
  rewrite Hown, Hproto. reflexivity.
Qed.


Lemma resolve_empty : resolve (Some ""%string) = OExposure mild.
Proof. reflexivity. Qed.

(** Whatever the key, the limits are one of the five classes or an inherited
    member of [Object.prototype]. *)
Lemma resolve_cases (exposureKey : option string) :
  (exists e, resolve exposureKey = OExposure e /\
     (e = mild \/ e = moderate \/ e = severe \/ e = verySevere \/ e = extreme))
  \/ (exists n, resolve exposureKey = OInherited n).
Proof.
  unfold resolve, EXPOSURES_get.
  destruct (own_property _ EXPOSURES) as [e|] eqn:Hown.
  - left. exists e. split; [reflexivity|].
    exact (own_property_EXPOSURES _ _ Hown).
  - destruct (existsb _ Object_prototype).
    + right. eexists. reflexivity.
    + left. exists mild. split; [reflexivity | tauto].
Qed.

(** Scenario 3 of the specification: an unrecognised key that is no
    inherited property name is computed against the mild limits. *)
Lemma scenario_30_unknownXYZ :
  forall StringToNumber,
    computeMixDesign StringToNumber (VNumber 30) (Some "unknownXYZ"%string) =
    Some {| fckMean := Some 37.76;
            w_c := Some 0.438;
            water := Some 183.11;
            cement := Some 412.73;
            fineAgg := Some 694.57;
            coarseAgg := Some 1106.38;
            checks := {| isWcOk := true;
                         isCementOk := true;
                         isGradeOk := true;
                         limits := OExposure mild |} |}.
Proof. intros StringToNumber. vm_compute. reflexivity. Qed.

(** C4 (the code departs from it): the key ["toString"] is none of the five
    known keys, yet [EXPOSURES["toString"]] is the function inherited from
    [Object.prototype], which is truthy, so the fallback to the mild class
    is not taken: the limits are that function, its [maxWc], [minCement] and
    [minGradeFck] are [undefined], and all three flags come out [false],
    where the mild limits give [true] three times. *)
Theorem C4_inherited_key_is_not_mild :
  EXPOSURES_get (Some "toString"%string) = Some (OInherited "toString") /\
  forall StringToNumber,
    computeMixDesign StringToNumber (VNumber 30) (Some "toString"%string) =
    Some {| fckMean := Some 37.76;
            w_c := Some 0.438;
            water := Some 183.11;
            cement := Some 412.73;
            fineAgg := Some 694.57;
            coarseAgg := Some 1106.38;
            checks := {| isWcOk := false;
                         isCementOk := false;
                         isGradeOk := false;
                         limits := OInherited "toString" |} |}.
Proof. split; [reflexivity|]. intros StringToNumber. vm_compute. reflexivity. Qed.

(** ** The regressions as expressions *)

Definition fckMean_expr : expr :=
  Add (Add (Mul (Mul (Const (-0.0035)) Var) Var) (Mul (Const 1.3074) Var)) (Const 1.6883).

Definition water_expr : expr :=
  Add (Sub (Mul (Mul (Const (-0.0107)) Var) Var) (Mul (Const 0.0941) Var)) (Const 195.56).

Definition cement_expr : expr :=
  Add (Add (Mul (Mul (Const (-0.0308)) Var) Var) (Mul (Const 4.7223) Var)) (Const 298.78).

Definition fineAgg_expr : expr :=
  Add (Add (Mul (Mul (Const (-0.1156)) Var) Var) (Mul (Const 10.473) Var)) (Const 484.42).

Definition coarseAgg_expr : expr :=
  Add (Sub (Mul (Mul (Const 0.0335) Var) Var) (Mul (Const 5.2723) Var)) (Const 1234.4).

Lemma feval_regressions (x : float) :
  feval fckMean_expr x = raw_fckMean x /\
  feval wc_expr x = raw_w_c x /\
  feval water_expr x = raw_water x /\
  feval cement_expr x = raw_cement x /\
  feval fineAgg_expr x = raw_fineAgg x /\
  feval coarseAgg_expr x = raw_coarseAgg x.
Proof. repeat split. Qed.

(** ** Validation *)

(** The value [computeMixDesign] returns once validation has passed. *)
Definition result_for (x : float) (exposureKey : option string) : MixDesign :=
  let limits := or_else (EXPOSURES_get exposureKey) (OExposure mild) in
  {| fckMean := round (Some (raw_fckMean x)) 2;
     w_c := round (Some (raw_w_c x)) 3;
     water := round (Some (raw_water x)) 2;
     cement := round (Some (raw_cement x)) 2;
     fineAgg := round (Some (raw_fineAgg x)) 2;
     coarseAgg := round (Some (raw_coarseAgg x)) 2;
     checks := {| isWcOk := raw_w_c x <=? ToNumber (get_maxWc limits);
                  isCementOk := geb (raw_cement x) (ToNumber (get_minCement limits));
                  isGradeOk := geb x (ToNumber (get_minGradeFck limits));
                  limits := limits |} |}.

Lemma computeMixDesign_eq StringToNumber (fck : value) (exposureKey : option string) :
  computeMixDesign StringToNumber fck exposureKey =
  let x := Number StringToNumber fck in
  if falsy x || is_nan x || (x <=? 0) then None else Some (result_for x exposureKey).
Proof. reflexivity. Qed.

(** The guard [!x || Number.isNaN(x) || x <= 0] lets through exactly the
    numbers above zero, [+Infinity] included. *)
Lemma guard_false_iff (x : float) :
  falsy x || is_nan x || (x <=? 0) = false <-> (0 <? x) = true.
Proof.
  split.
  - intros H. apply orb_false_iff in H as [H Hle]. apply orb_false_iff in H as [_ Hnan].
    apply ltb_true_iff. split; [reflexivity|]. split; [exact Hnan|].
    rewrite leb_Fval in Hle by (try reflexivity; assumption).
    apply Z.leb_gt in Hle. exact Hle.
  - intros H. apply ltb_true_iff in H as (_ & Hnan & Hpos).
    assert ((x <=? 0) = false) as Hle.
    { rewrite leb_Fval by (try reflexivity; assumption). apply Z.leb_gt. exact Hpos. }
    unfold falsy, is_zero. rewrite Hnan, Hle.
    destruct (x =? zero) eqn:E; [|reflexivity].
    apply eqb_leb in E. change zero with 0%float in E. congruence.
Qed.

Lemma guard_true_iff (x : float) :
  falsy x || is_nan x || (x <=? 0) = true <-> is_nan x = true \/ (x <=? 0) = true.
Proof.
  unfold falsy, is_zero. split.
  - intros H. destruct (is_nan x); [left; reflexivity|].
    destruct (x <=? 0) eqn:E; [right; reflexivity|].
    destruct (x =? zero) eqn:Z; [|discriminate].
    apply eqb_leb in Z. change zero with 0%float in Z. congruence.
  - intros [H|H]; rewrite H; rewrite ?orb_true_r; reflexivity.
Qed.

Lemma computeMixDesign_accepted StringToNumber fck exposureKey :
  (0 <? Number StringToNumber fck) = true ->
  computeMixDesign StringToNumber fck exposureKey =
  Some (result_for (Number StringToNumber fck) exposureKey).
Proof.
  intros H. rewrite computeMixDesign_eq. cbv zeta.
  apply guard_false_iff in H. rewrite H. reflexivity.
Qed.

(** ** Rounding of one field *)

Lemma Math_pow_10_2 : Math_pow 10 2 = 100.
Proof. reflexivity. Qed.

Lemma Math_pow_10_3 : Math_pow 10 3 = 1000.
Proof. reflexivity. Qed.

Lemma digits_100 : (2 <= Zpos (digits2_pos 7036874417766400) + -46)%Z.
Proof. vm_compute. discriminate. Qed.

Lemma digits_1000 : (2 <= Zpos (digits2_pos 8796093022208000) + -43)%Z.
Proof. vm_compute. discriminate. Qed.

(** The scaling factor of a call [round(v, decimals)] made by the program. *)
Inductive scaling : nat -> float -> Prop :=
| scaling_2 : scaling 2 100
| scaling_3 : scaling 3 1000.

Lemma scaling_pow (d : nat) (f : float) : scaling d f -> Math_pow 10 d = f.
Proof. intros []; reflexivity. Qed.

Lemma div_by_factor (d : nat) (f y : float) :
  scaling d f -> is_nan y = false ->
  is_nan (y / f) = false /\
  (is_finite y = true -> is_finite (y / f) = true) /\
  ((0 <= Fval y)%Z -> (0 <= Fval (y / f))%Z).
Proof.
  intros [] N.
  - exact (div_by_constant y 100 _ _ Prim2SF_100 digits_100 N).
  - exact (div_by_constant y 1000 _ _ Prim2SF_1000 digits_1000 N).
Qed.

Lemma round_Some (v : float) (d : nat) :
  is_nan v = false ->
  round (Some v) d = Some (Math_round (v * Math_pow 10 d) / Math_pow 10 d).
Proof. intros N. unfold round. rewrite N. reflexivity. Qed.

(** A field is finite as soon as interval evaluation bounds the scaled
    regression by finite numbers. *)
Lemma round_finite (e : expr) (d : nat) (f : float) (iv : interval) (x : float) :
  scaling d f -> contains iv x ->
  match ieval (Mul e (Const f)) iv with
  | Some (l, h) => is_finite l && is_finite h
  | None => false
  end = true ->
  exists v, round (Some (feval e x)) d = Some v /\ is_finite v = true.
Proof.
  intros Hs Hx Hc.
  destruct (ieval (Mul e (Const f)) iv) as [[l h]|] eqn:Hi; [|discriminate].
  apply andb_true_iff in Hc as [Fl Fh].
  pose proof (ieval_sound _ _ _ x Hi Hx) as [Hl Hh]. cbn [fst snd feval] in Hl, Hh.
  pose proof (finite_between _ _ _ Fl Fh Hl Hh) as Fy.
  cbn [ieval] in Hi.
  destruct (ieval e iv) as [ia|] eqn:Ha; [|discriminate].
  pose proof (ieval_sound _ _ _ x Ha Hx) as [Hal _].
  apply leb_true_iff in Hal as (_ & Nv & _).
  rewrite round_Some by assumption. rewrite (scaling_pow d f Hs).
  eexists. split; [reflexivity|].
  destruct (Math_round_nearest _ Fy) as (n & Fn & _).
  apply (div_by_factor d f _ Hs); [|exact Fn].
  apply finite_Fval in Fn. tauto.
Qed.

(** ** C2: rejection and finiteness *)

Definition is_finite_field (f : option float) : bool :=
  match f with
  | Some v => is_finite v
  | None => false
  end.

(** All six numeric fields are defined and finite. *)
Definition numeric_fields_finite (r : MixDesign) : bool :=
  forallb is_finite_field
    [fckMean r; w_c r; water r; cement r; fineAgg r; coarseAgg r].

Lemma contains_0_1e153 (x : float) :
  (0 <? x) = true -> (x <=? 1e153) = true -> contains (0, 1e153) x.
Proof.
  intros H0 H1. split; [|exact H1]. cbn [fst].
  apply ltb_true_iff in H0 as (N0 & Nx & H0).
  apply leb_true_iff. repeat split; try assumption. lia.
Qed.

(** C2 (as amended): [computeMixDesign] returns [null], and nothing else,
    exactly when [Number(fck)] is [NaN] (a missing or non-numeric [fck]) or
    is [<= 0]; for every other [fck] it returns a result object, and the six
    numeric fields of that object are defined and finite whenever
    [fck <= 1e153]. *)
Theorem C2_rejection_and_finiteness :
  forall StringToNumber (fck : value) (exposureKey : option string),
    let x := Number StringToNumber fck in
    (computeMixDesign StringToNumber fck exposureKey = None <->
     is_nan x = true \/ (x <=? 0) = true) /\
    ((0 <? x) = true ->
     exists r, computeMixDesign StringToNumber fck exposureKey = Some r /\
               ((x <=? 1e153) = true -> numeric_fields_finite r = true)).
Proof.
  intros StringToNumber fck exposureKey x. split.
  - rewrite computeMixDesign_eq. cbv zeta. fold x.
    rewrite <- guard_true_iff.
    destruct (falsy x || is_nan x || (x <=? 0)); split; congruence.
  - intros Hpos. exists (result_for x exposureKey).
    split; [apply computeMixDesign_accepted; exact Hpos|].
    intros Hle. pose proof (contains_0_1e153 x Hpos Hle) as Hx.
    pose proof (feval_regressions x) as (E1 & E2 & E3 & E4 & E5 & E6).
    unfold numeric_fields_finite, result_for.
    cbn [fckMean w_c water cement fineAgg coarseAgg forallb].
    rewrite <- E1, <- E2, <- E3, <- E4, <- E5, <- E6.
    destruct (round_finite fckMean_expr 2 100 _ x scaling_2 Hx) as (v1 & -> & F1);
      [vm_compute; reflexivity|].
    destruct (round_finite wc_expr 3 1000 _ x scaling_3 Hx) as (v2 & -> & F2);
      [vm_compute; reflexivity|].
    destruct (round_finite water_expr 2 100 _ x scaling_2 Hx) as (v3 & -> & F3);
      [vm_compute; reflexivity|].
    destruct (round_finite cement_expr 2 100 _ x scaling_2 Hx) as (v4 & -> & F4);
      [vm_compute; reflexivity|].
    destruct (round_finite fineAgg_expr 2 100 _ x scaling_2 Hx) as (v5 & -> & F5);
      [vm_compute; reflexivity|].
    destruct (round_finite coarseAgg_expr 2 100 _ x scaling_2 Hx) as (v6 & -> & F6);
      [vm_compute; reflexivity|].
    cbn [is_finite_field]. rewrite F1, F2, F3, F4, F5, F6. reflexivity.
Qed.

(** At [fck = 20] both parts of C2 apply: the call is not rejected and the
    fields are finite. *)
Lemma C2_rejection_and_finiteness_witness :
  (computeMixDesign (fun _ => nan) (VNumber 20) None = None <->
   is_nan 20 = true \/ (20 <=? 0) = true) /\
  exists r, computeMixDesign (fun _ => nan) (VNumber 20) None = Some r /\
            numeric_fields_finite r = true.
Proof.
  destruct (C2_rejection_and_finiteness (fun _ => nan) (VNumber 20) None) as [H1 H2].
  split; [exact H1|].
  destruct (H2 eq_refl) as (r & Hr & Hf).
  exists r. split; [exact Hr | exact (Hf eq_refl)].
Defined.

(** C2 (as stated) fails: [1e200] and [1e308] are finite numbers above zero,
    the call succeeds, and yet fields of the result are infinite or
    [null]. *)
Lemma C2_large_fck_fields_not_finite :
  exists r200 r308,
    (forall StringToNumber,
       computeMixDesign StringToNumber (VNumber 1e200) None = Some r200 /\
       computeMixDesign StringToNumber (VNumber 1e308) None = Some r308) /\
    (0 <? 1e200) = true /\ is_finite 1e200 = true /\
    (0 <? 1e308) = true /\ is_finite 1e308 = true /\
    fckMean r200 = Some neg_infinity /\
    w_c r200 = Some infinity /\
    numeric_fields_finite r200 = false /\
    cement r308 = None /\
    numeric_fields_finite r308 = false.
Proof.
  eexists. eexists. split.
  - intros StringToNumber. split; vm_compute; reflexivity.
  - repeat split; vm_compute; reflexivity.
Qed.

(** ** C3: the rounding policy *)

(** [Fval y] is the exact value of [y] in units of 2^-[Kexp], so
    [nearest_ties_up y n] reads [n - 1/2 <= y < n + 1/2]: [n] is the integer
    nearest to [y], a tie going to the integer above. *)
Definition nearest_ties_up (y : float) (n : Z) : Prop :=
  ((2 * n - 1) * 2 ^ Kexp <= 2 * Fval y < (2 * n + 1) * 2 ^ Kexp)%Z.

(** Following the specification's words: [n] is the integer nearest to [y], a
    tie going to the integer farther from zero. *)
Definition nearest_ties_away (y : float) (n : Z) : Prop :=
  if (0 <=? Fval y)%Z
  then ((2 * n - 1) * 2 ^ Kexp <= 2 * Fval y < (2 * n + 1) * 2 ^ Kexp)%Z
  else ((2 * n - 1) * 2 ^ Kexp < 2 * Fval y <= (2 * n + 1) * 2 ^ Kexp)%Z.

(** [y] lies below zero, exactly half way between [n - 1] and [n]. *)
Definition negative_tie (y : float) (n : Z) : Prop :=
  (Fval y < 0 /\ 2 * Fval y = (2 * n - 1) * 2 ^ Kexp)%Z.

(** What [round(v, decimals)] emits, [factor] being [10^decimals]. *)
Definition rounded (factor v : float) (field : option float) : Prop :=
  if is_nan v then field = None
  else
    field = Some (Math_round (v * factor) / factor) /\
    (is_finite (v * factor) = true ->
     exists n : Z,
       is_finite (Math_round (v * factor)) = true /\
       Fval (Math_round (v * factor)) = (n * 2 ^ Kexp)%Z /\
       nearest_ties_up (v * factor) n /\
       (nearest_ties_away (v * factor) n \/ negative_tie (v * factor) n)).

Lemma round_rounded (d : nat) (f v : float) :
  scaling d f -> rounded f v (round (Some v) d).
Proof.
  intros Hs. unfold rounded, round. rewrite (scaling_pow d f Hs).
  destruct (is_nan v); [reflexivity|]. split; [reflexivity|].
  intros F. destruct (Math_round_nearest _ F) as (n & Fn & Un & Hn).
  exists n. repeat split; try assumption; try apply Hn.
  unfold nearest_ties_away, negative_tie.
  destruct (Z.leb_spec 0 (Fval (v * f))) as [Hpos|Hneg]; [left; exact Hn|].
  destruct (Z.eq_dec (2 * Fval (v * f)) ((2 * n - 1) * 2 ^ Kexp)) as [E|NE].
  - right. split; assumption.
  - left. lia.
Qed.

(** The specification's policy, for comparison: the same scaling with
    round-half-away-from-zero, [sign(v) · floor(|v| + 1/2)]. *)
Definition round_half_away (s : bool) (m : positive) (e : Z) : Z :=
  cond_Zopp s ((2 * Zpos m + 2 ^ (- e)) / 2 ^ (1 - e))%Z.

Definition Math_round_half_away (x : float) : float :=
  match Prim2SF x with
  | S754_finite s m e =>
      if (0 <=? e)%Z then x
      else SF2Prim (binary_normalize prec emax (round_half_away s m e) 0 s)
  | _ => x
  end.

Definition round_half_away_from_zero (value : option float) (decimals : nat)
  : option float :=
  match value with
  | None => None
  | Some v =>
      if is_nan v then None
      else
        let factor := Math_pow 10 decimals in
        Some (Math_round_half_away (v * factor) / factor)
  end.

(** C3 (as amended): every numeric output is [Math.round(v·10^d) / 10^d] with
    [d = 3] for [waterCementRatio] and [d = 2] for the other five; when the
    scaled value is finite, [Math.round] gives the nearest integer [n], a tie
    going toward +∞, which is round-half-away-from-zero except at a tie below
    zero; the emitted number is then the quotient of that integer by
    [10^d]; a [NaN] value is emitted as [null]. *)
Theorem C3_rounding_policy :
  forall StringToNumber (fck : value) (exposureKey : option string),
    let x := Number StringToNumber fck in
    match computeMixDesign StringToNumber fck exposureKey with
    | Some r =>
        rounded 100 (raw_fckMean x) (fckMean r) /\
        rounded 1000 (raw_w_c x) (w_c r) /\
        rounded 100 (raw_water x) (water r) /\
        rounded 100 (raw_cement x) (cement r) /\
        rounded 100 (raw_fineAgg x) (fineAgg r) /\
        rounded 100 (raw_coarseAgg x) (coarseAgg r)
    | None => True
    end.
Proof.
  intros StringToNumber fck exposureKey x.
  rewrite computeMixDesign_eq. cbv zeta. fold x.
  destruct (falsy x || is_nan x || (x <=? 0)); [exact I|].
  unfold result_for. cbn [fckMean w_c water cement fineAgg coarseAgg].
  repeat split;
    first [ apply (round_rounded 2 100), scaling_2
          | apply (round_rounded 3 1000), scaling_3 ].
Qed.

(** C3 (as stated) fails on a tie below zero: for [fck = 205] the fine
    aggregate regression times 100 is exactly [-222670.5]; [Math.round] takes
    it to [-222670], so the code emits [-2226.7], where
    round-half-away-from-zero gives [-222671] and [-2226.71]. *)
Lemma C3_tie_below_zero_rounds_up :
  exists r,
    (forall StringToNumber,
       computeMixDesign StringToNumber (VNumber 205) None = Some r) /\
    raw_fineAgg 205 * 100 = -222670.5 /\
    Math_round (-222670.5) = -222670 /\
    Math_round_half_away (-222670.5) = -222671 /\
    fineAgg r = Some (-2226.7) /\
    round_half_away_from_zero (Some (raw_fineAgg 205)) 2 = Some (-2226.71) /\
    fineAgg r <> round_half_away_from_zero (Some (raw_fineAgg 205)) 2.
Proof.
  eexists. split; [intros StringToNumber; vm_compute; reflexivity|].
  repeat split; try (vm_compute; reflexivity).
  cbn [fineAgg].
  replace (round_half_away_from_zero (Some (raw_fineAgg 205)) 2)
    with (Some (-2226.71)) by (vm_compute; reflexivity).
  apply Some_float_neq; vm_compute; reflexivity.
Qed.

(** ** C5: the regression family *)

Lemma binary_round_aux_opp (s : bool) (m e : Z) (l : location) :
  SFopp (binary_round_aux prec emax s m e l) = binary_round_aux prec emax (negb s) m e l.
Proof.
  unfold binary_round_aux.
  destruct (shr_fexp prec emax m e l) as [mrs' e'].
  destruct (shr_fexp prec emax _ e' loc_Exact) as [mrs'' e''].
  destruct (shr_m mrs''); try reflexivity.
  destruct (e'' <=? emax - prec)%Z; reflexivity.
Qed.

Lemma SFmul_opp_l (c x : spec_float) :
  SFmul prec emax (SFopp c) x = SFopp (SFmul prec emax c x).
Proof.
  destruct c as [sc|sc| |sc mc ec], x as [sx|sx| |sx mx ex]; cbn [SFmul SFopp];
    try reflexivity; try (destruct sc, sx; reflexivity).
  rewrite binary_round_aux_opp. destruct sc, sx; reflexivity.
Qed.

(** [(-c) * x] and [-(c * x)] are the same number. *)
Lemma mul_opp_l (c x : float) : (- c) * x = - (c * x).
Proof.
  apply Prim2SF_inj.
  rewrite opp_spec, !mul_spec, opp_spec. apply SFmul_opp_l.
Qed.

(** [a - b] and [a + (-b)] are the same number. *)
Lemma sub_add_opp (a b : float) : a - b = a + (- b).
Proof.
  apply Prim2SF_inj.
  rewrite sub_spec, add_spec, opp_spec. apply SFsub_add_opp.
Qed.

(** Following the specification: the quadratic [a·x² + b·x + c], evaluated in
    binary64 from left to right. *)
Definition quadratic (a b c x : float) : float := a * x * x + b * x + c.

Lemma quadratic_sub (a b c x : float) :
  a * x * x - b * x + c = quadratic a (- b) c x.
Proof. unfold quadratic. rewrite sub_add_opp, <- mul_opp_l. reflexivity. Qed.

(** The order of evaluation is part of the value: at [x = 35] the source's
    [(a·x)·x] and the product [a·(x·x)] differ in the last place. *)
Lemma quadratic_evaluation_order :
  (-0.0035 * 35 * 35 =? -0.0035 * (35 * 35)) = false.
Proof. reflexivity. Qed.

(** C5: for every [fck] that validation accepts a result is produced, and
    each of its six numeric outputs is the rounding of the quadratic
    [a·x² + b·x + c] in [x = Number(fck)] with the coefficients of the
    specification's table; the two flags computed from unrounded outputs
    compare these quadratics themselves. *)
Theorem C5_quadratic_regressions :
  forall StringToNumber (fck : value) (exposureKey : option string),
    let x := Number StringToNumber fck in
    (0 <? x) = true ->
    exists r,
      computeMixDesign StringToNumber fck exposureKey = Some r /\
      fckMean r = round (Some (quadratic (-0.0035) 1.3074 1.6883 x)) 2 /\
      w_c r = round (Some (quadratic 0.000009 (-0.0044) 0.5617 x)) 3 /\
      water r = round (Some (quadratic (-0.0107) (-0.0941) 195.56 x)) 2 /\
      cement r = round (Some (quadratic (-0.0308) 4.7223 298.78 x)) 2 /\
      fineAgg r = round (Some (quadratic (-0.1156) 10.473 484.42 x)) 2 /\
      coarseAgg r = round (Some (quadratic 0.0335 (-5.2723) 1234.4 x)) 2 /\
      isWcOk (checks r) =
        (quadratic 0.000009 (-0.0044) 0.5617 x
         <=? ToNumber (get_maxWc (limits (checks r)))) /\
      isCementOk (checks r) =
        geb (quadratic (-0.0308) 4.7223 298.78 x)
            (ToNumber (get_minCement (limits (checks r)))).
Proof.
  intros StringToNumber fck exposureKey x Hx.
  assert (raw_fckMean x = quadratic (-0.0035) 1.3074 1.6883 x /\
          raw_w_c x = quadratic 0.000009 (-0.0044) 0.5617 x /\
          raw_water x = quadratic (-0.0107) (-0.0941) 195.56 x /\
          raw_cement x = quadratic (-0.0308) 4.7223 298.78 x /\
          raw_fineAgg x = quadratic (-0.1156) 10.473 484.42 x /\
          raw_coarseAgg x = quadratic 0.0335 (-5.2723) 1234.4 x)
    as (E1 & E2 & E3 & E4 & E5 & E6).
  { repeat split; try reflexivity.
    - exact (quadratic_sub 9e-06 0.0044 0.5617 x).
    - exact (quadratic_sub (-0.0107) 0.0941 195.56 x).
    - exact (quadratic_sub 0.0335 5.2723 1234.4 x). }
  exists (result_for x exposureKey).
  split; [exact (computeMixDesign_accepted StringToNumber fck exposureKey Hx)|].
  unfold result_for.
  cbn [fckMean w_c water cement fineAgg coarseAgg checks isWcOk isCementOk limits].
  rewrite <- E1, <- E2, <- E3, <- E4, <- E5, <- E6. repeat split.
Qed.

(** At [fck = 20] the result exists and carries the rounded quadratics:
    [-0.0035·400 + 1.3074·20 + 1.6883 = 26.4363], emitted as [26.44]. *)
Lemma C5_quadratic_regressions_witness :
  exists r,
    computeMixDesign (fun _ => nan) (VNumber 20) None = Some r /\
    fckMean r = Some 26.44 /\ w_c r = Some 0.477 /\ water r = Some 189.4 /\
    cement r = Some 380.91 /\ fineAgg r = Some 647.64 /\
    coarseAgg r = Some 1142.35.
Proof.
  destruct (C5_quadratic_regressions (fun _ => nan) (VNumber 20) None eq_refl)
    as (r & Hr & H1 & H2 & H3 & H4 & H5 & H6 & _).
  exists r. split; [exact Hr|].
  rewrite H1, H2, H3, H4, H5, H6. repeat split; vm_compute; reflexivity.
Defined.

(** ** C6 and C7: the compliance flags *)

Lemma leb_nan_r (a : float) : (a <=? nan) = false.
Proof.
  destruct (a <=? nan) eqn:E; [|reflexivity].
  apply leb_true_iff in E as (_ & N & _). discriminate N.
Qed.

Lemma leb_nan_l (a : float) : (nan <=? a) = false.
Proof.
  destruct (nan <=? a) eqn:E; [|reflexivity].
  apply leb_true_iff in E as (N & _). discriminate N.
Qed.

(** C6 (the code departs from it): on every successful computation the
    limits are what the key resolves to; when that is an exposure class,
    each flag is its own comparison against the limits of the class
    ([waterCementRatio <= maxWc], [cementContent >= minCement],
    [fck >= minGradeFck]); when the key names a property inherited from
    [Object.prototype], the limits are [undefined] and all three flags are
    [false]: so for [fck = 30] and key ["toString"] the flags are [false]
    three times, although the ratio and the grade meet the mild limits and
    the cement content meets the minimum of every one of the five classes.  The flags never reject a computation: whether a
    result is returned depends on [fck] alone. *)
Theorem C6_compliance_flags :
  (forall StringToNumber (fck : value) (exposureKey : option string),
     let x := Number StringToNumber fck in
     match computeMixDesign StringToNumber fck exposureKey with
     | Some r =>
         limits (checks r) = resolve exposureKey /\
         match limits (checks r) with
         | OExposure e =>
             isWcOk (checks r) = (raw_w_c x <=? maxWc e) /\
             isCementOk (checks r) = (minCement e <=? raw_cement x) /\
             isGradeOk (checks r) = (minGradeFck e <=? x)
         | OInherited _ =>
             isWcOk (checks r) = false /\
             isCementOk (checks r) = false /\
             isGradeOk (checks r) = false
         end /\
         (forall exposureKey',
            exists r', computeMixDesign StringToNumber fck exposureKey' = Some r')
     | None =>
         forall exposureKey', computeMixDesign StringToNumber fck exposureKey' = None
     end) /\
  (exists r,
     (forall StringToNumber,
        computeMixDesign StringToNumber (VNumber 30) (Some "toString"%string) = Some r) /\
     isWcOk (checks r) = false /\
     isCementOk (checks r) = false /\
     isGradeOk (checks r) = false /\
     (raw_w_c 30 <=? maxWc mild) = true /\
     (minGradeFck mild <=? 30) = true /\
     forall name e, In (name, e) EXPOSURES ->
       (minCement e <=? raw_cement 30) = true).
Proof.
  split.
  - intros StringToNumber fck exposureKey x.
    rewrite computeMixDesign_eq. cbv zeta. fold x.
    destruct (falsy x || is_nan x || (x <=? 0)) eqn:G.
    + intros exposureKey'. rewrite computeMixDesign_eq. cbv zeta. fold x.
      rewrite G. reflexivity.
    + unfold result_for. cbn [checks limits isWcOk isCementOk isGradeOk].
      fold (resolve exposureKey).
      split; [reflexivity|]. split.
      * destruct (resolve exposureKey) as [e|n];
          cbn [get_maxWc get_minCement get_minGradeFck ToNumber]; unfold geb.
        -- repeat split.
        -- rewrite !leb_nan_r, !leb_nan_l. repeat split.
      * intros exposureKey'. rewrite computeMixDesign_eq. cbv zeta. fold x.
        rewrite G. eexists. reflexivity.
  - eexists. split; [intros StringToNumber; vm_compute; reflexivity|].
    split; [reflexivity|]. split; [reflexivity|]. split; [reflexivity|].
    split; [reflexivity|]. split; [reflexivity|].
    intros name e Hin. unfold EXPOSURES in Hin. cbn [In] in Hin.
    destruct Hin as [H|[H|[H|[H|[H|[]]]]]];
      assert (e = snd (name, e)) as -> by reflexivity; rewrite <- H;
      vm_compute; reflexivity.
Qed.

(** C7: the comparisons behind [isWcOk] and [isCementOk] take the unrounded
    regressions, and this is observable: for [fck = 14.4] under "moderate"
    the emitted ratio [0.5] meets the limit [0.5] while the flag is [false]
    (the unrounded ratio is above the limit), and for [fck = 0.2587] under
    "mild" the emitted cement content [300] meets the minimum [300] while
    the flag is [false]. *)
Theorem C7_flags_use_unrounded_values :
  (forall StringToNumber (fck : value) (exposureKey : option string),
     let x := Number StringToNumber fck in
     match computeMixDesign StringToNumber fck exposureKey with
     | Some r =>
         isWcOk (checks r) = (raw_w_c x <=? ToNumber (get_maxWc (resolve exposureKey))) /\
         isCementOk (checks r) =
           geb (raw_cement x) (ToNumber (get_minCement (resolve exposureKey))) /\
         w_c r = round (Some (raw_w_c x)) 3 /\
         cement r = round (Some (raw_cement x)) 2
     | None => True
     end) /\
  (exists r,
     (forall StringToNumber,
        computeMixDesign StringToNumber (VNumber 14.4) (Some "moderate"%string) = Some r) /\
     w_c r = Some 0.5 /\ (0.5 <=? maxWc moderate) = true /\
     isWcOk (checks r) = false) /\
  (exists r,
     (forall StringToNumber,
        computeMixDesign StringToNumber (VNumber 0.2587) (Some "mild"%string) = Some r) /\
     cement r = Some 300 /\ geb 300 (minCement mild) = true /\
     isCementOk (checks r) = false).
Proof.
  split; [|split].
  - intros StringToNumber fck exposureKey x.
    rewrite computeMixDesign_eq. cbv zeta. fold x.
    destruct (falsy x || is_nan x || (x <=? 0)); [exact I|].
    repeat split.
  - eexists. split; [intros StringToNumber; vm_compute; reflexivity|].
    repeat split.
  - eexists. split; [intros StringToNumber; vm_compute; reflexivity|].
    repeat split.
Qed.

(** ** C8: the state [computeMixDesign] reads *)





















(** ** C9: the water-cement ratio is positive *)

Lemma Prim2SF_max_float :
  Prim2SF max_float = S754_finite false 9007199254740991 971.
Proof. reflexivity. Qed.

(** Every finite number is at most the largest finite number. *)
Lemma finite_le_max_float (x : float) :
  is_finite x = true -> (x <=? max_float) = true.
Proof.
  intros F. apply leb_true_iff.
  pose proof (finite_Fval x F) as [N _].
  split; [exact N|]. split; [reflexivity|].
  rewrite is_finite_Prim in F. pose proof (Prim2SF_valid x) as V.
  unfold Fval. rewrite Prim2SF_max_float.
  assert (bounded prec emax 9007199254740991 971 = true) as Bmax by reflexivity.
  pose proof (finite_lt_TOP _ _ Bmax) as Hmax.
  destruct (Prim2SF x) as [s|s| |s m e]; try discriminate.
  cbn [SFval cond_Zopp]. cbn [valid_binary] in V.
  pose proof (finite_lt_TOP m e V) as Hx.
  destruct s; cbn [cond_Zopp]; [lia|].
  pose proof (bounded_spec m e V) as (He & Hd & _ & _).
  destruct (Z.eq_dec e 971) as [->|Hne].
  - apply Z.mul_le_mono_nonneg_r; [apply Z.pow_nonneg; lia|].
    pose proof (digits_bounds m) as [_ Hhi].
    assert (2 ^ Zpos (digits2_pos m) <= 2 ^ 53)%Z by (apply Z.pow_le_mono_r; lia).
    change (2 ^ 53)%Z with 9007199254740992%Z in *. lia.
  - apply Z.lt_le_incl. apply finite_lt_by_exponent; try assumption. lia.
Qed.

Lemma last_wc_breaks : last wc_breaks 0 = max_float.
Proof. vm_compute. reflexivity. Qed.

(** The regression of the water-cement ratio is above zero at every finite
    [x > 0]: the breakpoints [wc_breaks] cut the range from [0] to the
    largest finite number into 153 intervals, and on each of them interval
    evaluation in binary64 gives a lower bound above zero. *)
Lemma raw_w_c_positive (x : float) :
  is_finite x = true -> (0 <? x) = true -> (0 <? raw_w_c x) = true.
Proof.
  intros F Hpos.
  assert ((0 <=? x) = true) as Hlo.
  { apply ltb_true_iff in Hpos as (N0 & Nx & Hpos).
    apply leb_true_iff. repeat split; try assumption. lia. }
  destruct (check_cover_sound wc_expr lower_positive wc_breaks 0 x) as (r & Hok & Hl & _).
  - discriminate.
  - exact wc_cover.
  - exact Hlo.
  - rewrite last_wc_breaks. apply finite_le_max_float. exact F.
  - unfold lower_positive in Hok.
    apply ltb_true_iff in Hok as (N0 & _ & Hok).
    apply leb_true_iff in Hl as (_ & Nw & Hl).
    change (feval wc_expr x) with (raw_w_c x) in *.
    apply ltb_true_iff. repeat split; try assumption. lia.
Qed.

(** The emitted ratio of a positive regression value is never negative. *)
Lemma round_of_positive (v : float) :
  (0 <? v) = true -> exists w, round (Some v) 3 = Some w /\ (0 <=? w) = true.
Proof.
  intros Hv. apply ltb_true_iff in Hv as (N0 & Nv & Hv).
  rewrite round_Some by assumption. rewrite Math_pow_10_3.
  eexists. split; [reflexivity|].
  destruct (mul_pos_nonneg v 1000 Nv eq_refl Hv) as [Ny Hy]; [vm_compute; reflexivity|].
  destruct (Math_round_nonneg _ Ny Hy) as [Nr Hr].
  destruct (div_by_factor 3 1000 _ scaling_3 Nr) as (Nq & _ & Hq).
  apply leb_true_iff. repeat split; try assumption.
  specialize (Hq Hr). exact Hq.
Qed.

(** C9 (as amended): for every finite [fck] that validation accepts, the
    unrounded water-cement ratio, computed in binary64, is above zero, and
    the emitted ratio is a number that is not negative. *)
Theorem C9_water_cement_ratio_positive :
  forall StringToNumber (fck : value) (exposureKey : option string) (r : MixDesign),
    computeMixDesign StringToNumber fck exposureKey = Some r ->
    is_finite (Number StringToNumber fck) = true ->
    (0 <? raw_w_c (Number StringToNumber fck)) = true /\
    exists w, w_c r = Some w /\ (0 <=? w) = true.
Proof.
  intros StringToNumber fck exposureKey r Hr F.
  rewrite computeMixDesign_eq in Hr. cbv zeta in Hr.
  set (x := Number StringToNumber fck) in *.
  destruct (falsy x || is_nan x || (x <=? 0)) eqn:G; [discriminate|].
  apply guard_false_iff in G.
  assert (r = result_for x exposureKey) as -> by congruence.
  pose proof (raw_w_c_positive x F G) as Hw.
  split; [exact Hw|]. cbn [result_for w_c]. apply round_of_positive. exact Hw.
Qed.

(** At [fck = 20]: the ratio [0.4773] is above zero and [0.477] is emitted. *)
Lemma C9_water_cement_ratio_positive_witness :
  (0 <? raw_w_c 20) = true /\
  exists w, round (Some (raw_w_c 20)) 3 = Some w /\ (0 <=? w) = true.
Proof.
  exact (C9_water_cement_ratio_positive (fun _ => nan) (VNumber 20) None
           (result_for 20 None) eq_refl eq_refl).
Defined.

(** C9 (as stated) fails at [fck = Infinity], which validation accepts: the
    regression is [∞ - ∞], that is [NaN], which is not above zero, and the
    emitted ratio is [null]. *)
Lemma C9_infinity_is_accepted_and_not_positive :
  exists r,
    (forall StringToNumber,
       computeMixDesign StringToNumber (VNumber infinity) None = Some r) /\
    is_nan infinity = false /\ (0 <? infinity) = true /\
    is_nan (raw_w_c infinity) = true /\
    (0 <? raw_w_c infinity) = false /\
    w_c r = None.
Proof.
  eexists. split; [intros StringToNumber; vm_compute; reflexivity|].
  repeat split.
Qed.

(** The real quadratic itself has no real root: with [x = p/q],
    [0.000009·x² - 0.0044·x + 0.5617 > 0] reads
    [9·p² - 4400·p·q + 561700·q² > 0]. *)
Lemma w_c_quadratic_has_no_root (p q : Z) :
  (0 < q -> 0 < 9 * p * p - 4400 * p * q + 561700 * q * q)%Z.
Proof.
  intros Hq.
  assert (0 <= (9 * p - 2200 * q) * (9 * p - 2200 * q))%Z by apply Z.square_nonneg.
  assert (0 < q * q)%Z by nia.
  nia.
Qed.

(** ** C10: [fck = Infinity] *)

(** C10 (as amended): for [fck = Infinity] a result object is returned in
    which [targetMeanStrength], [waterCementRatio], [cementContent],
    [fineAggregate] and [coarseAggregate] are [null] and [waterContent] is
    [-Infinity]; [isWcOk] and [isCementOk] are [false], and [isGradeOk] is
    [true] whenever the limits are one of the five classes ([false] only
    when the key names an inherited property). *)
Theorem C10_infinity :
  forall StringToNumber (exposureKey : option string),
    exists r,
      computeMixDesign StringToNumber (VNumber infinity) exposureKey = Some r /\
      fckMean r = None /\ w_c r = None /\ water r = Some neg_infinity /\
      cement r = None /\ fineAgg r = None /\ coarseAgg r = None /\
      isWcOk (checks r) = false /\
      isCementOk (checks r) = false /\
      isGradeOk (checks r) =
        match limits (checks r) with
        | OExposure _ => true
        | OInherited _ => false
        end.
Proof.
  intros StringToNumber exposureKey.
  exists (result_for infinity exposureKey).
  split; [reflexivity|].
  unfold result_for. cbn [fckMean w_c water cement fineAgg coarseAgg checks
                           isWcOk isCementOk isGradeOk limits].
  do 6 (split; [vm_compute; reflexivity|]).
  fold (resolve exposureKey).
  destruct (resolve_cases exposureKey) as [(e & -> & He)|(n & ->)].
  - destruct He as [-> | [-> | [-> | [-> | ->]]]]; repeat split.
  - repeat split.
Qed.

(** C10 (as stated) fails: with the mild limits [isGradeOk] is [true],
    since [Infinity >= 20]. *)
Lemma C10_grade_flag_is_true :
  exists r,
    (forall StringToNumber,
       computeMixDesign StringToNumber (VNumber infinity) (Some "mild"%string) = Some r) /\
    limits (checks r) = OExposure mild /\
    isGradeOk (checks r) = true.
Proof.
  eexists. split; [intros StringToNumber; vm_compute; reflexivity|].
  repeat split.
Qed.

(** * The request handlers *)

(** ** [POST /api/mix-design]: responses and the store *)

(** A request passes both checks of the handler: [fck] is truthy and
    [Number(fck)] is above zero. *)
Definition accepted (StringToNumber : string -> float) (body : Body) : bool :=
  truthy (body_fck body) && (0 <? Number StringToNumber (body_fck body)).

(** The run an accepted request records in a store whose counter is [id]. *)
Definition recorded_run (StringToNumber : string -> float)
  (timestamp today : string) (body : Body) (id : Z) : Run :=
  {| run_id := id;
     run_timestamp := timestamp;
     run_project :=
       {| projectName := value_or (body_projectName body) (VString "");
          projectSite := value_or (body_projectSite body) (VString "");
          mixId :=
            value_or (body_mixId body)
              (VString ("MIX-" ++ padStart3 (String_of_Z id)));
          castingDate :=
            value_or (body_castingDate body) (VString (substring 0 10 today)) |};
     run_input :=
       {| input_fck := Number StringToNumber (body_fck body);
          input_cementGrade := value_or (body_cementGrade body) VNull;
          input_exposure := get_key (resolve (body_exposure body)) |};
     run_result :=
       result_for (Number StringToNumber (body_fck body)) (body_exposure body) |}.

Lemma post_mix_design_accepted StringToNumber timestamp today body st :
  accepted StringToNumber body = true ->
  post_mix_design StringToNumber timestamp today body st =
  (Ok (recorded_run StringToNumber timestamp today body (NEXT_ID st)),
   {| RUNS := RUNS st ++
              [recorded_run StringToNumber timestamp today body (NEXT_ID st)];
      NEXT_ID := (NEXT_ID st + 1)%Z |}).
Proof.
  unfold accepted. intros H. apply andb_true_iff in H as [Ht Hx].
  unfold post_mix_design. rewrite Ht. cbn [negb].
  rewrite (computeMixDesign_accepted _ _ _ Hx). cbv zeta.
  unfold recorded_run, resolve.
  replace (NEXT_ID st + 1 - 1)%Z with (NEXT_ID st) by lia. reflexivity.
Qed.

Lemma post_mix_design_rejected StringToNumber timestamp today body st :
  accepted StringToNumber body = false ->
  post_mix_design StringToNumber timestamp today body st =
  (BadRequest (if truthy (body_fck body)
               then "Invalid fck value" else "fck is required"), st).
Proof.
  unfold accepted, post_mix_design. intros H.
  destruct (truthy (body_fck body)); [|reflexivity]. cbn [negb andb] in *.
  rewrite computeMixDesign_eq. cbv zeta.
  destruct (falsy _ || is_nan _ || (_ <=? 0)) eqn:G; [reflexivity|].
  apply guard_false_iff in G. congruence.
Qed.

(** ** The store over a sequence of requests *)


Lemma serve_app StringToNumber requests1 requests2 st :
  serve StringToNumber (requests1 ++ requests2) st =
  serve StringToNumber requests2 (serve StringToNumber requests1 st).
Proof. unfold serve. apply fold_left_app. Qed.





(** ** What a run records about its input *)

(** Each entry of the table carries its own property name in [key], so it is
    found again under that key. *)
Lemma resolve_key (e : ExposureClass) :
  e = mild \/ e = moderate \/ e = severe \/ e = verySevere \/ e = extreme ->
  resolve (Some (key e)) = OExposure e.
Proof. intros [-> | [-> | [-> | [-> | ->]]]]; reflexivity. Qed.

Lemma result_for_resolve (x : float) (k1 k2 : option string) :
  resolve k1 = resolve k2 -> result_for x k1 = result_for x k2.
Proof. unfold resolve, result_for. intros ->. reflexivity. Qed.






(** ** Default mix identifiers *)





(** ** [GET /api/mix-design/runs]: the listing *)

(** A finite number is a whole multiple of the smallest positive one. *)
Lemma SFval_multiple (x : spec_float) :
  valid_binary x = true -> is_finite_SF x = true ->
  exists k : Z, SFval x = (k * 2 ^ (Kexp - 1074))%Z.
Proof.
  intros V F. destruct x as [s|s| |s m e]; try discriminate.
  - exists 0%Z. reflexivity.
  - cbn [valid_binary] in V. apply bounded_spec in V as (He & _).
    exists (cond_Zopp s (Zpos m * 2 ^ (e + 1074)))%Z. cbn [SFval].
    replace (e + Kexp)%Z with ((e + 1074) + (Kexp - 1074))%Z by lia.
    rewrite Z.pow_add_r by (unfold Kexp; lia).
    destruct s; cbn [cond_Zopp]; ring.
Qed.

(** Rounding a difference of two finite numbers keeps its sign. *)
Lemma RNs_pos_multiple (k : Z) :
  (0 <? RNs (k * 2 ^ (Kexp - 1074)))%Z = (0 <? k)%Z.
Proof.
  pose proof (pow2_pos (Kexp - 1074) ltac:(unfold Kexp; lia)) as Hu.
  assert (RNs (2 ^ (Kexp - 1074)) = 2 ^ (Kexp - 1074))%Z as Hid.
  { pose proof (RN_id 1 (-1074) eq_refl) as H.
    replace (-1074 + Kexp)%Z with (Kexp - 1074)%Z in H by lia.
    rewrite Z.mul_1_l in H. unfold RNs.
    destruct (Z.ltb_spec (2 ^ (Kexp - 1074)) 0); [lia | exact H]. }
  destruct (Z.ltb_spec 0 k) as [Hk|Hk].
  - apply Z.ltb_lt.
    pose proof (RNs_mono (2 ^ (Kexp - 1074)) (k * 2 ^ (Kexp - 1074)) ltac:(nia)).
    lia.
  - apply Z.ltb_ge.
    pose proof (RNs_mono (k * 2 ^ (Kexp - 1074)) 0 ltac:(nia)) as H.
    change (RNs 0) with 0%Z in H. exact H.
Qed.

Lemma is_finite_SFopp (y : spec_float) : is_finite_SF (SFopp y) = is_finite_SF y.
Proof. destruct y; reflexivity. Qed.

(** [b - a > 0] says the same as [a < b], for all numbers: a difference of
    distinct finite numbers never rounds to zero, and a [NaN] makes both
    sides [false]. *)
Lemma sub_pos_ltb (a b : float) : (0 <? b - a) = (a <? b).
Proof.
  destruct (is_finite a && is_finite b) eqn:F.
  - apply andb_true_iff in F as [Fa Fb].
    pose proof (finite_Fval a Fa) as [Na _]. pose proof (finite_Fval b Fb) as [Nb _].
    rewrite is_finite_Prim in Fa, Fb.
    pose proof (Prim2SF_valid a) as Va. pose proof (Prim2SF_valid b) as Vb.
    destruct (SFadd_value (Prim2SF b) (SFopp (Prim2SF a))) as [Nd Vd];
      try assumption; try (rewrite valid_SFopp; assumption);
      try (rewrite is_finite_SFopp; assumption).
    rewrite <- SFsub_add_opp, <- sub_spec in Nd, Vd.
    rewrite <- is_nan_Prim in Nd. rewrite SFval_SFopp in Vd.
    rewrite (ltb_Fval 0 (b - a) eq_refl Nd), (ltb_Fval a b Na Nb).
    unfold Fval at 2. rewrite Vd, Fval_zero.
    destruct (SFval_multiple _ Va Fa) as [ka Ha].
    destruct (SFval_multiple _ Vb Fb) as [kb Hb].
    unfold Fval. rewrite Ha, Hb.
    replace (kb * 2 ^ (Kexp - 1074) + - (ka * 2 ^ (Kexp - 1074)))%Z
      with ((kb - ka) * 2 ^ (Kexp - 1074))%Z by ring.
    rewrite RNs_pos_multiple.
    pose proof (pow2_pos (Kexp - 1074) ltac:(unfold Kexp; lia)) as Hu.
    destruct (Z.ltb_spec 0 (kb - ka)), (Z.ltb_spec (ka * 2 ^ (Kexp - 1074))
                                           (kb * 2 ^ (Kexp - 1074))); try reflexivity; nia.
  - rewrite !is_finite_Prim in F.
    rewrite !FloatAxioms.ltb_spec, sub_spec. unfold SFltb.
    destruct (Prim2SF a) as [sa|sa| |sa ma ea], (Prim2SF b) as [sb|sb| |sb mb eb];
      try discriminate; try reflexivity;
      try (destruct sa; reflexivity); try (destruct sb; reflexivity);
      destruct sa, sb; reflexivity.
Qed.

Lemma Forall_Permutation {A : Type} (P : A -> Prop) (l l' : list A) :
  Permutation l l' -> Forall P l -> Forall P l'.
Proof. intros H HF. eapply Permutation_Forall; eassumption. Qed.

Section SortFacts.

Context {A : Type}.
Variable comparefn : A -> A -> float.

Lemma sort_insert_Permutation (x : A) (l : list A) :
  Permutation (sort_insert comparefn x l) (x :: l).
Proof.
  induction l as [|y l IH]; cbn [sort_insert]; [reflexivity|].
  destruct (sorts_after comparefn x y); [|reflexivity].
  rewrite IH. apply perm_swap.
Qed.

Lemma Array_sort_Permutation (l : list A) : Permutation (Array_sort comparefn l) l.
Proof.
  induction l as [|x l IH]; [reflexivity|].
  unfold Array_sort in *. cbn [fold_right].
  rewrite sort_insert_Permutation. constructor. exact IH.
Qed.

(** The comparator orders the elements by a key, larger keys first, as long
    as the elements are [ok]. *)
Variable key : A -> Z.
Variable ok : A -> Prop.
Hypothesis comparefn_key :
  forall x y, ok x -> ok y -> sorts_after comparefn x y = (key x <? key y)%Z.

Definition not_before (a b : A) : Prop := (key b <= key a)%Z.

Lemma sort_insert_sorted (x : A) (l : list A) :
  ok x -> Forall ok l -> StronglySorted not_before l ->
  StronglySorted not_before (sort_insert comparefn x l).
Proof.
  intros Hx Hl Hs. induction Hs as [|y l Hs IH Hy]; cbn [sort_insert].
  - constructor; constructor.
  - inversion Hl as [|? ? Hoky Hokl]; subst.
    rewrite (comparefn_key x y Hx Hoky).
    destruct (Z.ltb_spec (key x) (key y)) as [Hlt|Hge].
    + constructor; [apply IH; exact Hokl|].
      apply (Forall_Permutation _ (x :: l)).
      * symmetry. apply sort_insert_Permutation.
      * constructor; [unfold not_before; lia | exact Hy].
    + constructor; [constructor; assumption|].
      constructor; [exact Hge|].
      eapply Forall_impl; [|exact Hy].
      unfold not_before. intros z Hz. lia.
Qed.

Lemma Array_sort_sorted (l : list A) :
  Forall ok l -> StronglySorted not_before (Array_sort comparefn l).
Proof.
  induction l as [|x l IH]; intros Hl; [constructor|].
  inversion Hl as [|? ? Hx Hl']; subst.
  unfold Array_sort in *. cbn [fold_right].
  apply sort_insert_sorted; [exact Hx| |apply IH; exact Hl'].
  apply (Forall_Permutation _ l); [|exact Hl'].
  symmetry. apply Array_sort_Permutation.
Qed.

Lemma sort_insert_last (x : A) (l : list A) :
  ok x -> Forall ok l -> Forall (fun y => (key x < key y)%Z) l ->
  sort_insert comparefn x l = l ++ [x].
Proof.
  intros Hx Hl Hlt. induction l as [|y l IH]; [reflexivity|].
  inversion Hl; subst. inversion Hlt; subst. cbn [sort_insert].
  rewrite comparefn_key by assumption.
  destruct (Z.ltb_spec (key x) (key y)); [|lia].
  cbn [app]. f_equal. apply IH; assumption.
Qed.

Lemma Array_sort_increasing (l : list A) :
  Forall ok l -> StronglySorted (fun a b => (key a < key b)%Z) l ->
  Array_sort comparefn l = rev l.
Proof.
  intros Hl Hs. induction Hs as [|x l Hs IH Hx]; [reflexivity|].
  inversion Hl as [|? ? Hokx Hokl]; subst.
  unfold Array_sort in *. cbn [fold_right rev]. rewrite (IH Hokl).
  apply sort_insert_last; [exact Hokx | |].
  - apply Forall_rev. exact Hokl.
  - apply Forall_rev. exact Hx.
Qed.

Lemma sort_insert_filter (t : Z) (x : A) (l : list A) :
  ok x -> Forall ok l ->
  filter (fun y => (key y =? t)%Z) (sort_insert comparefn x l) =
  filter (fun y => (key y =? t)%Z) (x :: l).
Proof.
  intros Hx Hl. induction l as [|y l IH]; [reflexivity|].
  inversion Hl as [|? ? Hy Hl']; subst. cbn [sort_insert].
  rewrite comparefn_key by assumption.
  destruct (Z.ltb_spec (key x) (key y)) as [Hlt|Hge]; [|reflexivity].
  cbn [filter] in *. rewrite (IH Hl').
  destruct (Z.eqb_spec (key x) t), (Z.eqb_spec (key y) t); try reflexivity. lia.
Qed.

Lemma Array_sort_stable (t : Z) (l : list A) :
  Forall ok l ->
  filter (fun y => (key y =? t)%Z) (Array_sort comparefn l) =
  filter (fun y => (key y =? t)%Z) l.
Proof.
  induction l as [|x l IH]; intros Hl; [reflexivity|].
  inversion Hl as [|? ? Hx Hl']; subst.
  unfold Array_sort in *. cbn [fold_right].
  rewrite sort_insert_filter.
  - cbn [filter]. rewrite (IH Hl'). reflexivity.
  - exact Hx.
  - apply (Forall_Permutation _ l); [|exact Hl'].
    symmetry. apply Array_sort_Permutation.
Qed.

End SortFacts.

(** The stored runs all carry a timestamp that is a date. *)
Definition dated (Date_parse : string -> float) (run : Run) : Prop :=
  is_nan (Date_parse (run_timestamp run)) = false.

Lemma by_timestamp_key (Date_parse : string -> float) (x y : Run) :
  dated Date_parse x -> dated Date_parse y ->
  sorts_after (by_timestamp Date_parse) x y =
  (Fval (Date_parse (run_timestamp x)) <? Fval (Date_parse (run_timestamp y)))%Z.
Proof.
  intros Hx Hy. unfold sorts_after, by_timestamp.
  rewrite sub_pos_ltb. apply ltb_Fval; assumption.
Qed.

(** X7: the listing holds the stored runs, each once, and [count] is their
    number; when every timestamp is a date, the runs are in the order of
    their timestamps, latest first. *)
Theorem get_runs_latest_first :
  forall (Date_parse : string -> float) (st : Store),
    let listing := get_runs Date_parse st in
    Permutation (data listing) (RUNS st) /\
    count listing = length (RUNS st) /\
    (Forall (dated Date_parse) (RUNS st) ->
     StronglySorted
       (fun a b =>
          (Date_parse (run_timestamp b) <=? Date_parse (run_timestamp a)) = true)
       (data listing)).
Proof.
  intros Date_parse st listing. unfold listing, get_runs. cbn [data count].
  pose proof (Array_sort_Permutation (by_timestamp Date_parse) (RUNS st)) as HP.
  split; [exact HP|]. split; [apply Permutation_length; exact HP|].
  intros Hd.
  pose proof (Array_sort_sorted (by_timestamp Date_parse)
                (fun run => Fval (Date_parse (run_timestamp run)))
                (dated Date_parse) (by_timestamp_key Date_parse) (RUNS st) Hd) as Hs.
  assert (Forall (dated Date_parse) (Array_sort (by_timestamp Date_parse) (RUNS st)))
    as Hd' by (apply (Forall_Permutation _ (RUNS st)); [symmetry|]; assumption).
  revert Hs Hd'. generalize (Array_sort (by_timestamp Date_parse) (RUNS st)).
  intros l Hs. induction Hs as [|a l Hs IH Ha]; intros Hd'; constructor.
  - apply IH. inversion Hd'; assumption.
  - inversion Hd' as [|? ? Hda Hdl]; subst.
    rewrite Forall_forall in *. intros b Hb.
    apply leb_true_iff. repeat split; [apply Hdl; exact Hb | exact Hda |].
    apply Ha. exact Hb.
Qed.

(** X8: when the stored runs have strictly increasing timestamps, the listing is
    the store read backwards. *)
Theorem get_runs_reverses_increasing :
  forall (Date_parse : string -> float) (st : Store),
    StronglySorted
      (fun a b =>
         (Date_parse (run_timestamp a) <? Date_parse (run_timestamp b)) = true)
      (RUNS st) ->
    Forall (dated Date_parse) (RUNS st) ->
    data (get_runs Date_parse st) = rev (RUNS st).
Proof.
  intros Date_parse st Hs Hd. unfold get_runs. cbn [data].
  apply (Array_sort_increasing (by_timestamp Date_parse)
           (fun run => Fval (Date_parse (run_timestamp run)))
           (dated Date_parse) (by_timestamp_key Date_parse)); [exact Hd|].
  revert Hd. induction Hs as [|a l Hs IH Ha]; intros Hd; constructor.
  - apply IH. inversion Hd; assumption.
  - rewrite Forall_forall in *. intros b Hb.
    specialize (Ha b Hb). apply ltb_true_iff in Ha. tauto.
Qed.

Lemma eqb_Fval (x y : float) :
  is_nan x = false -> is_nan y = false -> (x =? y) = (Fval x =? Fval y)%Z.
Proof.
  intros Nx Ny. rewrite is_nan_Prim in Nx, Ny.
  rewrite FloatAxioms.eqb_spec. unfold SFeqb.
  rewrite SFcompare_SFval by (try apply Prim2SF_valid; assumption).
  unfold Fval.
  destruct (Z.compare_spec (SFval (Prim2SF x)) (SFval (Prim2SF y))),
           (Z.eqb_spec (SFval (Prim2SF x)) (SFval (Prim2SF y)));
    try reflexivity; lia.
Qed.

Lemma eqb_nan_r (x y : float) : is_nan y = true -> (x =? y) = false.
Proof.
  rewrite is_nan_Prim, FloatAxioms.eqb_spec. unfold SFeqb.
  destruct (Prim2SF y); try discriminate. intros _.
  destruct (Prim2SF x); reflexivity.
Qed.

(** X9: the sort is stable: the runs of one instant [t] come in the listing in
    the order of storage, so among runs of the same millisecond the listing
    is oldest first. *)
Theorem get_runs_stable :
  forall (Date_parse : string -> float) (st : Store) (t : float),
    Forall (dated Date_parse) (RUNS st) ->
    filter (fun run => Date_parse (run_timestamp run) =? t)
      (data (get_runs Date_parse st)) =
    filter (fun run => Date_parse (run_timestamp run) =? t) (RUNS st).
Proof.
  intros Date_parse st t Hd. unfold get_runs. cbn [data].
  assert (forall l, Forall (dated Date_parse) l ->
            filter (fun run => Date_parse (run_timestamp run) =? t) l =
            if is_nan t then []
            else filter (fun run =>
                           (Fval (Date_parse (run_timestamp run)) =? Fval t)%Z) l)
    as Hf.
  { intros l Hl. destruct (is_nan t) eqn:Nt.
    - induction l as [|x l IH]; [reflexivity|]. inversion Hl; subst.
      cbn [filter]. rewrite (eqb_nan_r _ t Nt). apply IH. assumption.
    - induction l as [|x l IH]; [reflexivity|].
      inversion Hl as [|? ? Hx Hl']; subst. cbn [filter].
      rewrite (eqb_Fval _ t Hx Nt), (IH Hl'). reflexivity. }
  rewrite (Hf (RUNS st) Hd), Hf.
  - destruct (is_nan t); [reflexivity|].
    apply (Array_sort_stable (by_timestamp Date_parse)
             (fun run => Fval (Date_parse (run_timestamp run)))
             (dated Date_parse) (by_timestamp_key Date_parse)).
    exact Hd.
  - apply (Forall_Permutation _ (RUNS st)); [|exact Hd].
    symmetry. apply Array_sort_Permutation.
Qed.

(** ** [GET /api/mix-design/export.csv]: the export *)

Lemma map_throwing_None {A B : Type} (f : A -> option B) (l : list A) :
  map_throwing f l = None <-> Exists (fun x => f x = None) l.
Proof.
  induction l as [|x l IH]; cbn [map_throwing].
  - split; [discriminate | intros H; inversion H].
  - destruct (f x) eqn:E.
    + destruct (map_throwing f l).
      * split; [discriminate|]. intros H. inversion H; subst; [congruence|].
        apply IH in H1. discriminate.
      * split; [|reflexivity]. intros _. right. apply IH. reflexivity.
    + split; [|reflexivity]. intros _. left. exact E.
Qed.

(** *** Columns *)

Section Columns.

Local Open Scope nat_scope.











End Columns.

(** ** [round]: [null] and [NaN] *)

Lemma mul_by_constant_not_nan (v d : float) (md : positive) (ed : Z) :
  Prim2SF d = S754_finite false md ed ->
  is_nan v = false -> is_nan (v * d) = false.
Proof.
  intros Hd Nv. rewrite is_nan_Prim in *. rewrite mul_spec, Hd.
  destruct (Prim2SF v) as [s|s| |s m e]; try discriminate; try reflexivity.
  cbn [SFmul].
  exact (proj1 (BRA_shape (xorb s false) (Zpos (m * md)) (e + ed) loc_Exact
                  ltac:(lia))).
Qed.

Lemma Math_round_not_nan (y : float) :
  is_nan y = false -> is_nan (Math_round y) = false.
Proof.
  intros N. pose proof (Math_round_cases y) as H.
  rewrite is_nan_Prim in N.
  destruct (Prim2SF y) as [s|s| |s m e] eqn:E; try discriminate;
    try (rewrite H, is_nan_Prim, E; reflexivity).
  destruct (0 <=? e)%Z; [rewrite H, is_nan_Prim, E; reflexivity|].
  rewrite is_nan_Prim, H.
  apply binary_normalize_value. unfold Kexp. lia.
Qed.

Lemma round_not_nan (d : nat) (f v : float) :
  scaling d f ->
  match round (Some v) d with
  | None => is_nan v = true
  | Some w => is_nan v = false /\ is_nan w = false
  end.
Proof.
  intros Hs. unfold round. rewrite (scaling_pow d f Hs).
  destruct (is_nan v) eqn:N; [reflexivity|]. split; [reflexivity|].
  apply (div_by_factor d f _ Hs). apply Math_round_not_nan.
  destruct Hs.
  - exact (mul_by_constant_not_nan v 100 _ _ Prim2SF_100 N).
  - exact (mul_by_constant_not_nan v 1000 _ _ Prim2SF_1000 N).
Qed.

(** X13: what [round] gives for two and for three decimals is [null] exactly
    when the value is [NaN], and is never [NaN] itself; so no field of a
    result of [computeMixDesign] is [NaN], and a field is [null] exactly when
    its regression is [NaN]. *)
Theorem round_null_iff_NaN :
  forall StringToNumber (fck : value) (exposureKey : option string),
    let x := Number StringToNumber fck in
    let field (raw : float) (emitted : option float) : Prop :=
      match emitted with
      | None => is_nan raw = true
      | Some w => is_nan raw = false /\ is_nan w = false
      end in
    (forall v, field v (round (Some v) 2) /\ field v (round (Some v) 3)) /\
    match computeMixDesign StringToNumber fck exposureKey with
    | Some r =>
        field (raw_fckMean x) (fckMean r) /\
        field (raw_w_c x) (w_c r) /\
        field (raw_water x) (water r) /\
        field (raw_cement x) (cement r) /\
        field (raw_fineAgg x) (fineAgg r) /\
        field (raw_coarseAgg x) (coarseAgg r)
    | None => True
    end.
Proof.
  intros StringToNumber fck exposureKey x field.
  split.
  - intros v. split; [exact (round_not_nan 2 100 v scaling_2)
                     | exact (round_not_nan 3 1000 v scaling_3)].
  - rewrite computeMixDesign_eq. cbv zeta. fold x.
    destruct (falsy x || is_nan x || (x <=? 0)); [exact I|].
    unfold result_for. cbn [fckMean w_c water cement fineAgg coarseAgg].
    repeat split;
      first [ exact (round_not_nan 2 100 _ scaling_2)
            | exact (round_not_nan 3 1000 _ scaling_3) ].
Qed.

(** ** The exposure classes in order of severity *)

(** The classes in the order of the table. *)
Definition classes : list ExposureClass := map snd EXPOSURES.

Lemma leb_trans (a b c : float) :
  (a <=? b) = true -> (b <=? c) = true -> (a <=? c) = true.
Proof.
  intros H1 H2. apply leb_true_iff in H1 as (Na & Nb & H1).
  apply leb_true_iff in H2 as (_ & Nc & H2).
  apply leb_true_iff. repeat split; try assumption. lia.
Qed.

Lemma classes_ordered (i j : nat) (e1 e2 : ExposureClass) :
  (i <= j)%nat -> nth_error classes i = Some e1 -> nth_error classes j = Some e2 ->
  (e1 = mild \/ e1 = moderate \/ e1 = severe \/ e1 = verySevere \/ e1 = extreme) /\
  (e2 = mild \/ e2 = moderate \/ e2 = severe \/ e2 = verySevere \/ e2 = extreme) /\
  (maxWc e2 <=? maxWc e1) = true /\
  (minCement e1 <=? minCement e2) = true /\
  (minGradeFck e1 <=? minGradeFck e2) = true.
Proof.
  intros Hij H1 H2. unfold classes, EXPOSURES in H1, H2. cbn [map snd] in H1, H2.
  destruct i as [|[|[|[|[|i]]]]]; cbn [nth_error] in H1;
    try (destruct i; discriminate H1); injection H1 as <-;
  destruct j as [|[|[|[|[|j]]]]]; cbn [nth_error] in H2;
    try (destruct j; discriminate H2); try lia; injection H2 as <-;
  (split; [tauto|]); (split; [tauto|]); repeat split.
Qed.

(** X14: the limits tighten along the table: whatever [fck], a check that passes
    for a class passes for every class listed before it. *)
Theorem milder_class_passes :
  forall StringToNumber (fck : value) (i j : nat) (e1 e2 : ExposureClass)
         (r1 r2 : MixDesign),
    (i <= j)%nat ->
    nth_error classes i = Some e1 ->
    nth_error classes j = Some e2 ->
    computeMixDesign StringToNumber fck (Some (key e1)) = Some r1 ->
    computeMixDesign StringToNumber fck (Some (key e2)) = Some r2 ->
    (isWcOk (checks r2) = true -> isWcOk (checks r1) = true) /\
    (isCementOk (checks r2) = true -> isCementOk (checks r1) = true) /\
    (isGradeOk (checks r2) = true -> isGradeOk (checks r1) = true).
Proof.
  intros StringToNumber fck i j e1 e2 r1 r2 Hij H1 H2 Hr1 Hr2.
  destruct (classes_ordered i j e1 e2 Hij H1 H2) as (In1 & In2 & Hwc & Hce & Hgr).
  rewrite computeMixDesign_eq in Hr1, Hr2. cbv zeta in Hr1, Hr2.
  set (x := Number StringToNumber fck) in *.
  destruct (falsy x || is_nan x || (x <=? 0)); [discriminate|].
  assert (r1 = result_for x (Some (key e1))) as -> by congruence.
  assert (r2 = result_for x (Some (key e2))) as -> by congruence.
  unfold result_for. cbn [checks isWcOk isCementOk isGradeOk].
  fold (resolve (Some (key e1))). fold (resolve (Some (key e2))).
  rewrite (resolve_key e1 In1), (resolve_key e2 In2).
  cbn [get_maxWc get_minCement get_minGradeFck ToNumber]. unfold geb.
  repeat split; intros H; eapply leb_trans; eassumption.
Qed.

(** ** The regressions over the practical range *)

Definition fckMean_margin_expr : expr := Sub fckMean_expr Var.

Definition breaks_to_90 : list float := steps 0 0.125 720.

Definition breaks_to_100 : list float := steps 0 1 100.

Lemma fckMean_margin_cover :
  check_cover fckMean_margin_expr lower_positive 0 breaks_to_90 = true.
Proof. vm_compute. reflexivity. Qed.

Lemma regressions_cover :
  forallb (fun e => check_cover e lower_positive 0 breaks_to_100)
    [fckMean_expr; wc_expr; water_expr; cement_expr; fineAgg_expr; coarseAgg_expr]
  = true.
Proof. vm_compute. reflexivity. Qed.

Lemma cover_positive (e : expr) (bs : list float) (x : float) :
  bs <> [] ->
  check_cover e lower_positive 0 bs = true ->
  (0 <? x) = true -> (x <=? last bs 0) = true ->
  (0 <? feval e x) = true.
Proof.
  intros Hne Hc Hpos Hle.
  assert ((0 <=? x) = true) as Hlo.
  { apply ltb_true_iff in Hpos as (N0 & Nx & Hpos).
    apply leb_true_iff. repeat split; try assumption. lia. }
  destruct (check_cover_sound e lower_positive bs 0 x Hne Hc Hlo Hle)
    as (r & Hok & Hl & _).
  unfold lower_positive in Hok.
  apply ltb_true_iff in Hok as (N0 & _ & Hok).
  apply leb_true_iff in Hl as (_ & Nw & Hl).
  apply ltb_true_iff. repeat split; try assumption. lia.
Qed.

(** X15: for every [fck] up to 90 the target mean strength, before
    rounding, is above [fck]; the regression does not keep this up: at
    [fck = 94] it is below [fck], and [93.66] is emitted. *)
Theorem target_mean_strength_above_fck :
  forall StringToNumber (fck : value) (exposureKey : option string) (r : MixDesign),
    computeMixDesign StringToNumber fck exposureKey = Some r ->
    (Number StringToNumber fck <=? 90) = true ->
    (Number StringToNumber fck <? raw_fckMean (Number StringToNumber fck)) = true /\
    fckMean r = round (Some (raw_fckMean (Number StringToNumber fck))) 2 /\
    (raw_fckMean 94 <? 94) = true /\
    round (Some (raw_fckMean 94)) 2 = Some 93.66.
Proof.
  intros StringToNumber fck exposureKey r Hr Hle.
  rewrite computeMixDesign_eq in Hr. cbv zeta in Hr.
  set (x := Number StringToNumber fck) in *.
  destruct (falsy x || is_nan x || (x <=? 0)) eqn:G; [discriminate|].
  apply guard_false_iff in G.
  assert (r = result_for x exposureKey) as -> by congruence.
  split; [|split; [reflexivity | split; vm_compute; reflexivity]].
  rewrite <- sub_pos_ltb.
  change (raw_fckMean x - x) with (feval fckMean_margin_expr x).
  apply (cover_positive fckMean_margin_expr breaks_to_90).
  - discriminate.
  - exact fckMean_margin_cover.
  - exact G.
  - replace (last breaks_to_90 0) with 90 by (vm_compute; reflexivity). exact Hle.
Qed.

Lemma round_of_positive_scaled (d : nat) (f v : float) :
  scaling d f -> (0 <? v) = true ->
  exists w, round (Some v) d = Some w /\ (0 <=? w) = true.
Proof.
  intros Hs Hv. apply ltb_true_iff in Hv as (N0 & Nv & Hv).
  rewrite round_Some by assumption. rewrite (scaling_pow d f Hs).
  eexists. split; [reflexivity|].
  assert (is_nan f = false /\ (0 < Fval f)%Z) as [Nf Hf]
    by (destruct Hs; split; vm_compute; reflexivity).
  destruct (mul_pos_nonneg v f Nv Nf Hv Hf) as [Ny Hy].
  destruct (Math_round_nonneg _ Ny Hy) as [Nr Hr].
  destruct (div_by_factor d f _ Hs Nr) as (Nq & _ & Hq).
  apply leb_true_iff. repeat split; try assumption.
  exact (Hq Hr).
Qed.

(** The emitted field is a number that is not negative. *)
Definition emitted_nonnegative (field : option float) : Prop :=
  exists w, field = Some w /\ (0 <=? w) = true.

(** X16: for every [fck] up to 100 all six regressions are above zero, and the
    six emitted quantities are numbers that are not negative. *)
Theorem quantities_positive_up_to_100 :
  forall StringToNumber (fck : value) (exposureKey : option string) (r : MixDesign),
    computeMixDesign StringToNumber fck exposureKey = Some r ->
    (Number StringToNumber fck <=? 100) = true ->
    let x := Number StringToNumber fck in
    ((0 <? raw_fckMean x) = true /\ (0 <? raw_w_c x) = true /\
     (0 <? raw_water x) = true /\ (0 <? raw_cement x) = true /\
     (0 <? raw_fineAgg x) = true /\ (0 <? raw_coarseAgg x) = true) /\
    emitted_nonnegative (fckMean r) /\ emitted_nonnegative (w_c r) /\
    emitted_nonnegative (water r) /\ emitted_nonnegative (cement r) /\
    emitted_nonnegative (fineAgg r) /\ emitted_nonnegative (coarseAgg r).
Proof.
  intros StringToNumber fck exposureKey r Hr Hle x.
  rewrite computeMixDesign_eq in Hr. cbv zeta in Hr. fold x in Hr, Hle.
  destruct (falsy x || is_nan x || (x <=? 0)) eqn:G; [discriminate|].
  apply guard_false_iff in G.
  assert (r = result_for x exposureKey) as -> by congruence.
  pose proof regressions_cover as Hc. cbn [forallb] in Hc.
  repeat (apply andb_true_iff in Hc as [?C Hc]).
  assert (forall e, check_cover e lower_positive 0 breaks_to_100 = true ->
                    (0 <? feval e x) = true) as Hp.
  { intros e He.
    apply (cover_positive e breaks_to_100 x); [discriminate | exact He | exact G |].
    replace (last breaks_to_100 0) with 100 by (vm_compute; reflexivity).
    exact Hle. }
  pose proof (feval_regressions x) as (E1 & E2 & E3 & E4 & E5 & E6).
  assert ((0 <? raw_fckMean x) = true /\ (0 <? raw_w_c x) = true /\
          (0 <? raw_water x) = true /\ (0 <? raw_cement x) = true /\
          (0 <? raw_fineAgg x) = true /\ (0 <? raw_coarseAgg x) = true)
    as (P1 & P2 & P3 & P4 & P5 & P6).
  { rewrite <- E1, <- E2, <- E3, <- E4, <- E5, <- E6.
    repeat split; apply Hp; assumption. }
  split; [tauto|].
  unfold result_for, emitted_nonnegative.
  cbn [fckMean w_c water cement fineAgg coarseAgg].
  repeat split;
    first [ apply (round_of_positive_scaled 2 100 _ scaling_2); assumption
          | apply (round_of_positive_scaled 3 1000 _ scaling_3); assumption ].
Qed.

(** ** Instances *)

(** A request body with [fck] and nothing else. *)
Definition body_of (fck : value) : Body :=
  {| body_fck := fck; body_cementGrade := VUndefined; body_exposure := None;
     body_projectName := VUndefined; body_projectSite := VUndefined;
     body_mixId := VUndefined; body_castingDate := VUndefined |}.

(** A host in which no string is a number. *)
Definition no_numeric_string (s : string) : float := nan.

(** A clock text stands for as many milliseconds as it has characters. *)
Definition text_length_clock (s : string) : float :=
  of_uint63 (Uint63.of_Z (Z.of_nat (String.length s))).

(** Two runs stored one after the other, at instants 1 and 2. *)
Definition two_runs : Store :=
  serve no_numeric_string
    [("a", "2024-01-01", body_of (VNumber 20));
     ("ab", "2024-01-02", body_of (VNumber 30))]%string
    initial_store.

(** Two runs stored in the same millisecond. *)
Definition two_runs_one_instant : Store :=
  serve no_numeric_string
    [("a", "2024-01-01", body_of (VNumber 20));
     ("a", "2024-01-01", body_of (VNumber 30))]%string
    initial_store.


Lemma two_runs_dated : Forall (dated text_length_clock) (RUNS two_runs).
Proof. repeat constructor. Qed.

Lemma get_runs_latest_first_witness :
  StronglySorted
    (fun a b =>
       (text_length_clock (run_timestamp b) <=? text_length_clock (run_timestamp a))
       = true)
    (data (get_runs text_length_clock two_runs)).
Proof.
  exact (proj2 (proj2 (get_runs_latest_first text_length_clock two_runs))
           two_runs_dated).
Defined.

Lemma get_runs_reverses_increasing_witness :
  data (get_runs text_length_clock two_runs) = rev (RUNS two_runs).
Proof.
  apply get_runs_reverses_increasing.
  - repeat constructor.
  - exact two_runs_dated.
Defined.

Lemma get_runs_stable_witness :
  filter (fun run => text_length_clock (run_timestamp run) =? 1)
    (data (get_runs text_length_clock two_runs_one_instant)) =
  RUNS two_runs_one_instant.
Proof.
  rewrite get_runs_stable; [reflexivity|]. repeat constructor.
Defined.



(** At [fck = 45] the three checks pass for the extreme class, and so for
    the mild one. *)
Lemma milder_class_passes_witness :
  isWcOk (checks (result_for 45 (Some "mild"%string))) = true /\
  isCementOk (checks (result_for 45 (Some "mild"%string))) = true /\
  isGradeOk (checks (result_for 45 (Some "mild"%string))) = true.
Proof.
  destruct (milder_class_passes no_numeric_string (VNumber 45) 0 4 mild extreme
              (result_for 45 (Some "mild"%string))
              (result_for 45 (Some "extreme"%string))
              ltac:(repeat constructor) eq_refl eq_refl eq_refl eq_refl)
    as (Hwc & Hce & Hgr).
  split; [apply Hwc; reflexivity|]. split; [apply Hce | apply Hgr]; reflexivity.
Defined.

Lemma target_mean_strength_above_fck_witness :
  (20 <? raw_fckMean 20) = true.
Proof.
  exact (proj1 (target_mean_strength_above_fck no_numeric_string (VNumber 20) None
                  (result_for 20 None) eq_refl eq_refl)).
Defined.

Lemma quantities_positive_up_to_100_witness :
  (0 <? raw_fineAgg 100) = true /\ emitted_nonnegative (fineAgg (result_for 100 None)).
Proof.
  destruct (quantities_positive_up_to_100 no_numeric_string (VNumber 100) None
              (result_for 100 None) eq_refl eq_refl)
    as ((_ & _ & _ & _ & H & _) & _ & _ & _ & _ & H' & _).
  split; [exact H | exact H'].
Defined.

(** * The handlers on the bodies that [express.json()] delivers

    A JSON body carries arrays and objects as well as primitives.  The
    handlers convert them where they use them (to a number, to a property
    key, to text), and a conversion can throw, which Express answers by
    [500].  The model above is this one on bodies whose fields are
    primitives. *)

(** ** JSON values and their conversions *)

Set Warnings "-register-all".

Inductive json : Type :=
| JNull
| JBool (b : bool)
| JNumber (x : float)
| JString (s : string)
| JArray (items : list json)
| JObject (properties : list (string * json)).

(** A field of the body: [None] when the body has no such property
    ([undefined]). *)
Definition field : Type := option json.

(** [!v]: every array and every object is truthy. *)
Definition json_truthy (v : field) : bool :=
  match v with
  | None | Some JNull => false
  | Some (JBool b) => b
  | Some (JNumber x) => negb (falsy x)
  | Some (JString s) => negb (String.eqb s "")
  | Some (JArray _) | Some (JObject _) => true
  end.

(** [a || b]. *)
Definition json_or (a : field) (b : json) : json :=
  match a with
  | Some j => if json_truthy a then j else b
  | None => b
  end.

(** The object has an own property of this name. *)
Definition has_own (name : string) (properties : list (string * json)) : bool :=
  existsb (fun p => String.eqb (fst p) name) properties.

(** [ToString] of a JSON value; [None] is a thrown [TypeError].  An array
    converts by [Array.prototype.toString], that is [join(",")], under which
    [null] gives the empty string.  An object parsed from JSON holds no
    function, so an own property [toString] is not callable and the
    inherited [valueOf] returns the object itself: the conversion throws;
    without an own [toString], [Object.prototype.toString] gives
    ["[object Object]"]. *)
Fixpoint json_ToString (NumberToString : float -> string) (j : json)
  : option string :=
  match j with
  | JNull => Some "null"%string
  | JBool b => Some (Boolean_toString b)
  | JNumber x => Some (NumberToString x)
  | JString s => Some s
  | JArray items =>
      option_map (Array_join ",")
        (map_throwing
           (fun item =>
              match item with
              | JNull => Some ""%string
              | _ => json_ToString NumberToString item
              end)
           items)
  | JObject properties =>
      if has_own "toString" properties then None
      else Some "[object Object]"%string
  end.

(** [ToPrimitive]: the same result under both hints, since for an array and
    for an object parsed from JSON [valueOf] gives no primitive. *)
Definition ToPrimitive (NumberToString : float -> string) (v : field)
  : option value :=
  match v with
  | None => Some VUndefined
  | Some JNull => Some VNull
  | Some (JBool b) => Some (VBool b)
  | Some (JNumber x) => Some (VNumber x)
  | Some (JString s) => Some (VString s)
  | Some j => option_map VString (json_ToString NumberToString j)
  end.

(** [ToPropertyKey]: the primitive, as a string. *)
Definition json_ToPropertyKey (NumberToString : float -> string) (v : field)
  : option string :=
  option_map (ToString NumberToString) (ToPrimitive NumberToString v).

(** How a call ends. *)
Inductive completion (A : Type) : Type :=
| Throws
| Returns (a : A).

Arguments Throws {A}.
Arguments Returns {A} a.

(** [computeMixDesign(fck, exposureKey)] on fields of the body:
    [Number(fck)] converts first (line 57) and may throw; a value that
    fails validation returns [null] before the key is looked at (line 58);
    then [EXPOSURES[exposureKey]] converts the key (line 60) and may
    throw. *)
Definition computeMixDesign_json (StringToNumber : string -> float)
  (NumberToString : float -> string) (fck exposureKey : field)
  : completion (option MixDesign) :=
  match ToPrimitive NumberToString fck with
  | None => Throws
  | Some primitive =>
      let x := Number StringToNumber primitive in
      if falsy x || is_nan x || (x <=? 0) then Returns None
      else
        match json_ToPropertyKey NumberToString exposureKey with
        | None => Throws
        | Some k => Returns (computeMixDesign StringToNumber primitive (Some k))
        end
  end.

(** ** The store and [POST /api/mix-design] *)

Record JsonBody : Type := {
  json_fck : field;
  json_cementGrade : field;
  json_exposure : field;
  json_projectName : field;
  json_projectSite : field;
  json_mixId : field;
  json_castingDate : field
}.

Record JsonProject : Type := {
  json_project_projectName : json;
  json_project_projectSite : json;
  json_project_mixId : json;
  json_project_castingDate : json
}.

Record JsonInput : Type := {
  json_input_fck : float;
  json_input_cementGrade : json;
  json_input_exposure : value
}.

Record JsonRun : Type := {
  json_run_id : Z;
  json_run_timestamp : string;
  json_run_project : JsonProject;
  json_run_input : JsonInput;
  json_run_result : MixDesign
}.

Record JsonStore : Type := {
  JSON_RUNS : list JsonRun;
  JSON_NEXT_ID : Z
}.

Definition initial_json_store : JsonStore := {| JSON_RUNS := []; JSON_NEXT_ID := 1 |}.

Inductive JsonResponse : Type :=
| Status400 (message : string)
| Status200 (data : JsonRun)
| Status500.

(** The handler.  An exception leaves it before [NEXT_ID++] and
    [RUNS.push], so the store is as it was. *)
Definition post_mix_design_json (StringToNumber : string -> float)
  (NumberToString : float -> string) (timestamp today : string)
  (body : JsonBody) (st : JsonStore) : JsonResponse * JsonStore :=
  if negb (json_truthy (json_fck body)) then
    (Status400 "fck is required", st)
  else
    match computeMixDesign_json StringToNumber NumberToString
            (json_fck body) (json_exposure body) with
    | Throws => (Status500, st)
    | Returns None => (Status400 "Invalid fck value", st)
    | Returns (Some result) =>
        match json_ToPropertyKey NumberToString (json_exposure body),
              ToPrimitive NumberToString (json_fck body) with
        | Some k, Some primitive =>
            let expCfg := or_else (EXPOSURES_get (Some k)) (OExposure mild) in
            let id := JSON_NEXT_ID st in
            let NEXT_ID' := (JSON_NEXT_ID st + 1)%Z in
            let run :=
              {| json_run_id := id;
                 json_run_timestamp := timestamp;
                 json_run_project :=
                   {| json_project_projectName :=
                        json_or (json_projectName body) (JString "");
                      json_project_projectSite :=
                        json_or (json_projectSite body) (JString "");
                      json_project_mixId :=
                        json_or (json_mixId body)
                          (JString ("MIX-" ++ padStart3 (String_of_Z (NEXT_ID' - 1))));
                      json_project_castingDate :=
                        json_or (json_castingDate body)
                          (JString (substring 0 10 today)) |};
                 json_run_input :=
                   {| json_input_fck := Number StringToNumber primitive;
                      json_input_cementGrade :=
                        json_or (json_cementGrade body) JNull;
                      json_input_exposure := get_key expCfg |};
                 json_run_result := result |} in
            (Status200 run,
             {| JSON_RUNS := JSON_RUNS st ++ [run]; JSON_NEXT_ID := NEXT_ID' |})
        | _, _ => (Status500, st)
        end
    end.

(** The store after a sequence of requests. *)
Definition serve_json (StringToNumber : string -> float)
  (NumberToString : float -> string)
  (requests : list (string * string * JsonBody)) (st : JsonStore) : JsonStore :=
  fold_left
    (fun st rq =>
       snd (post_mix_design_json StringToNumber NumberToString
              (fst (fst rq)) (snd (fst rq)) (snd rq) st))
    requests st.

(** ** [GET /api/mix-design/runs] *)

Definition by_json_timestamp (Date_parse : string -> float) (a b : JsonRun) : float :=
  Date_parse (json_run_timestamp b) - Date_parse (json_run_timestamp a).

Record JsonListing : Type := {
  json_count : nat;
  json_data : list JsonRun
}.

Definition get_runs_json (Date_parse : string -> float) (st : JsonStore)
  : JsonListing :=
  let sorted := Array_sort (by_json_timestamp Date_parse) (JSON_RUNS st) in
  {| json_count := length sorted; json_data := sorted |}.

(** ** [GET /api/mix-design/export.csv] *)

(** [(v || "").replace(/,/g, " ")]: only a string has [replace]. *)
Definition sanitize_json (v : json) : option string :=
  match json_or (Some v) (JString "") with
  | JString s => Some (replace_commas s)
  | _ => None
  end.

(** An element under [join]: [null] gives the empty string, anything else
    its [ToString], which can throw. *)
Definition json_join_item (NumberToString : float -> string) (v : json)
  : option string :=
  match v with
  | JNull => Some ""%string
  | _ => json_ToString NumberToString v
  end.

Definition csv_fields_json (NumberToString : float -> string) (run : JsonRun)
  : option (list string) :=
  let project := json_run_project run in
  let input := json_run_input run in
  let result := json_run_result run in
  match sanitize_json (json_project_projectName project),
        sanitize_json (json_project_projectSite project),
        sanitize_json (json_project_mixId project),
        json_join_item NumberToString
          (json_or (Some (json_project_castingDate project)) (JString "")),
        json_join_item NumberToString (json_input_cementGrade input) with
  | Some name, Some site, Some mix, Some date, Some grade =>
      Some [ String_of_Z (json_run_id run);
             json_run_timestamp run;
             name;
             site;
             mix;
             date;
             NumberToString (json_input_fck input);
             grade;
             join_item NumberToString (json_input_exposure input);
             join_number NumberToString (fckMean result);
             join_number NumberToString (w_c result);
             join_number NumberToString (water result);
             join_number NumberToString (cement result);
             join_number NumberToString (fineAgg result);
             join_number NumberToString (coarseAgg result);
             Boolean_toString (isWcOk (checks result));
             Boolean_toString (isCementOk (checks result));
             Boolean_toString (isGradeOk (checks result)) ]
  | _, _, _, _, _ => None
  end.

Definition csv_row_json (NumberToString : float -> string) (run : JsonRun)
  : option string :=
  option_map (Array_join ",") (csv_fields_json NumberToString run).

Definition export_csv_json (NumberToString : float -> string) (st : JsonStore)
  : option string :=
  match map_throwing (csv_row_json NumberToString) (JSON_RUNS st) with
  | Some rows => Some (Array_join LF (csv_header :: rows))
  | None => None
  end.

(** ** Which requests are recorded *)

Definition is_some {A : Type} (o : option A) : bool :=
  match o with
  | Some _ => true
  | None => false
  end.

(** The request passes the handler: [fck] is truthy, converts to a number
    above zero, and the exposure converts to a property key. *)
Definition recorded (StringToNumber : string -> float)
  (NumberToString : float -> string) (body : JsonBody) : bool :=
  json_truthy (json_fck body) &&
  match ToPrimitive NumberToString (json_fck body) with
  | Some primitive =>
      (0 <? Number StringToNumber primitive) &&
      is_some (json_ToPropertyKey NumberToString (json_exposure body))
  | None => false
  end.

(** The run a recorded request stores under the counter value [id]. *)
Definition json_recorded_run (StringToNumber : string -> float)
  (NumberToString : float -> string) (timestamp today : string)
  (body : JsonBody) (id : Z) (primitive : value) (k : string) : JsonRun :=
  {| json_run_id := id;
     json_run_timestamp := timestamp;
     json_run_project :=
       {| json_project_projectName := json_or (json_projectName body) (JString "");
          json_project_projectSite := json_or (json_projectSite body) (JString "");
          json_project_mixId :=
            json_or (json_mixId body)
              (JString ("MIX-" ++ padStart3 (String_of_Z id)));
          json_project_castingDate :=
            json_or (json_castingDate body) (JString (substring 0 10 today)) |};
     json_run_input :=
       {| json_input_fck := Number StringToNumber primitive;
          json_input_cementGrade := json_or (json_cementGrade body) JNull;
          json_input_exposure := get_key (resolve (Some k)) |};
     json_run_result := result_for (Number StringToNumber primitive) (Some k) |}.

Lemma post_json_recorded StringToNumber NumberToString timestamp today body st :
  recorded StringToNumber NumberToString body = true ->
  exists primitive k,
    ToPrimitive NumberToString (json_fck body) = Some primitive /\
    (0 <? Number StringToNumber primitive) = true /\
    json_ToPropertyKey NumberToString (json_exposure body) = Some k /\
    post_mix_design_json StringToNumber NumberToString timestamp today body st =
    (Status200 (json_recorded_run StringToNumber NumberToString timestamp today
                  body (JSON_NEXT_ID st) primitive k),
     {| JSON_RUNS := JSON_RUNS st ++
                     [json_recorded_run StringToNumber NumberToString timestamp
                        today body (JSON_NEXT_ID st) primitive k];
        JSON_NEXT_ID := (JSON_NEXT_ID st + 1)%Z |}).
Proof.
  unfold recorded. intros H. apply andb_true_iff in H as [Ht H].
  destruct (ToPrimitive NumberToString (json_fck body)) as [primitive|] eqn:Ep;
    [|discriminate].
  apply andb_true_iff in H as [Hx Hk].
  destruct (json_ToPropertyKey NumberToString (json_exposure body)) as [k|] eqn:Ek;
    [|discriminate].
  exists primitive, k. repeat split; try assumption.
  unfold post_mix_design_json, computeMixDesign_json. rewrite Ht, Ep, Ek.
  cbn [negb]. cbv zeta.
  rewrite (proj2 (guard_false_iff _) Hx).
  rewrite (computeMixDesign_accepted StringToNumber primitive (Some k) Hx).
  unfold json_recorded_run, resolve.
  replace (JSON_NEXT_ID st + 1 - 1)%Z with (JSON_NEXT_ID st) by lia. reflexivity.
Qed.

Lemma post_json_not_recorded StringToNumber NumberToString timestamp today body st :
  recorded StringToNumber NumberToString body = false ->
  post_mix_design_json StringToNumber NumberToString timestamp today body st =
  (if json_truthy (json_fck body) then
     match ToPrimitive NumberToString (json_fck body) with
     | None => Status500
     | Some primitive =>
         if 0 <? Number StringToNumber primitive then Status500
         else Status400 "Invalid fck value"
     end
   else Status400 "fck is required", st).
Proof.
  unfold recorded, post_mix_design_json, computeMixDesign_json. intros H.
  destruct (json_truthy (json_fck body)); [|reflexivity]. cbn [negb andb] in *.
  destruct (ToPrimitive NumberToString (json_fck body)) as [primitive|];
    [|reflexivity].
  cbv zeta.
  destruct (0 <? Number StringToNumber primitive) eqn:Hx.
  - rewrite (proj2 (guard_false_iff _) Hx). cbn [andb] in H.
    destruct (json_ToPropertyKey NumberToString (json_exposure body));
      [discriminate | reflexivity].
  - destruct (falsy _ || is_nan _ || (_ <=? 0)) eqn:G; [reflexivity|].
    apply guard_false_iff in G. congruence.
Qed.

(** X1: which response a request gets.  [400 "fck is required"] exactly
    when [fck] is falsy; [400 "Invalid fck value"] exactly when [fck] is
    truthy and converts to a number that is [NaN] or [<= 0]; [500] exactly
    when [fck] is truthy and either its conversion throws or it converts to a
    number above zero and the conversion of the exposure to a property key
    throws; a recorded run in the remaining case.  Every response other than
    the recorded run leaves the store as it was.  The body
    [{fck: 20, exposure: {toString: 1}}] is answered by [500]. *)
Theorem post_mix_design_response :
  forall StringToNumber NumberToString (timestamp today : string)
         (body : JsonBody) (st : JsonStore),
    let out :=
      post_mix_design_json StringToNumber NumberToString timestamp today body st in
    let number := option_map (Number StringToNumber)
                    (ToPrimitive NumberToString (json_fck body)) in
    let key := json_ToPropertyKey NumberToString (json_exposure body) in
    (fst out = Status400 "fck is required" <-> json_truthy (json_fck body) = false) /\
    (fst out = Status400 "Invalid fck value" <->
       json_truthy (json_fck body) = true /\
       exists x, number = Some x /\ (is_nan x = true \/ (x <=? 0) = true)) /\
    (fst out = Status500 <->
       json_truthy (json_fck body) = true /\
       (number = None \/ exists x, number = Some x /\ (0 <? x) = true /\ key = None)) /\
    ((exists run, fst out = Status200 run) <->
       json_truthy (json_fck body) = true /\
       exists x k, number = Some x /\ (0 <? x) = true /\ key = Some k) /\
    ((forall run, fst out <> Status200 run) -> snd out = st) /\
    (forall timestamp' today' st',
       post_mix_design_json StringToNumber NumberToString timestamp' today'
         {| json_fck := Some (JNumber 20); json_cementGrade := None;
            json_exposure := Some (JObject [("toString"%string, JNumber 1)]);
            json_projectName := None; json_projectSite := None;
            json_mixId := None; json_castingDate := None |} st'
       = (Status500, st')).
Proof.
  intros StringToNumber NumberToString timestamp today body st out number key.
  assert (forall x : float, (0 <? x) = true ->
            is_nan x = true \/ (x <=? 0) = true -> False) as Hexcl.
  { intros x Hx H. apply guard_true_iff in H.
    rewrite (proj2 (guard_false_iff x) Hx) in H. discriminate. }
  assert (forall x : float, (0 <? x) = false ->
            is_nan x = true \/ (x <=? 0) = true) as Hrej.
  { intros x Hx. apply guard_true_iff.
    destruct (falsy x || is_nan x || (x <=? 0)) eqn:G; [reflexivity|].
    apply guard_false_iff in G. congruence. }
  assert (forall timestamp' today' st',
            post_mix_design_json StringToNumber NumberToString timestamp' today'
              {| json_fck := Some (JNumber 20); json_cementGrade := None;
                 json_exposure := Some (JObject [("toString"%string, JNumber 1)]);
                 json_projectName := None; json_projectSite := None;
                 json_mixId := None; json_castingDate := None |} st'
            = (Status500, st')) as Hexample by reflexivity.
  destruct (recorded StringToNumber NumberToString body) eqn:R.
  - (* a recorded run *)
    destruct (post_json_recorded _ _ timestamp today body st R)
      as (p & k & Ep & Hx & Ek & E).
    fold out in E. unfold recorded in R. apply andb_true_iff in R as [Ht _].
    unfold number, key. rewrite E, Ep, Ek, Ht. cbn [fst snd option_map].
    split; [split; [discriminate | congruence]|].
    split; [split; [discriminate|];
            intros [_ (x & Hn & Hbad)]; injection Hn as <-;
            exfalso; exact (Hexcl _ Hx Hbad)|].
    split; [split; [discriminate|];
            intros [_ [Hn|(x & Hn & _ & Hk)]]; discriminate|].
    split; [split; [intros _; split; [reflexivity|];
                    exists (Number StringToNumber p), k; repeat split; exact Hx
                   | eauto]|].
    split; [|exact Hexample].
    intros H. exfalso. exact (H _ eq_refl).
  - pose proof (post_json_not_recorded _ _ timestamp today body st R) as E.
    fold out in E. unfold recorded in R. unfold number, key. rewrite E.
    cbn [fst snd].
    destruct (json_truthy (json_fck body)); cbn [andb] in R.
    + destruct (ToPrimitive NumberToString (json_fck body)) as [p|];
        cbn [option_map].
      * destruct (0 <? Number StringToNumber p) eqn:Hx; cbn [andb] in R.
        -- (* the key throws *)
           destruct (json_ToPropertyKey NumberToString (json_exposure body))
             as [k|]; [discriminate R|].
           split; [split; discriminate|].
           split; [split; [discriminate|];
                   intros [_ (x & Hn & Hbad)]; injection Hn as <-;
                   exfalso; exact (Hexcl _ Hx Hbad)|].
           split; [split; [intros _; split; [reflexivity|]; right;
                           exists (Number StringToNumber p); repeat split; exact Hx
                          | reflexivity]|].
           split; [split; [intros [run Hrun]; discriminate|];
                   intros [_ (x & k & _ & _ & Hk)]; discriminate|].
           split; [reflexivity | exact Hexample].
        -- (* the number fails validation *)
           split; [split; discriminate|].
           split; [split; [intros _; split; [reflexivity|];
                           exists (Number StringToNumber p);
                           split; [reflexivity | apply Hrej; exact Hx]
                          | reflexivity]|].
           split; [split; [discriminate|];
                   intros [_ [Hn|(x & Hn & Hx' & _)]]; [discriminate|];
                   injection Hn as <-; congruence|].
           split; [split; [intros [run Hrun]; discriminate|];
                   intros [_ (x & k & Hn & Hx' & _)]; injection Hn as <-;
                   congruence|].
           split; [reflexivity | exact Hexample].
      * (* the conversion of fck throws *)
        split; [split; discriminate|].
        split; [split; [discriminate|]; intros [_ (x & Hn & _)]; discriminate|].
        split; [split; [intros _; split; [reflexivity|]; left; reflexivity
                       | reflexivity]|].
        split; [split; [intros [run Hrun]; discriminate|];
                intros [_ (x & k & Hn & _)]; discriminate|].
        split; [reflexivity | exact Hexample].
    + (* fck is falsy *)
      split; [split; reflexivity|].
      split; [split; [discriminate | intros [Ht _]; discriminate]|].
      split; [split; [discriminate | intros [Ht _]; discriminate]|].
      split; [split; [intros [run Hrun]; discriminate
                     | intros [Ht _]; discriminate]|].
      split; [reflexivity | exact Hexample].
Qed.

(** ** The store over a sequence of JSON requests *)

Lemma serve_json_cons StringToNumber NumberToString rq requests st :
  serve_json StringToNumber NumberToString (rq :: requests) st =
  serve_json StringToNumber NumberToString requests
    (snd (post_mix_design_json StringToNumber NumberToString
            (fst (fst rq)) (snd (fst rq)) (snd rq) st)).
Proof. reflexivity. Qed.

(** The recorded requests of a sequence. *)
Definition recorded_requests (StringToNumber : string -> float)
  (NumberToString : float -> string)
  (requests : list (string * string * JsonBody)) : list (string * string * JsonBody) :=
  filter (fun rq => recorded StringToNumber NumberToString (snd rq)) requests.

(** X2: the store is append-only: serving requests keeps every stored run in
    place and adds one run per recorded request, in the order of arrival,
    each under the counter value it met; requests answered by [400] or by
    [500] add nothing and use up no identifier. *)
Theorem store_is_append_only :
  forall StringToNumber NumberToString
         (requests : list (string * string * JsonBody)) (st : JsonStore),
    exists added : list JsonRun,
      JSON_RUNS (serve_json StringToNumber NumberToString requests st) =
        JSON_RUNS st ++ added /\
      length added =
        length (recorded_requests StringToNumber NumberToString requests) /\
      JSON_NEXT_ID (serve_json StringToNumber NumberToString requests st) =
        (JSON_NEXT_ID st + Z.of_nat (length added))%Z /\
      map json_run_id added =
        map (fun i => (JSON_NEXT_ID st + Z.of_nat i)%Z) (seq 0 (length added)).
Proof.
  intros StringToNumber NumberToString requests.
  induction requests as [|rq requests IH]; intros st.
  - exists []. cbn. rewrite app_nil_r. repeat split. lia.
  - rewrite serve_json_cons. unfold recorded_requests. cbn [filter].
    destruct (recorded StringToNumber NumberToString (snd rq)) eqn:R.
    + destruct (post_json_recorded _ _ (fst (fst rq)) (snd (fst rq)) (snd rq) st R)
        as (p & k & _ & _ & _ & E).
      rewrite E. cbn [snd].
      set (run := json_recorded_run StringToNumber NumberToString (fst (fst rq))
                    (snd (fst rq)) (snd rq) (JSON_NEXT_ID st) p k).
      destruct (IH {| JSON_RUNS := JSON_RUNS st ++ [run];
                      JSON_NEXT_ID := (JSON_NEXT_ID st + 1)%Z |})
        as (added & HR & HL & HN & HI).
      cbn [JSON_RUNS JSON_NEXT_ID] in HR, HN, HI.
      exists (run :: added).
      rewrite HR, <- app_assoc. cbn [app length map]. split; [reflexivity|].
      split; [fold (recorded_requests StringToNumber NumberToString requests); lia|].
      split; [lia|].
      cbn [seq map]. f_equal; [unfold run; cbn [json_run_id json_recorded_run]; lia|].
      rewrite HI, <- seq_shift, map_map. apply map_ext. intros i. lia.
    + rewrite (post_json_not_recorded _ _ _ _ _ _ R). cbn [snd].
      destruct (IH st) as (added & HR & HL & HN & HI).
      exists added. repeat split; assumption.
Qed.

Lemma serve_json_length StringToNumber NumberToString requests :
  forall st,
    length (JSON_RUNS (serve_json StringToNumber NumberToString requests st)) =
    (length (JSON_RUNS st) +
     length (recorded_requests StringToNumber NumberToString requests))%nat.
Proof.
  induction requests as [|rq requests IH]; intros st.
  - cbn. lia.
  - rewrite serve_json_cons, IH. unfold recorded_requests. cbn [filter].
    destruct (recorded StringToNumber NumberToString (snd rq)) eqn:R.
    + destruct (post_json_recorded _ _ (fst (fst rq)) (snd (fst rq)) (snd rq) st R)
        as (p & k & _ & _ & _ & E).
      rewrite E. cbn [snd JSON_RUNS length]. rewrite length_app. cbn [length]. lia.
    + rewrite (post_json_not_recorded _ _ _ _ _ _ R). reflexivity.
Qed.

(** X10: the listing after any requests counts the recorded ones. *)
Theorem listing_counts_accepted :
  forall StringToNumber NumberToString Date_parse
         (requests : list (string * string * JsonBody)),
    json_count
      (get_runs_json Date_parse
         (serve_json StringToNumber NumberToString requests initial_json_store)) =
    length (recorded_requests StringToNumber NumberToString requests).
Proof.
  intros StringToNumber NumberToString Date_parse requests.
  unfold get_runs_json. cbn [json_count].
  rewrite (Permutation_length (Array_sort_Permutation _ _)), serve_json_length.
  reflexivity.
Qed.

(** ** The export on JSON bodies *)

(** A project field the export can strip of commas: a string, or a falsy
    value, for which [""] is taken. *)
Definition is_text_field (v : field) : bool :=
  match json_or v (JString "") with
  | JString _ => true
  | _ => false
  end.

(** A field whose conversion to text does not throw. *)
Definition converts (NumberToString : float -> string) (v : field) : bool :=
  match v with
  | Some j => is_some (json_ToString NumberToString j)
  | None => true
  end.

(** The request gives nothing that makes a row of the export throw. *)
Definition exportable_json (NumberToString : float -> string) (body : JsonBody)
  : bool :=
  is_text_field (json_projectName body) && is_text_field (json_projectSite body) &&
  is_text_field (json_mixId body) &&
  converts NumberToString (json_castingDate body) &&
  converts NumberToString (json_cementGrade body).

Lemma json_or_truthy (v : field) (d : json) :
  json_truthy (Some d) = true -> json_truthy (Some (json_or v d)) = true.
Proof.
  intros Hd. unfold json_or. destruct v as [j|]; [|exact Hd].
  destruct (json_truthy (Some j)) eqn:T; assumption.
Qed.

Lemma sanitize_json_or (v : field) (d : string) :
  is_some (sanitize_json (json_or v (JString d))) = is_text_field v.
Proof.
  unfold sanitize_json, is_text_field, json_or.
  destruct v as [j|].
  - destruct (json_truthy (Some j)) eqn:T.
    + rewrite T. destruct j; reflexivity.
    + destruct (json_truthy (Some (JString d))); reflexivity.
  - destruct (json_truthy (Some (JString d))); reflexivity.
Qed.

Lemma falsy_converts NumberToString (v : field) :
  json_truthy v = false -> converts NumberToString v = true.
Proof.
  destruct v as [[| | | | |]|]; cbn; try reflexivity; discriminate.
Qed.

Lemma join_item_json_or NumberToString (v : field) (d : json) :
  (d = JNull \/ exists s, d = JString s) ->
  is_some (json_join_item NumberToString (json_or v d)) = converts NumberToString v.
Proof.
  intros Hd.
  assert (is_some (json_join_item NumberToString d) = true) as Hdef
    by (destruct Hd as [->|[s ->]]; reflexivity).
  unfold json_or. destruct v as [j|]; [|exact Hdef].
  destruct (json_truthy (Some j)) eqn:T.
  - destruct j; reflexivity.
  - rewrite Hdef. symmetry. apply (falsy_converts NumberToString (Some j) T).
Qed.

Lemma join_item_date NumberToString (v : field) (d : string) :
  is_some (json_join_item NumberToString
             (json_or (Some (json_or v (JString d))) (JString ""))) =
  converts NumberToString v.
Proof.
  rewrite <- (join_item_json_or NumberToString v (JString d)) by eauto.
  unfold json_or at 1.
  destruct (json_truthy (Some (json_or v (JString d)))) eqn:T; [reflexivity|].
  destruct (json_or v (JString d)) as [| | | | |] eqn:E; try reflexivity;
    try discriminate T.
Qed.

Lemma csv_row_json_recorded StringToNumber NumberToString timestamp today body id p k :
  csv_row_json NumberToString
    (json_recorded_run StringToNumber NumberToString timestamp today body id p k)
  = None <-> exportable_json NumberToString body = false.
Proof.
  unfold csv_row_json, csv_fields_json, exportable_json. cbv zeta.
  cbn [json_recorded_run json_run_project json_run_input
       json_project_projectName json_project_projectSite json_project_mixId
       json_project_castingDate json_input_cementGrade].
  rewrite <- (sanitize_json_or (json_projectName body) ""),
          <- (sanitize_json_or (json_projectSite body) ""),
          <- (sanitize_json_or (json_mixId body)
                ("MIX-" ++ padStart3 (String_of_Z id))),
          <- (join_item_date NumberToString (json_castingDate body)
                (substring 0 10 today)),
          <- (join_item_json_or NumberToString (json_cementGrade body) JNull)
    by (left; reflexivity).
  destruct (sanitize_json (json_or (json_projectName body) (JString "")));
  destruct (sanitize_json (json_or (json_projectSite body) (JString "")));
  destruct (sanitize_json (json_or (json_mixId body) _));
  destruct (json_join_item NumberToString
              (json_or (Some (json_or (json_castingDate body) _)) _));
  destruct (json_join_item NumberToString (json_or (json_cementGrade body) JNull));
  cbn [option_map is_some andb]; split; congruence.
Qed.

Lemma serve_json_Exists (P : JsonRun -> Prop) (Q : JsonBody -> Prop)
  StringToNumber NumberToString :
  (forall timestamp today body id p k,
     P (json_recorded_run StringToNumber NumberToString timestamp today body id p k)
     <-> Q body) ->
  forall requests st,
    Exists P (JSON_RUNS (serve_json StringToNumber NumberToString requests st)) <->
    Exists P (JSON_RUNS st) \/
    Exists (fun rq => recorded StringToNumber NumberToString (snd rq) = true /\
                      Q (snd rq)) requests.
Proof.
  intros HPQ requests. induction requests as [|rq requests IH]; intros st.
  - cbn. split; [tauto|]. intros [H|H]; [exact H | inversion H].
  - rewrite serve_json_cons, IH, Exists_cons.
    destruct (recorded StringToNumber NumberToString (snd rq)) eqn:R.
    + destruct (post_json_recorded _ _ (fst (fst rq)) (snd (fst rq)) (snd rq) st R)
        as (p & k & _ & _ & _ & E).
      rewrite E. cbn [snd JSON_RUNS].
      rewrite Exists_app, Exists_cons, Exists_nil, HPQ. tauto.
    + rewrite (post_json_not_recorded _ _ _ _ _ _ R). cbn [snd].
      split; [tauto|]. intros [H|[[H _]|H]]; [tauto|discriminate|tauto].
Qed.

(** X11: the export throws exactly when some recorded request gave a
    project name, site or mix identifier that is truthy and not a string, or
    a casting date or cement grade whose conversion to text throws (an
    object with an own [toString], or an array that holds one): the request
    is recorded all the same, and from then on every export fails, whatever
    else is stored. *)
Theorem export_fails_iff :
  forall StringToNumber NumberToString
         (requests : list (string * string * JsonBody)),
    export_csv_json NumberToString
      (serve_json StringToNumber NumberToString requests initial_json_store) = None
    <->
    Exists (fun rq => recorded StringToNumber NumberToString (snd rq) = true /\
                      exportable_json NumberToString (snd rq) = false) requests.
Proof.
  intros StringToNumber NumberToString requests.
  unfold export_csv_json.
  pose proof (serve_json_Exists (fun run => csv_row_json NumberToString run = None)
                (fun body => exportable_json NumberToString body = false)
                StringToNumber NumberToString
                (fun timestamp today body id p k =>
                   csv_row_json_recorded StringToNumber NumberToString timestamp
                     today body id p k)
                requests initial_json_store) as H.
  cbn [JSON_RUNS initial_json_store] in H.
  destruct (map_throwing _ _) eqn:E.
  - split; [discriminate|]. intros HE.
    assert (map_throwing (csv_row_json NumberToString)
              (JSON_RUNS (serve_json StringToNumber NumberToString requests
                            initial_json_store)) = None) as C.
    { apply map_throwing_None. apply H. right. exact HE. }
    congruence.
  - split; [|reflexivity]. intros _.
    apply map_throwing_None in E. apply H in E as [E|E]; [inversion E | exact E].
Qed.

(** The two ways of the export to fail, on one request each: a numeric
    project name, and a casting date that cannot be converted to text. *)
Lemma export_fails_examples :
  forall StringToNumber NumberToString,
    let body (name date : field) : JsonBody :=
      {| json_fck := Some (JNumber 20); json_cementGrade := None;
         json_exposure := None; json_projectName := name;
         json_projectSite := None; json_mixId := None;
         json_castingDate := date |} in
    recorded StringToNumber NumberToString (body (Some (JNumber 7)) None) = true /\
    exportable_json NumberToString (body (Some (JNumber 7)) None) = false /\
    recorded StringToNumber NumberToString
      (body None (Some (JObject [("toString"%string, JNumber 1)]))) = true /\
    exportable_json NumberToString
      (body None (Some (JObject [("toString"%string, JNumber 1)]))) = false /\
    exportable_json NumberToString (body (Some (JString "Site A")) None) = true.
Proof. intros StringToNumber NumberToString body. repeat split. Qed.

(** ** Bodies with primitive fields *)

(** A primitive value as a field of a JSON body. *)
Definition json_of_value (v : value) : field :=
  match v with
  | VUndefined => None
  | VNull => Some JNull
  | VBool b => Some (JBool b)
  | VNumber x => Some (JNumber x)
  | VString s => Some (JString s)
  end.

Definition json_of_body (body : Body) : JsonBody :=
  {| json_fck := json_of_value (body_fck body);
     json_cementGrade := json_of_value (body_cementGrade body);
     json_exposure := option_map JString (body_exposure body);
     json_projectName := json_of_value (body_projectName body);
     json_projectSite := json_of_value (body_projectSite body);
     json_mixId := json_of_value (body_mixId body);
     json_castingDate := json_of_value (body_castingDate body) |}.

Lemma json_truthy_of_value (v : value) : json_truthy (json_of_value v) = truthy v.
Proof. destruct v; reflexivity. Qed.

Lemma ToPrimitive_of_value NumberToString (v : value) :
  ToPrimitive NumberToString (json_of_value v) = Some v.
Proof. destruct v; reflexivity. Qed.

Lemma json_ToPropertyKey_of_string NumberToString (exposureKey : option string) :
  json_ToPropertyKey NumberToString (option_map JString exposureKey) =
  Some (ToPropertyKey exposureKey).
Proof. destruct exposureKey; reflexivity. Qed.

Lemma json_or_of_value (v : value) (d : string) :
  Some (json_or (json_of_value v) (JString d)) =
  json_of_value (value_or v (VString d)).
Proof.
  unfold value_or, json_or. rewrite <- json_truthy_of_value.
  destruct v as [| |b|x|s]; cbn [json_of_value]; try reflexivity;
    match goal with
    | |- context [json_truthy ?f] => destruct (json_truthy f)
    end; reflexivity.
Qed.

(** On a body whose fields are primitives and whose exposure is a string or
    absent, the handler on JSON bodies gives the response of the handler
    modelled first: the same message, or a run with the same identifier,
    timestamp, input and result. *)
Lemma primitive_bodies_agree StringToNumber NumberToString timestamp today
  (body : Body) (st : Store) (jst : JsonStore) :
  JSON_NEXT_ID jst = NEXT_ID st ->
  match fst (post_mix_design StringToNumber timestamp today body st),
        fst (post_mix_design_json StringToNumber NumberToString timestamp today
               (json_of_body body) jst) with
  | BadRequest message, Status400 message' => message = message'
  | Ok run, Status200 jrun =>
      run_id run = json_run_id jrun /\
      run_timestamp run = json_run_timestamp jrun /\
      input_fck (run_input run) = json_input_fck (json_run_input jrun) /\
      input_exposure (run_input run) = json_input_exposure (json_run_input jrun) /\
      run_result run = json_run_result jrun /\
      json_of_value (mixId (run_project run)) =
        Some (json_project_mixId (json_run_project jrun))
  | _, _ => False
  end.
Proof.
  intros Hid.
  assert (recorded StringToNumber NumberToString (json_of_body body) =
          accepted StringToNumber body) as HR.
  { unfold recorded, accepted. cbn [json_of_body json_fck json_exposure].
    rewrite json_truthy_of_value, ToPrimitive_of_value,
      json_ToPropertyKey_of_string.
    cbn [is_some]. rewrite andb_true_r. reflexivity. }
  destruct (accepted StringToNumber body) eqn:A.
  - rewrite (post_mix_design_accepted _ _ _ _ _ A).
    destruct (post_json_recorded _ NumberToString timestamp today _ jst HR)
      as (p & k & Ep & _ & Ek & E).
    rewrite E. cbn [fst json_of_body json_fck json_exposure] in *.
    rewrite ToPrimitive_of_value in Ep. injection Ep as <-.
    rewrite json_ToPropertyKey_of_string in Ek. injection Ek as <-.
    cbn [recorded_run json_recorded_run run_id json_run_id run_timestamp
         json_run_timestamp run_input json_run_input input_fck json_input_fck
         input_exposure json_input_exposure run_result json_run_result
         run_project json_run_project mixId json_project_mixId json_mixId].
    assert (resolve (Some (ToPropertyKey (body_exposure body))) =
            resolve (body_exposure body)) as Hres
      by (destruct (body_exposure body); reflexivity).
    rewrite Hres, Hid.
    repeat split; try (apply result_for_resolve; symmetry; exact Hres).
    symmetry.
    exact (json_or_of_value (body_mixId body)
             ("MIX-" ++ padStart3 (String_of_Z (NEXT_ID st)))).
  - rewrite (post_mix_design_rejected _ _ _ _ _ A).
    rewrite (post_json_not_recorded _ _ _ _ _ _ HR).
    cbn [fst json_of_body json_fck]. rewrite json_truthy_of_value.
    destruct (truthy (body_fck body)) eqn:T; [|reflexivity].
    rewrite ToPrimitive_of_value.
    unfold accepted in A. rewrite T in A. cbn [andb] in A. rewrite A.
    reflexivity.
Qed.
